(** * Pidgin-Lang: bytecode compiler and stack VM

    A shallow embedding of the value encoding ([vm/value.go]), the chunk
    ([vm/chunk.go]), the opcode table ([vm/opcode.go]), the symbol table
    ([compiler/symbol_table.go]), the compiler ([compiler/compiler.go]) and
    the dispatch loop ([vm/vm.go]), followed by the properties of the
    specification that were checked against them.

    Conventions of the embedding
    - Go's [int] and [int64] are [Z]; conversions between integer types are
      written out ([to_uint64], [to_int64], [to_byte], ...).  Instruction
      pointers and stack indices are [int] values that stay far from the
      64-bit bounds and are kept as plain [Z].
    - A [Value] is the 64-bit word itself, as a [Z] in [0, 2^64).
    - A [*string] is a handle into [Heap], the cells allocated by [new(string)];
      the n-th allocated cell has address [n + 1] (0 is nil).
    - Go maps are stdpp [gmap]s. *)

From Stdlib Require Import ZArith String Ascii List Lia Bool.
From Stdlib Require Import DecimalString.
From stdpp Require Import gmap strings list.

#[local] Set Warnings "-register-all".

Local Open Scope string_scope.
Local Open Scope list_scope.
Local Open Scope Z_scope.

(* ===================================================================== *)
(** ** Machine integers *)
(* ===================================================================== *)

Definition to_uint64 (z : Z) : Z := z mod 2 ^ 64.
Definition to_int64 (z : Z) : Z := (z + 2 ^ 63) mod 2 ^ 64 - 2 ^ 63.
Definition to_uint16 (z : Z) : Z := z mod 2 ^ 16.
Definition to_int16 (z : Z) : Z := (z + 2 ^ 15) mod 2 ^ 16 - 2 ^ 15.
Definition to_byte (z : Z) : Z := z mod 2 ^ 8.
Definition to_int8 (z : Z) : Z := (z + 2 ^ 7) mod 2 ^ 8 - 2 ^ 7.

(** The representative of [z] modulo [2^48] in the signed 48-bit range. *)
Definition wrap48 (z : Z) : Z := (z + 2 ^ 47) mod 2 ^ 48 - 2 ^ 47.

(** [fmt.Sprintf("%d", z)] *)
Definition fmt_d (z : Z) : string := NilZero.string_of_int (Z.to_int z).

(* ===================================================================== *)
(** ** vm/value.go: NaN-boxed values *)
(* ===================================================================== *)

Definition Value := Z.

Definition QNAN_BASE : Z := 0x7FF8000000000000.

Definition TAG_INT : Z := 0.
Definition TAG_BOOL : Z := 1.
Definition TAG_NOTHING : Z := 2.
Definition TAG_STRING : Z := 3.
Definition TAG_FUNC : Z := 4.
Definition TAG_BUILTIN : Z := 5.
Definition TAG_ERROR : Z := 6.

Definition TAG_SHIFT : Z := 48.
Definition TAG_MASK : Z := 0x7.
Definition PAYLOAD_MASK : Z := 0x0000FFFFFFFFFFFF.

Definition MAX_INT_48 : Z := 140737488355327.
Definition MIN_INT_48 : Z := -140737488355328.

Definition TypeInt := "number".
Definition TypeBool := "boolean".
Definition TypeNothing := "nothing".
Definition TypeString := "string".
Definition TypeFunc := "function".
Definition TypeBuiltin := "builtin".
Definition TypeError := "error".

(** The cells holding the strings that [*string] values point to. *)
Definition Heap := list string.

Definition deref (h : Heap) (p : Z) : option string :=
  if (1 <=? p) then h !! Z.to_nat (p - 1) else None.

(** [new(string)] followed by [*ptr = s] *)
Definition alloc (h : Heap) (s : string) : Heap * Z :=
  (h ++ [s], Z.of_nat (length h) + 1).

(** *** Constructors *)

Definition NewInt (i : Z) : Value :=
  let i48 := Z.land (to_uint64 i) PAYLOAD_MASK in
  Z.lor (Z.lor QNAN_BASE (Z.shiftl TAG_INT TAG_SHIFT)) i48.

Definition NewBool (b : bool) : Value :=
  let val := if b then 1 else 0 in
  Z.lor (Z.lor QNAN_BASE (Z.shiftl TAG_BOOL TAG_SHIFT)) val.

Definition NewNothing : Value :=
  Z.lor QNAN_BASE (Z.shiftl TAG_NOTHING TAG_SHIFT).

Definition NewString (s : Z) : Value :=
  let ptr := Z.land (to_uint64 s) PAYLOAD_MASK in
  Z.lor (Z.lor QNAN_BASE (Z.shiftl TAG_STRING TAG_SHIFT)) ptr.

Definition NewBuiltin (index : Z) : Value :=
  Z.lor (Z.lor QNAN_BASE (Z.shiftl TAG_BUILTIN TAG_SHIFT)) (to_uint64 index).

(** *** Type checking *)

Definition GetTag (v : Value) : Z :=
  to_byte (Z.land (Z.shiftr v TAG_SHIFT) TAG_MASK).

Definition IsInt (v : Value) : bool := GetTag v =? TAG_INT.
Definition IsBool (v : Value) : bool := GetTag v =? TAG_BOOL.
Definition IsNothing (v : Value) : bool := GetTag v =? TAG_NOTHING.
Definition IsString (v : Value) : bool := GetTag v =? TAG_STRING.
Definition IsFunc (v : Value) : bool := GetTag v =? TAG_FUNC.
Definition IsBuiltin (v : Value) : bool := GetTag v =? TAG_BUILTIN.
Definition IsError (v : Value) : bool := GetTag v =? TAG_ERROR.

(** *** Value extraction *)

Definition AsInt (v : Value) : Z :=
  let i48 := to_int64 (Z.land v PAYLOAD_MASK) in
  if negb (Z.land i48 0x800000000000 =? 0)
  then Z.lor i48 (Z.lnot PAYLOAD_MASK)
  else i48.

Definition AsBool (v : Value) : bool := negb (Z.land v 1 =? 0).

Definition AsString (v : Value) : Z := Z.land v PAYLOAD_MASK.

Definition AsBuiltin (v : Value) : Z := to_int64 (Z.land v PAYLOAD_MASK).

Definition TypeName (v : Value) : string :=
  let t := GetTag v in
  if t =? TAG_INT then TypeInt
  else if t =? TAG_BOOL then TypeBool
  else if t =? TAG_NOTHING then TypeNothing
  else if t =? TAG_STRING then TypeString
  else if t =? TAG_FUNC then TypeFunc
  else if t =? TAG_BUILTIN then TypeBuiltin
  else if t =? TAG_ERROR then TypeError
  else "unknown".

(** [Value.String].  [None] stands for the memory fault of dereferencing a
    handle that no allocation returned.  Function and error records are never
    allocated by the compiler or the dispatch loop, so a value carrying one of
    these tags has no referent. *)
Definition Value_String (h : Heap) (v : Value) : option string :=
  let t := GetTag v in
  if t =? TAG_INT then Some (fmt_d (AsInt v))
  else if t =? TAG_BOOL then Some (if AsBool v then "tru" else "lie")
  else if t =? TAG_NOTHING then Some "nothing"
  else if t =? TAG_STRING then deref h (AsString v)
  else if t =? TAG_FUNC then None
  else if t =? TAG_BUILTIN then Some ("<builtin " +:+ fmt_d (AsBuiltin v) +:+ ">")
  else if t =? TAG_ERROR then None
  else Some "<unknown>".

(** *** Truthiness *)

Definition IsFalsey (v : Value) : bool :=
  if IsBool v then negb (AsBool v)
  else if IsNothing v then true
  else false.

Definition IsTruthy (v : Value) : bool := negb (IsFalsey v).

(** *** Equality *)

Definition Equals (h : Heap) (v other : Value) : option bool :=
  if v =? other then Some true
  else if negb (GetTag v =? GetTag other) then Some false
  else if IsString v then
    match deref h (AsString v), deref h (AsString other) with
    | Some a, Some b => Some (String.eqb a b)
    | _, _ => None
    end
  else Some false.

(* ===================================================================== *)
(** ** vm/opcode.go *)
(* ===================================================================== *)

Inductive Opcode :=
| OP_CONST_0 | OP_CONST_1 | OP_CONST_MINUS1 | OP_NOTHING | OP_TRU | OP_LIE
| OP_CONSTANT | OP_CONST_I8 | OP_CONST_I16
| OP_ADD | OP_SUB | OP_MUL | OP_DIV | OP_NEGATE
| OP_EQUAL | OP_NOT_EQUAL | OP_GREATER | OP_LESS
| OP_NOT
| OP_GET_LOCAL_0 | OP_GET_LOCAL_1 | OP_GET_LOCAL_2 | OP_GET_LOCAL_3
| OP_GET_LOCAL | OP_SET_LOCAL_0 | OP_SET_LOCAL_1 | OP_SET_LOCAL
| OP_GET_GLOBAL | OP_SET_GLOBAL
| OP_JUMP | OP_JUMP_IF_LIE | OP_JUMP_IF_TRU | OP_LOOP
| OP_CALL_0 | OP_CALL_1 | OP_CALL_2 | OP_CALL | OP_CLOSURE | OP_RETURN
| OP_BRING
| OP_YARN | OP_BUILTIN
| OP_POP | OP_DUP
| OP_CONCAT
| OP_HALT.

(** The numeric value of each opcode constant. *)
Definition Opcode_byte (op : Opcode) : Z :=
  match op with
  | OP_CONST_0 => 0 | OP_CONST_1 => 1 | OP_CONST_MINUS1 => 2
  | OP_NOTHING => 3 | OP_TRU => 4 | OP_LIE => 5
  | OP_CONSTANT => 6 | OP_CONST_I8 => 7 | OP_CONST_I16 => 8
  | OP_ADD => 10 | OP_SUB => 11 | OP_MUL => 12 | OP_DIV => 13
  | OP_NEGATE => 14
  | OP_EQUAL => 20 | OP_NOT_EQUAL => 21 | OP_GREATER => 22 | OP_LESS => 23
  | OP_NOT => 30
  | OP_GET_LOCAL_0 => 35 | OP_GET_LOCAL_1 => 36 | OP_GET_LOCAL_2 => 37
  | OP_GET_LOCAL_3 => 38 | OP_GET_LOCAL => 39
  | OP_SET_LOCAL_0 => 40 | OP_SET_LOCAL_1 => 41 | OP_SET_LOCAL => 42
  | OP_GET_GLOBAL => 43 | OP_SET_GLOBAL => 44
  | OP_JUMP => 45 | OP_JUMP_IF_LIE => 46 | OP_JUMP_IF_TRU => 47
  | OP_LOOP => 48
  | OP_CALL_0 => 55 | OP_CALL_1 => 56 | OP_CALL_2 => 57 | OP_CALL => 58
  | OP_CLOSURE => 59 | OP_RETURN => 60 | OP_BRING => 61
  | OP_YARN => 65 | OP_BUILTIN => 66
  | OP_POP => 75 | OP_DUP => 76
  | OP_CONCAT => 80
  | OP_HALT => 85
  end.

(** [Opcode(b)] for a code byte [b]: the named constant with that value, if
    there is one. *)
Definition Opcode_of_byte (b : Z) : option Opcode :=
  match b with
  | 0 => Some OP_CONST_0 | 1 => Some OP_CONST_1 | 2 => Some OP_CONST_MINUS1
  | 3 => Some OP_NOTHING | 4 => Some OP_TRU | 5 => Some OP_LIE
  | 6 => Some OP_CONSTANT | 7 => Some OP_CONST_I8 | 8 => Some OP_CONST_I16
  | 10 => Some OP_ADD | 11 => Some OP_SUB | 12 => Some OP_MUL
  | 13 => Some OP_DIV | 14 => Some OP_NEGATE
  | 20 => Some OP_EQUAL | 21 => Some OP_NOT_EQUAL | 22 => Some OP_GREATER
  | 23 => Some OP_LESS
  | 30 => Some OP_NOT
  | 35 => Some OP_GET_LOCAL_0 | 36 => Some OP_GET_LOCAL_1
  | 37 => Some OP_GET_LOCAL_2 | 38 => Some OP_GET_LOCAL_3
  | 39 => Some OP_GET_LOCAL
  | 40 => Some OP_SET_LOCAL_0 | 41 => Some OP_SET_LOCAL_1
  | 42 => Some OP_SET_LOCAL
  | 43 => Some OP_GET_GLOBAL | 44 => Some OP_SET_GLOBAL
  | 45 => Some OP_JUMP | 46 => Some OP_JUMP_IF_LIE | 47 => Some OP_JUMP_IF_TRU
  | 48 => Some OP_LOOP
  | 55 => Some OP_CALL_0 | 56 => Some OP_CALL_1 | 57 => Some OP_CALL_2
  | 58 => Some OP_CALL | 59 => Some OP_CLOSURE | 60 => Some OP_RETURN
  | 61 => Some OP_BRING
  | 65 => Some OP_YARN | 66 => Some OP_BUILTIN
  | 75 => Some OP_POP | 76 => Some OP_DUP
  | 80 => Some OP_CONCAT
  | 85 => Some OP_HALT
  | _ => None
  end.

(** The map [OpcodeOperandCount]: the number of operand bytes that follow
    each opcode. *)
Definition OpcodeOperandCount (op : Opcode) : option Z :=
  match op with
  | OP_CONST_0 | OP_CONST_1 | OP_CONST_MINUS1 | OP_NOTHING | OP_TRU | OP_LIE
  | OP_ADD | OP_SUB | OP_MUL | OP_DIV | OP_NEGATE
  | OP_EQUAL | OP_NOT_EQUAL | OP_GREATER | OP_LESS | OP_NOT
  | OP_GET_LOCAL_0 | OP_GET_LOCAL_1 | OP_GET_LOCAL_2 | OP_GET_LOCAL_3
  | OP_SET_LOCAL_0 | OP_SET_LOCAL_1
  | OP_CALL_0 | OP_CALL_1 | OP_CALL_2 | OP_RETURN | OP_BRING
  | OP_POP | OP_DUP | OP_CONCAT | OP_HALT => Some 0
  | OP_CONST_I8 | OP_GET_LOCAL | OP_SET_LOCAL | OP_CALL | OP_YARN => Some 1
  | OP_CONST_I16 | OP_CONSTANT | OP_GET_GLOBAL | OP_SET_GLOBAL
  | OP_JUMP | OP_JUMP_IF_LIE | OP_JUMP_IF_TRU | OP_LOOP | OP_CLOSURE
  | OP_BUILTIN => Some 2
  end.

Definition GetOperandCount (op : Opcode) : Z :=
  match OpcodeOperandCount op with
  | Some count => count
  | None => 0
  end.

(* ===================================================================== *)
(** ** Results of fallible code *)
(* ===================================================================== *)

(** [Ok]: normal return; [Err]: a Go [error] value was returned; [Panicked]:
    a Go panic (explicit, or raised by a failed bounds check or a bad
    dereference) unwound the call. *)
Inductive Res (A : Type) :=
| Ok (a : A)
| Err (msg : string)
| Panicked (msg : string).
Arguments Ok {A} a.
Arguments Err {A} msg.
Arguments Panicked {A} msg.

Definition bind {A B : Type} (r : Res A) (k : A -> Res B) : Res B :=
  match r with
  | Ok a => k a
  | Err msg => Err msg
  | Panicked msg => Panicked msg
  end.

Notation "'let*' x ':=' r 'in' k" := (bind r (fun x => k))
  (at level 10, x pattern, r at level 100, k at level 200).

Definition index_out_of_range : string := "runtime error: index out of range".
Definition bad_pointer : string :=
  "runtime error: invalid memory address or nil pointer dereference".

Definition Equals_res (h : Heap) (v other : Value) : Res bool :=
  match Equals h v other with
  | Some b => Ok b
  | None => Panicked bad_pointer
  end.

Definition String_res (h : Heap) (v : Value) : Res string :=
  match Value_String h v with
  | Some s => Ok s
  | None => Panicked bad_pointer
  end.

(* ===================================================================== *)
(** ** vm/chunk.go *)
(* ===================================================================== *)

Record Chunk := mkChunk {
  Code : list Z;
  Constants : list Value;
  Lines : list Z;
  strings : gmap string Z
}.

Definition NewChunk : Chunk :=
  {| Code := []; Constants := []; Lines := []; strings := ∅ |}.

Definition WriteByte (c : Chunk) (b : Z) (line : Z) : Chunk :=
  {| Code := Code c ++ [b]; Constants := Constants c;
     Lines := Lines c ++ [line]; strings := strings c |}.

Definition WriteOpcode (c : Chunk) (op : Opcode) (line : Z) : Chunk :=
  WriteByte c (Opcode_byte op) line.

Definition WriteBytes (c : Chunk) (bytes : list Z) (line : Z) : Chunk :=
  fold_left (fun c b => WriteByte c b line) bytes c.

Definition Count (c : Chunk) : Z := Z.of_nat (length (Code c)).

(** The search loop of [AddConstant]: the index of the first pooled entry
    that [Equals] the value, counting from [i]. *)
Fixpoint find_constant (h : Heap) (cs : list Value) (value : Value) (i : Z)
  : Res (option Z) :=
  match cs with
  | [] => Ok None
  | existing :: rest =>
      let* eq := Equals_res h existing value in
      if (eq : bool) then Ok (Some i) else find_constant h rest value (i + 1)
  end.

Definition AddConstant (h : Heap) (c : Chunk) (value : Value) : Res (Chunk * Z) :=
  let* found := find_constant h (Constants c) value 0 in
  match found with
  | Some i => Ok (c, i)
  | None =>
      let c' := {| Code := Code c; Constants := Constants c ++ [value];
                   Lines := Lines c; strings := strings c |} in
      Ok (c', Z.of_nat (length (Constants c')) - 1)
  end.

Definition GetConstant (c : Chunk) (index : Z) : Value :=
  if (index <? 0) || (Z.of_nat (length (Constants c)) <=? index) then NewNothing
  else default NewNothing (Constants c !! Z.to_nat index).

(** No two entries of the pool compare equal. *)
Definition pool_distinct (h : Heap) (cs : list Value) : Prop :=
  forall i j a b, (i < j)%nat -> cs !! i = Some a -> cs !! j = Some b ->
                  Equals h a b <> Some true.

Definition InternString (h : Heap) (c : Chunk) (s : string) : Heap * Chunk * Z :=
  match strings c !! s with
  | Some existing => (h, c, existing)
  | None =>
      let '(h', ptr) := alloc h s in
      (h', {| Code := Code c; Constants := Constants c; Lines := Lines c;
              strings := <[s := ptr]> (strings c) |}, ptr)
  end.

Definition GetLine (c : Chunk) (offset : Z) : Z :=
  if (offset <? 0) || (Z.of_nat (length (Lines c)) <=? offset) then 0
  else default 0 (Lines c !! Z.to_nat offset).

(** Indexing a Go slice: out of range panics. *)
Definition slice_at {A : Type} (l : list A) (i : Z) : option A :=
  if (0 <=? i) && (i <? Z.of_nat (length l)) then l !! Z.to_nat i else None.

Definition slice_set {A : Type} (l : list A) (i : Z) (x : A) : option (list A) :=
  if (0 <=? i) && (i <? Z.of_nat (length l)) then Some (<[Z.to_nat i := x]> l)
  else None.

(* ===================================================================== *)
(** ** compiler/symbol_table.go *)
(* ===================================================================== *)

Inductive SymbolScope :=
| SCOPE_GLOBAL | SCOPE_LOCAL | SCOPE_UPVALUE | SCOPE_BUILTIN.

Record Symbol := mkSymbol {
  Name : string;
  Scope : SymbolScope;
  Index : Z
}.

(** The zero value [Symbol{}]. *)
Definition Symbol_zero : Symbol :=
  {| Name := ""; Scope := SCOPE_GLOBAL; Index := 0 |}.

Inductive SymbolTable :=
| mkSymbolTable (outer : option SymbolTable) (store : gmap string Symbol)
                (numDefinitions : Z).

Definition outer (st : SymbolTable) : option SymbolTable :=
  match st with mkSymbolTable o _ _ => o end.
Definition store (st : SymbolTable) : gmap string Symbol :=
  match st with mkSymbolTable _ s _ => s end.
Definition numDefinitions (st : SymbolTable) : Z :=
  match st with mkSymbolTable _ _ n => n end.

Definition NewSymbolTable : SymbolTable := mkSymbolTable None ∅ 0.

Definition NewEnclosedSymbolTable (o : SymbolTable) : SymbolTable :=
  mkSymbolTable (Some o) ∅ 0.

Definition Define (st : SymbolTable) (name : string) : SymbolTable * Symbol :=
  let symbol :=
    {| Name := name;
       Scope := match outer st with
                | None => SCOPE_GLOBAL
                | Some _ => SCOPE_LOCAL
                end;
       Index := numDefinitions st |} in
  (mkSymbolTable (outer st) (<[name := symbol]> (store st))
                 (numDefinitions st + 1),
   symbol).

Definition DefineBuiltin (st : SymbolTable) (index : Z) (name : string)
  : SymbolTable * Symbol :=
  let symbol := {| Name := name; Scope := SCOPE_BUILTIN; Index := index |} in
  (mkSymbolTable (outer st) (<[name := symbol]> (store st)) (numDefinitions st),
   symbol).

Definition SymbolScope_eqb (a b : SymbolScope) : bool :=
  match a, b with
  | SCOPE_GLOBAL, SCOPE_GLOBAL | SCOPE_LOCAL, SCOPE_LOCAL
  | SCOPE_UPVALUE, SCOPE_UPVALUE | SCOPE_BUILTIN, SCOPE_BUILTIN => true
  | _, _ => false
  end.

Fixpoint Resolve (st : SymbolTable) (name : string) : Symbol * bool :=
  match st with
  | mkSymbolTable o s _ =>
      match s !! name with
      | Some symbol => (symbol, true)
      | None =>
          match o with
          | Some o' =>
              let '(symbol, ok) := Resolve o' name in
              if negb ok then (symbol, false)
              else if SymbolScope_eqb (Scope symbol) SCOPE_LOCAL
                   then (symbol, true)
                   else (symbol, true)
          | None => (Symbol_zero, false)
          end
      end
  end.

Definition SymbolScope_String (s : SymbolScope) : string :=
  match s with
  | SCOPE_GLOBAL => "GLOBAL"
  | SCOPE_LOCAL => "LOCAL"
  | SCOPE_UPVALUE => "UPVALUE"
  | SCOPE_BUILTIN => "BUILTIN"
  end.

(* ===================================================================== *)
(** ** token/token.go and ast/ast.go *)
(* ===================================================================== *)

Record Token := mkToken {
  Type' : string;
  Literal : string;
  Line : Z
}.

(** Every node carries the token it was parsed from.  A [*BlockStatement] is
    used both as a statement and as the body of [suppose] and [while]. *)
Inductive Expression :=
| Identifier (tok : Token) (value : string)
| IntegerLiteral (tok : Token) (value : Z)
| StringLiteral (tok : Token) (value : string)
| Boolean (tok : Token) (value : bool)
| NothingLiteral (tok : Token)
| PrefixExpression (tok : Token) (operator : string) (right : Expression)
| InfixExpression (tok : Token) (left : Expression) (operator : string)
                  (right : Expression)
| SupposeExpression (tok : Token) (condition : Expression)
                    (consequence : BlockStatement)
                    (alternative : option BlockStatement)
| WhileExpression (tok : Token) (condition : Expression) (body : BlockStatement)
| DoExpression (tok : Token) (name : option string) (parameters : list string)
               (body : BlockStatement)
| CallExpression (tok : Token) (function : Expression)
                 (arguments : list Expression)
with Statement :=
| MakeStatement (tok : Token) (name : string) (value : Expression)
| BringStatement (tok : Token) (returnValue : option Expression)
| ExpressionStatement (tok : Token) (expression : Expression)
| BlockStmt (block : BlockStatement)
with BlockStatement :=
| Block (tok : Token) (statements : list Statement).

Record Program := mkProgram { Statements : list Statement }.

(* ===================================================================== *)
(** ** compiler/compiler.go *)
(* ===================================================================== *)

Record Compiler := mkCompiler {
  c_chunk : Chunk;
  c_symbolTable : SymbolTable;
  c_scopeDepth : Z;
  c_constants : gmap string Z;
  c_heap : Heap
}.

Definition with_chunk (c : Compiler) (ch : Chunk) : Compiler :=
  {| c_chunk := ch; c_symbolTable := c_symbolTable c;
     c_scopeDepth := c_scopeDepth c; c_constants := c_constants c;
     c_heap := c_heap c |}.

Definition New (h : Heap) : Compiler :=
  let st := NewSymbolTable in
  let st := fst (DefineBuiltin st 0 "yarn") in
  let st := fst (DefineBuiltin st 1 "len") in
  let st := fst (DefineBuiltin st 2 "type") in
  {| c_chunk := NewChunk; c_symbolTable := st; c_scopeDepth := 0;
     c_constants := ∅; c_heap := h |}.

(** *** Code generation helpers *)

Definition emit (c : Compiler) (op : Opcode) : Compiler :=
  with_chunk c (WriteOpcode (c_chunk c) op 0).

Definition emitByte (c : Compiler) (op : Opcode) (operand : Z) : Compiler :=
  let c := emit c op in
  with_chunk c (WriteByte (c_chunk c) operand 0).

Definition emitBytes (c : Compiler) (op : Opcode) (operands : list Z) : Compiler :=
  fold_left (fun c b => with_chunk c (WriteByte (c_chunk c) b 0)) operands
            (emit c op).

Definition emitShort (c : Compiler) (op : Opcode) (operand : Z) : Compiler :=
  let c := emit c op in
  let c := with_chunk c (WriteByte (c_chunk c) (to_byte (Z.shiftr operand 8)) 0) in
  with_chunk c (WriteByte (c_chunk c) (to_byte (Z.land operand 0xFF)) 0).

(** Returns the compiler and the offset of the two placeholder bytes. *)
Definition emitJump (c : Compiler) (op : Opcode) : Compiler * Z :=
  let c := emit c op in
  let c := with_chunk c (WriteByte (c_chunk c) 0xFF 0) in
  let c := with_chunk c (WriteByte (c_chunk c) 0xFF 0) in
  (c, Count (c_chunk c) - 2).

Definition set_code (ch : Chunk) (code : list Z) : Chunk :=
  {| Code := code; Constants := Constants ch; Lines := Lines ch;
     strings := strings ch |}.

Definition patchJump (c : Compiler) (offset : Z) : Res Compiler :=
  let jump := Count (c_chunk c) - offset - 2 in
  if 65535 <? jump then Panicked "Too much code to jump over"
  else
    match slice_set (Code (c_chunk c)) offset (to_byte (Z.shiftr jump 8)) with
    | None => Panicked index_out_of_range
    | Some code1 =>
        match slice_set code1 (offset + 1) (to_byte (Z.land jump 0xFF)) with
        | None => Panicked index_out_of_range
        | Some code2 => Ok (with_chunk c (set_code (c_chunk c) code2))
        end
    end.

Definition emitLoop (c : Compiler) (loopStart : Z) : Res Compiler :=
  let c := emit c OP_LOOP in
  let offset := Count (c_chunk c) - loopStart + 2 in
  if 65535 <? offset then Panicked "Loop body too large"
  else
    let c := with_chunk c (WriteByte (c_chunk c) (to_byte (Z.shiftr offset 8)) 0) in
    Ok (with_chunk c (WriteByte (c_chunk c) (to_byte (Z.land offset 0xFF)) 0)).

Definition addConstant (c : Compiler) (value : Value) : Res (Compiler * Z) :=
  let* key := String_res (c_heap c) value in
  match c_constants c !! key with
  | Some idx => Ok (c, idx)
  | None =>
      let* (ch, idx) := AddConstant (c_heap c) (c_chunk c) value in
      Ok ({| c_chunk := ch; c_symbolTable := c_symbolTable c;
             c_scopeDepth := c_scopeDepth c;
             c_constants := <[key := idx]> (c_constants c);
             c_heap := c_heap c |}, idx)
  end.

(** [c.chunk.InternString(s)] *)
Definition internString (c : Compiler) (s : string) : Compiler * Z :=
  let '(h, ch, ptr) := InternString (c_heap c) (c_chunk c) s in
  ({| c_chunk := ch; c_symbolTable := c_symbolTable c;
      c_scopeDepth := c_scopeDepth c; c_constants := c_constants c;
      c_heap := h |}, ptr).

(** *** Literals and identifiers *)

Definition compileIntegerLiteral (c : Compiler) (val : Z) : Res Compiler :=
  if val =? 0 then Ok (emit c OP_CONST_0)
  else if val =? 1 then Ok (emit c OP_CONST_1)
  else if val =? -1 then Ok (emit c OP_CONST_MINUS1)
  else if (-128 <=? val) && (val <=? 127) then
    Ok (emitByte c OP_CONST_I8 (to_byte (to_int8 val)))
  else if (-32768 <=? val) && (val <=? 32767) then
    Ok (emitShort c OP_CONST_I16 (to_uint16 (to_int16 val)))
  else
    let* (c, idx) := addConstant c (NewInt val) in
    Ok (emitShort c OP_CONSTANT (to_uint16 idx)).

Definition compileStringLiteral (c : Compiler) (value : string) : Res Compiler :=
  let '(c, strPtr) := internString c value in
  let* (c, idx) := addConstant c (NewString strPtr) in
  Ok (emitShort c OP_CONSTANT (to_uint16 idx)).

Definition compileBooleanLiteral (c : Compiler) (value : bool) : Res Compiler :=
  if value then Ok (emit c OP_TRU) else Ok (emit c OP_LIE).

Definition compileIdentifier (c : Compiler) (name : string) : Res Compiler :=
  let '(symbol, ok) := Resolve (c_symbolTable c) name in
  if negb ok then Err ("I no sabi dis one: " +:+ name)
  else
    match Scope symbol with
    | SCOPE_GLOBAL =>
        let '(c, nameStr) := internString c name in
        let* (c, idx) := addConstant c (NewString nameStr) in
        Ok (emitShort c OP_GET_GLOBAL (to_uint16 idx))
    | SCOPE_LOCAL =>
        if Index symbol =? 0 then Ok (emit c OP_GET_LOCAL_0)
        else if Index symbol =? 1 then Ok (emit c OP_GET_LOCAL_1)
        else if Index symbol =? 2 then Ok (emit c OP_GET_LOCAL_2)
        else if Index symbol =? 3 then Ok (emit c OP_GET_LOCAL_3)
        else Ok (emitByte c OP_GET_LOCAL (to_byte (Index symbol)))
    | SCOPE_BUILTIN =>
        let* (c, idx) := addConstant c (NewBuiltin (Index symbol)) in
        Ok (emitShort c OP_CONSTANT (to_uint16 idx))
    | SCOPE_UPVALUE =>
        Err ("unknown symbol scope: " +:+ SymbolScope_String (Scope symbol))
    end.

(** The binding half of the [MakeStatement] case, after the value has been
    compiled. *)
Definition compileMakeBinding (c : Compiler) (name : string) : Res Compiler :=
  let '(symbol, exists_) := Resolve (c_symbolTable c) name in
  if c_scopeDepth c =? 0 then
    let c :=
      if negb exists_ then
        {| c_chunk := c_chunk c;
           c_symbolTable := fst (Define (c_symbolTable c) name);
           c_scopeDepth := c_scopeDepth c; c_constants := c_constants c;
           c_heap := c_heap c |}
      else c in
    let '(c, nameStr) := internString c name in
    let* (c, idx) := addConstant c (NewString nameStr) in
    Ok (emitShort c OP_SET_GLOBAL (to_uint16 idx))
  else
    let '(c, symbol) :=
      if negb exists_ then
        let '(st, sym) := Define (c_symbolTable c) name in
        ({| c_chunk := c_chunk c; c_symbolTable := st;
            c_scopeDepth := c_scopeDepth c; c_constants := c_constants c;
            c_heap := c_heap c |}, sym)
      else (c, symbol) in
    if Index symbol =? 0 then Ok (emit c OP_SET_LOCAL_0)
    else if Index symbol =? 1 then Ok (emit c OP_SET_LOCAL_1)
    else Ok (emitByte c OP_SET_LOCAL (to_byte (Index symbol))).

Definition emitPrefixOperator (c : Compiler) (operator : string) : Res Compiler :=
  if String.eqb operator "-" then Ok (emit c OP_NEGATE)
  else if String.eqb operator "!" || String.eqb operator "no" then Ok (emit c OP_NOT)
  else if String.eqb operator "no be" then Ok (emit c OP_NOT)
  else Err ("unknown prefix operator: " +:+ operator).

Definition emitInfixOperator (c : Compiler) (operator : string) : Res Compiler :=
  if String.eqb operator "+" then Ok (emit c OP_ADD)
  else if String.eqb operator "-" then Ok (emit c OP_SUB)
  else if String.eqb operator "*" then Ok (emit c OP_MUL)
  else if String.eqb operator "/" then Ok (emit c OP_DIV)
  else if String.eqb operator "be" || String.eqb operator "na"
          || String.eqb operator "==" then Ok (emit c OP_EQUAL)
  else if String.eqb operator "no be" || String.eqb operator "!=" then
    Ok (emit c OP_NOT_EQUAL)
  else if String.eqb operator "big pass" || String.eqb operator ">" then
    Ok (emit c OP_GREATER)
  else if String.eqb operator "no reach" || String.eqb operator "<" then
    Ok (emit c OP_LESS)
  else Err ("unknown infix operator: " +:+ operator).

Definition emitCall (c : Compiler) (argCount : Z) : Compiler :=
  if argCount =? 0 then emit c OP_CALL_0
  else if argCount =? 1 then emit c OP_CALL_1
  else if argCount =? 2 then emit c OP_CALL_2
  else emitByte c OP_CALL (to_byte argCount).

(** [Some index] when the callee is an identifier that resolves to a builtin. *)
Definition builtinCallee (c : Compiler) (function : Expression)
  : option (string * Z) :=
  match function with
  | Identifier _ value =>
      let '(symbol, found) := Resolve (c_symbolTable c) value in
      if found && SymbolScope_eqb (Scope symbol) SCOPE_BUILTIN
      then Some (value, Index symbol) else None
  | _ => None
  end.

(** *** Statements and expressions *)

Fixpoint compileExpression (c : Compiler) (expr : Expression) {struct expr}
  : Res Compiler :=
  match expr with
  | IntegerLiteral _ val => compileIntegerLiteral c val
  | StringLiteral _ value => compileStringLiteral c value
  | Boolean _ value => compileBooleanLiteral c value
  | NothingLiteral _ => Ok (emit c OP_NOTHING)
  | Identifier _ value => compileIdentifier c value
  | PrefixExpression _ operator rhs =>
      let* c := compileExpression c rhs in
      emitPrefixOperator c operator
  | InfixExpression _ lhs operator rhs =>
      if String.eqb operator "and" then
        (* compileShortCircuitAnd *)
        let* c := compileExpression c lhs in
        let c := emit c OP_DUP in
        let '(c, jumpIfFalse) := emitJump c OP_JUMP_IF_LIE in
        let c := emit c OP_POP in
        let* c := compileExpression c rhs in
        patchJump c jumpIfFalse
      else if String.eqb operator "abi" || String.eqb operator "or" then
        (* compileShortCircuitOr *)
        let* c := compileExpression c lhs in
        let c := emit c OP_DUP in
        let '(c, jumpIfTrue) := emitJump c OP_JUMP_IF_TRU in
        let c := emit c OP_POP in
        let* c := compileExpression c rhs in
        patchJump c jumpIfTrue
      else
        let* c := compileExpression c lhs in
        let* c := compileExpression c rhs in
        emitInfixOperator c operator
  | SupposeExpression _ condition consequence alternative =>
      let* c := compileExpression c condition in
      let '(c, jumpIfFalse) := emitJump c OP_JUMP_IF_LIE in
      let* c := compileBlock c consequence in
      let '(c, jumpEnd) := emitJump c OP_JUMP in
      let* c := patchJump c jumpIfFalse in
      let* c :=
        match alternative with
        | Some alt => compileBlock c alt
        | None => Ok (emit c OP_NOTHING)
        end in
      patchJump c jumpEnd
  | WhileExpression _ condition body =>
      let loopStart := Count (c_chunk c) in
      let* c := compileExpression c condition in
      let '(c, exitJump) := emitJump c OP_JUMP_IF_LIE in
      let* c := compileBlock c body in
      let* c := emitLoop c loopStart in
      let* c := patchJump c exitJump in
      Ok (emit c OP_NOTHING)
  | DoExpression _ _ _ _ => Err "unknown expression type: *ast.DoExpression"
  | CallExpression _ function arguments =>
      let compileArguments :=
        fix go (c : Compiler) (args : list Expression) : Res Compiler :=
          match args with
          | [] => Ok c
          | arg :: rest => let* c := compileExpression c arg in go c rest
          end in
      let argCount := Z.of_nat (length arguments) in
      match builtinCallee c function with
      | Some (name, builtinIdx) =>
          (* compileBuiltinCall *)
          if String.eqb name "yarn" then
            let* c := compileArguments c arguments in
            Ok (emitByte c OP_YARN (to_byte argCount))
          else
            let* c := compileArguments c arguments in
            Ok (emitBytes c OP_BUILTIN [to_byte builtinIdx; to_byte argCount])
      | None =>
          let* c := compileArguments c arguments in
          let* c := compileExpression c function in
          Ok (emitCall c argCount)
      end
  end
with compileStatement (c : Compiler) (stmt : Statement) {struct stmt}
  : Res Compiler :=
  match stmt with
  | ExpressionStatement _ expression =>
      let* c := compileExpression c expression in
      Ok (emit c OP_POP)
  | MakeStatement _ name value =>
      let* c := compileExpression c value in
      compileMakeBinding c name
  | BringStatement _ returnValue =>
      let* c :=
        match returnValue with
        | Some e => compileExpression c e
        | None => Ok (emit c OP_NOTHING)
        end in
      Ok (emit c OP_BRING)
  | BlockStmt block => compileBlock c block
  end
with compileBlock (c : Compiler) (block : BlockStatement) {struct block}
  : Res Compiler :=
  match block with
  | Block _ statements =>
      (fix go (c : Compiler) (stmts : list Statement) : Res Compiler :=
         match stmts with
         | [] => Ok c
         | stmt :: rest =>
             let* c :=
               match stmt, rest with
               | ExpressionStatement _ expression, [] =>
                   compileExpression c expression
               | _, _ => compileStatement c stmt
               end in
             go c rest
         end) c statements
  end.

(** The two loops written inline above, under names of their own: the
    argument loop of a call and the statement loop of a block. *)
Fixpoint compileArguments (c : Compiler) (args : list Expression) : Res Compiler :=
  match args with
  | [] => Ok c
  | arg :: rest => let* c := compileExpression c arg in compileArguments c rest
  end.

Fixpoint compileStatements (c : Compiler) (stmts : list Statement) : Res Compiler :=
  match stmts with
  | [] => Ok c
  | stmt :: rest =>
      let* c :=
        match stmt, rest with
        | ExpressionStatement _ expression, [] => compileExpression c expression
        | _, _ => compileStatement c stmt
        end in
      compileStatements c rest
  end.

(** [compileStatementWithContext] *)
Definition compileStatementWithContext (c : Compiler) (stmt : Statement)
           (isLast : bool) : Res Compiler :=
  match stmt with
  | ExpressionStatement _ expression =>
      if isLast then compileExpression c expression else compileStatement c stmt
  | _ => compileStatement c stmt
  end.

Fixpoint compileProgram (c : Compiler) (stmts : list Statement) : Res Compiler :=
  match stmts with
  | [] => Ok c
  | stmt :: rest =>
      let isLast := match rest with [] => true | _ => false end in
      let* c := compileStatementWithContext c stmt isLast in
      compileProgram c rest
  end.

(** [Compile] returns the chunk; the heap it allocated the strings in is
    returned with it. *)
Definition Compile (c : Compiler) (program : Program) : Res (Chunk * Heap) :=
  let* c := compileProgram c (Statements program) in
  let c := emit c OP_HALT in
  Ok (c_chunk c, c_heap c).

(* ===================================================================== *)
(** ** vm/vm.go *)
(* ===================================================================== *)

Definition STACK_MAX : Z := 65536.
Definition FRAMES_MAX : Z := 1024.

(** The operand stack is the fixed array [[STACK_MAX]Value]; it is kept as
    a finite map from the indices that were written, every other cell holding
    Go's zero value.  [globals] is keyed by the content of the name.  [out] is
    what has been written to standard output. *)
Record VM := mkVM {
  stack : gmap Z Value;
  stackTop : Z;
  frameCount : Z;
  globals : gmap string Value;
  chunk : Chunk;
  ip : Z;
  vm_heap : Heap;
  out : string
}.

Definition NewVM (h : Heap) : VM :=
  {| stack := ∅; stackTop := 0; frameCount := 0; globals := ∅;
     chunk := NewChunk; ip := 0; vm_heap := h; out := "" |}.

Definition Reset (vm : VM) : VM :=
  {| stack := stack vm; stackTop := 0; frameCount := 0; globals := globals vm;
     chunk := chunk vm; ip := 0; vm_heap := vm_heap vm; out := out vm |}.

(** [vm.stack[i]], with the bounds check of the array. *)
Definition stack_get (vm : VM) (i : Z) : Res Value :=
  if (0 <=? i) && (i <? STACK_MAX) then Ok (default 0 (stack vm !! i))
  else Panicked index_out_of_range.

(** [vm.stack[i] = v] *)
Definition stack_put (vm : VM) (i : Z) (v : Value) : Res VM :=
  if (0 <=? i) && (i <? STACK_MAX) then
    Ok {| stack := <[i := v]> (stack vm); stackTop := stackTop vm;
          frameCount := frameCount vm; globals := globals vm;
          chunk := chunk vm; ip := ip vm; vm_heap := vm_heap vm;
          out := out vm |}
  else Panicked index_out_of_range.

Definition set_stackTop (vm : VM) (t : Z) : VM :=
  {| stack := stack vm; stackTop := t; frameCount := frameCount vm;
     globals := globals vm; chunk := chunk vm; ip := ip vm;
     vm_heap := vm_heap vm; out := out vm |}.

Definition set_ip (vm : VM) (i : Z) : VM :=
  {| stack := stack vm; stackTop := stackTop vm; frameCount := frameCount vm;
     globals := globals vm; chunk := chunk vm; ip := i;
     vm_heap := vm_heap vm; out := out vm |}.

Definition set_global (vm : VM) (name : string) (v : Value) : VM :=
  {| stack := stack vm; stackTop := stackTop vm; frameCount := frameCount vm;
     globals := <[name := v]> (globals vm); chunk := chunk vm; ip := ip vm;
     vm_heap := vm_heap vm; out := out vm |}.

Definition print (vm : VM) (s : string) : VM :=
  {| stack := stack vm; stackTop := stackTop vm; frameCount := frameCount vm;
     globals := globals vm; chunk := chunk vm; ip := ip vm;
     vm_heap := vm_heap vm; out := out vm +:+ s |}.

(** [vm.push] and [vm.pop], the checked helpers (the dispatch loop inlines
    its own stack accesses and does not call them). *)
Definition push (vm : VM) (value : Value) : Res VM :=
  if STACK_MAX <=? stackTop vm then Panicked "Stack overflow"
  else
    let* vm := stack_put vm (stackTop vm) value in
    Ok (set_stackTop vm (stackTop vm + 1)).

Definition pop (vm : VM) : Res (Value * VM) :=
  if stackTop vm <=? 0 then Panicked "Stack underflow"
  else
    let vm := set_stackTop vm (stackTop vm - 1) in
    let* v := stack_get vm (stackTop vm) in
    Ok (v, vm).

Definition peek (vm : VM) (distance : Z) : Res Value :=
  stack_get vm (stackTop vm - 1 - distance).

Definition newline : string := String (ascii_of_nat 10) EmptyString.

(** The text that [runtimeError] builds from the message and the line. *)
Definition error_text (message : string) (line : Z) : string :=
  "Wahala dey o! " +:+ message +:+ (" [line " +:+ fmt_d line +:+ "]" +:+ newline).

Definition runtimeError (vm : VM) (message : string) : string :=
  let line :=
    if (0 <? ip vm) && (ip vm <=? Z.of_nat (length (Lines (chunk vm)))) then
      default 0 (Lines (chunk vm) !! Z.to_nat (ip vm - 1))
    else 0 in
  error_text message line.

(** What one pass through the dispatch loop does: either control goes back to
    [dispatch], or [execute] returns a value and an optional error. *)
Inductive Outcome :=
| Continue (vm : VM)
| Finished (result : Value) (err : option string) (vm : VM).

Definition readByte (vm : VM) : Res (Z * VM) :=
  match slice_at (Code (chunk vm)) (ip vm) with
  | Some b => Ok (b, set_ip vm (ip vm + 1))
  | None => Panicked index_out_of_range
  end.

(** [(b1 << 8) | b2] on [uint16] *)
Definition short_of_bytes (b1 b2 : Z) : Z :=
  Z.lor (to_uint16 (Z.shiftl b1 8)) b2.

Definition readShort (vm : VM) : Res (Z * VM) :=
  match slice_at (Code (chunk vm)) (ip vm),
        slice_at (Code (chunk vm)) (ip vm + 1) with
  | Some b1, Some b2 => Ok (short_of_bytes b1 b2, set_ip vm (ip vm + 2))
  | _, _ => Panicked index_out_of_range
  end.

(** The common tail [vm.stack[stackTop] = v; stackTop++; goto dispatch]. *)
Definition push_continue (vm : VM) (v : Value) : Res Outcome :=
  let* vm := stack_put vm (stackTop vm) v in
  Ok (Continue (set_stackTop vm (stackTop vm + 1))).

Definition fail (vm : VM) (message : string) : Res Outcome :=
  Ok (Finished NewNothing (Some (runtimeError vm message)) vm).

(** The common head of the binary operators:
    [b = stack[stackTop-1]; a = stack[stackTop-2]; stackTop -= 2]. *)
Definition pop2 (vm : VM) : Res (Value * Value * VM) :=
  let* b := stack_get vm (stackTop vm - 1) in
  let* a := stack_get vm (stackTop vm - 2) in
  Ok (a, b, set_stackTop vm (stackTop vm - 2)).

Definition constant_name (vm : VM) (idx : Z) : Res string :=
  match slice_at (Constants (chunk vm)) idx with
  | None => Panicked index_out_of_range
  | Some v =>
      match deref (vm_heap vm) (AsString v) with
      | None => Panicked bad_pointer
      | Some name => Ok name
      end
  end.

(** The argument loop of [OP_YARN]. *)
Fixpoint yarn_args (vm : VM) (argCount : Z) (i : Z) (n : nat) : Res VM :=
  match n with
  | O => Ok vm
  | S n' =>
      let idx := stackTop vm - argCount + i in
      let* val := stack_get vm idx in
      let* s := String_res (vm_heap vm) val in
      yarn_args (print vm s) argCount (i + 1) n'
  end.

Definition step (vm : VM) : Res Outcome :=
  let* (instruction, vm) := readByte vm in
  match Opcode_of_byte instruction with
  | Some OP_CONST_0 => push_continue vm (NewInt 0)
  | Some OP_CONST_1 => push_continue vm (NewInt 1)
  | Some OP_CONST_MINUS1 => push_continue vm (NewInt (-1))
  | Some OP_NOTHING => push_continue vm NewNothing
  | Some OP_TRU => push_continue vm (NewBool true)
  | Some OP_LIE => push_continue vm (NewBool false)
  | Some OP_CONST_I8 =>
      let* (b, vm) := readByte vm in
      push_continue vm (NewInt (to_int8 b))
  | Some OP_CONST_I16 =>
      let* (w, vm) := readShort vm in
      push_continue vm (NewInt (to_int16 w))
  | Some OP_CONSTANT =>
      let* (idx, vm) := readShort vm in
      match slice_at (Constants (chunk vm)) idx with
      | Some v => push_continue vm v
      | None => Panicked index_out_of_range
      end
  | Some OP_ADD =>
      let* (a, b, vm) := pop2 vm in
      if IsInt a && IsInt b then
        let result := to_int64 (AsInt a + AsInt b) in
        push_continue vm (NewInt result)
      else if IsString a || IsString b then
        let* strA := String_res (vm_heap vm) a in
        let* strB := String_res (vm_heap vm) b in
        let result := strA +:+ strB in
        let '(h, ch, interned) := InternString (vm_heap vm) (chunk vm) result in
        let vm := {| stack := stack vm; stackTop := stackTop vm;
                     frameCount := frameCount vm; globals := globals vm;
                     chunk := ch; ip := ip vm; vm_heap := h; out := out vm |} in
        push_continue vm (NewString interned)
      else
        fail vm ("I no fit add " +:+ TypeName a +:+ " and " +:+ TypeName b)
  | Some OP_SUB =>
      let* (a, b, vm) := pop2 vm in
      if negb (IsInt a) || negb (IsInt b) then
        fail vm ("I no fit subtract " +:+ TypeName a +:+ " and " +:+ TypeName b)
      else push_continue vm (NewInt (to_int64 (AsInt a - AsInt b)))
  | Some OP_MUL =>
      let* (a, b, vm) := pop2 vm in
      if negb (IsInt a) || negb (IsInt b) then
        fail vm ("I no fit multiply " +:+ TypeName a +:+ " and " +:+ TypeName b)
      else push_continue vm (NewInt (to_int64 (AsInt a * AsInt b)))
  | Some OP_DIV =>
      let* (a, b, vm) := pop2 vm in
      if negb (IsInt a) || negb (IsInt b) then
        fail vm ("I no fit divide " +:+ TypeName a +:+ " and " +:+ TypeName b)
      else if AsInt b =? 0 then fail vm "I no fit divide by zero o!"
      else push_continue vm (NewInt (to_int64 (Z.quot (AsInt a) (AsInt b))))
  | Some OP_NEGATE =>
      let* a := stack_get vm (stackTop vm - 1) in
      if negb (IsInt a) then fail vm ("I no fit negate " +:+ TypeName a)
      else
        let* vm := stack_put vm (stackTop vm - 1) (NewInt (to_int64 (- AsInt a))) in
        Ok (Continue vm)
  | Some OP_EQUAL =>
      let* (a, b, vm) := pop2 vm in
      let* eq := Equals_res (vm_heap vm) a b in
      push_continue vm (NewBool eq)
  | Some OP_NOT_EQUAL =>
      let* (a, b, vm) := pop2 vm in
      let* eq := Equals_res (vm_heap vm) a b in
      push_continue vm (NewBool (negb eq))
  | Some OP_GREATER =>
      let* (a, b, vm) := pop2 vm in
      if negb (IsInt a) || negb (IsInt b) then
        fail vm ("I no fit compare " +:+ TypeName a +:+ " and " +:+ TypeName b)
      else push_continue vm (NewBool (AsInt b <? AsInt a))
  | Some OP_LESS =>
      let* (a, b, vm) := pop2 vm in
      if negb (IsInt a) || negb (IsInt b) then
        fail vm ("I no fit compare " +:+ TypeName a +:+ " and " +:+ TypeName b)
      else push_continue vm (NewBool (AsInt a <? AsInt b))
  | Some OP_NOT =>
      let* a := stack_get vm (stackTop vm - 1) in
      let* vm := stack_put vm (stackTop vm - 1) (NewBool (IsFalsey a)) in
      Ok (Continue vm)
  | Some OP_POP => Ok (Continue (set_stackTop vm (stackTop vm - 1)))
  | Some OP_DUP =>
      let* v := stack_get vm (stackTop vm - 1) in
      push_continue vm v
  | Some OP_GET_GLOBAL =>
      let* (idx, vm) := readShort vm in
      let* name := constant_name vm idx in
      match globals vm !! name with
      | None => fail vm ("I no sabi dis one: " +:+ name)
      | Some val => push_continue vm val
      end
  | Some OP_SET_GLOBAL =>
      let* (idx, vm) := readShort vm in
      let* name := constant_name vm idx in
      let* v := stack_get vm (stackTop vm - 1) in
      Ok (Continue (set_global vm name v))
  | Some OP_JUMP =>
      let* (w, vm) := readShort vm in
      let offset := to_int16 w in
      Ok (Continue (set_ip vm (ip vm + offset)))
  | Some OP_JUMP_IF_LIE =>
      let* (w, vm) := readShort vm in
      let offset := to_int16 w in
      let* condition := stack_get vm (stackTop vm - 1) in
      let vm := set_stackTop vm (stackTop vm - 1) in
      if IsFalsey condition then Ok (Continue (set_ip vm (ip vm + offset)))
      else Ok (Continue vm)
  | Some OP_JUMP_IF_TRU =>
      let* (w, vm) := readShort vm in
      let offset := to_int16 w in
      let* condition := stack_get vm (stackTop vm - 1) in
      let vm := set_stackTop vm (stackTop vm - 1) in
      if IsTruthy condition then Ok (Continue (set_ip vm (ip vm + offset)))
      else Ok (Continue vm)
  | Some OP_LOOP =>
      let* (offset, vm) := readShort vm in
      Ok (Continue (set_ip vm (ip vm - offset)))
  | Some OP_YARN =>
      let* (argCount, vm) := readByte vm in
      let* vm := yarn_args vm argCount 0 (Z.to_nat argCount) in
      let vm := print vm newline in
      let vm := set_stackTop vm (stackTop vm - argCount) in
      push_continue vm NewNothing
  | Some OP_HALT =>
      if 0 <? stackTop vm then
        let* v := stack_get vm (stackTop vm - 1) in
        Ok (Finished v None vm)
      else Ok (Finished NewNothing None vm)
  | _ => fail vm ("Unknown opcode: " +:+ fmt_d instruction)
  end.

(** The dispatch loop, cut off after [fuel] instructions: [Ok (Continue vm)]
    means that the loop is still running in state [vm]. *)
Fixpoint execute (fuel : nat) (vm : VM) : Res Outcome :=
  match fuel with
  | O => Ok (Continue vm)
  | S fuel' =>
      let* o := step vm in
      match o with
      | Continue vm' => execute fuel' vm'
      | Finished _ _ _ => Ok o
      end
  end.

Definition Run (fuel : nat) (vm : VM) (ch : Chunk) : Res Outcome :=
  let vm := Reset vm in
  let vm := {| stack := stack vm; stackTop := stackTop vm;
               frameCount := frameCount vm; globals := globals vm;
               chunk := ch; ip := 0; vm_heap := vm_heap vm; out := out vm |} in
  execute fuel vm.

(** The exact integer result of the arithmetic opcodes, before any
    truncation, on operands [x] and [y] ([y] alone for [OP_NEGATE]). *)
Definition exact_result (op : Opcode) (x y : Z) : Z :=
  match op with
  | OP_ADD => x + y
  | OP_SUB => x - y
  | OP_MUL => x * y
  | OP_NEGATE => - y
  | _ => 0
  end.

(** [compileAndRun] of the integration tests, on a parsed program. *)
Definition compileAndRun (fuel : nat) (program : Program) : Res Outcome :=
  let* (ch, h) := Compile (New []) program in
  Run fuel (NewVM h) ch.

(* ===================================================================== *)
(** ** Concrete states, tables and programs used below *)
(* ===================================================================== *)

(** Whether the instruction about to run is a [SET_GLOBAL] of [name]. *)
Definition writes_global (vm : VM) (name : string) : bool :=
  match slice_at (Code (chunk vm)) (ip vm) with
  | Some b =>
      if b =? Opcode_byte OP_SET_GLOBAL then
        match readShort (set_ip vm (ip vm + 1)) with
        | Ok (idx, vm1) =>
            match constant_name vm1 idx with
            | Ok n => String.eqb n name
            | _ => false
            end
        | _ => false
        end
      else false
  | None => false
  end.

(** None of the next [n] instructions is a [SET_GLOBAL] of [name]. *)
Fixpoint no_write (name : string) (n : nat) (vm : VM) : Prop :=
  match n with
  | O => True
  | S n' =>
      writes_global vm name = false
      /\ match step vm with
         | Ok (Continue vm') => no_write name n' vm'
         | _ => True
         end
  end.

(** [vm1] differs from [vm] at most in the stack, the instruction pointer,
    the output, the heap and the intern table. *)
Definition keeps (vm vm1 : VM) : Prop :=
  Code (chunk vm1) = Code (chunk vm)
  /\ Constants (chunk vm1) = Constants (chunk vm)
  /\ Lines (chunk vm1) = Lines (chunk vm)
  /\ frameCount vm1 = frameCount vm
  /\ globals vm1 = globals vm.

(** The state in which [Run] starts the dispatch loop on a compiled program,
    and the state reached [fuel] instructions later. *)
Definition start_state (program : Program) : option VM :=
  match Compile (New []) program with
  | Ok (ch, h) =>
      let vm := Reset (NewVM h) in
      Some {| stack := stack vm; stackTop := stackTop vm;
              frameCount := frameCount vm; globals := globals vm;
              chunk := ch; ip := 0; vm_heap := vm_heap vm; out := out vm |}
  | _ => None
  end.

Definition state_after (fuel : nat) (program : Program) : VM :=
  match start_state program with
  | Some vm =>
      match execute fuel vm with
      | Ok (Continue vm') => vm'
      | _ => vm
      end
  | None => NewVM []
  end.

Definition tok (literal : string) (line : Z) : Token :=
  {| Type' := ""; Literal := literal; Line := line |}.

(** [make x be 42] followed by [x], on line 1. *)
Definition make_then_read : Program :=
  {| Statements :=
       [MakeStatement (tok "make" 1) "x" (IntegerLiteral (tok "42" 1) 42);
        ExpressionStatement (tok "x" 1) (Identifier (tok "x" 1) "x")] |}.

(** The state of [make_then_read] about to execute its [SET_GLOBAL]. *)
Definition before_set_global : VM :=
  Eval vm_compute in state_after 1 make_then_read.

(** [10 / 0], for any tokens. *)
Definition div_by_zero_program (t_stmt t_slash t_ten t_zero : Token) : Program :=
  {| Statements :=
       [ExpressionStatement t_stmt
          (InfixExpression t_slash (IntegerLiteral t_ten 10) "/"
                           (IntegerLiteral t_zero 0))] |}.

(** The chunk compiled from [10 / 0] and the state in which its run fails. *)
Definition div_by_zero_chunk : Chunk :=
  {| Code := [Opcode_byte OP_CONST_I8; 10; Opcode_byte OP_CONST_0;
              Opcode_byte OP_DIV; Opcode_byte OP_HALT];
     Constants := []; Lines := [0; 0; 0; 0; 0]; strings := ∅ |}.

Definition div_by_zero_final : VM :=
  {| stack := <[1 := NewInt 0]> (<[0 := NewInt 10]> ∅); stackTop := 0;
     frameCount := 0; globals := ∅; chunk := div_by_zero_chunk; ip := 4;
     vm_heap := []; out := "" |}.

(** [bring 5], [len("abc")] and [type(1)]. *)
Definition bring_program : Program :=
  {| Statements :=
       [BringStatement (tok "bring" 1) (Some (IntegerLiteral (tok "5" 1) 5))] |}.

Definition len_program : Program :=
  {| Statements :=
       [ExpressionStatement (tok "len" 1)
          (CallExpression (tok "(" 1) (Identifier (tok "len" 1) "len")
                          [StringLiteral (tok "abc" 1) "abc"])] |}.

Definition type_program : Program :=
  {| Statements :=
       [ExpressionStatement (tok "type" 1)
          (CallExpression (tok "(" 1) (Identifier (tok "type" 1) "type")
                          [IntegerLiteral (tok "1" 1) 1])] |}.

(** The integer [40000] followed by the string ["40000"]. *)
Definition int_then_string_program : Program :=
  {| Statements :=
       [ExpressionStatement (tok "40000" 1) (IntegerLiteral (tok "40000" 1) 40000);
        ExpressionStatement (tok "40000" 2) (StringLiteral (tok "40000" 2) "40000")] |}.

(** The compiler after pooling the integer, after interning the string, and
    after pooling the string, each with the index or handle returned. *)
Definition after_int : Compiler * Z :=
  Eval vm_compute in
    match addConstant (New []) (NewInt 40000) with
    | Ok r => r
    | _ => (New [], -1)
    end.

Definition after_intern : Compiler * Z :=
  Eval vm_compute in internString (fst after_int) "40000".

Definition after_string : Compiler * Z :=
  Eval vm_compute in
    match addConstant (fst after_intern) (NewString (snd after_intern)) with
    | Ok r => r
    | _ => (New [], -1)
    end.

(** [while tru { 1 }] *)
Definition leaking_loop_program : Program :=
  {| Statements :=
       [ExpressionStatement (tok "dey" 1)
          (WhileExpression (tok "dey" 1) (Boolean (tok "tru" 1) true)
             (Block (tok "{" 1)
                [ExpressionStatement (tok "1" 1) (IntegerLiteral (tok "1" 1) 1)]))] |}.

(** The chunk compiled from it, and the state in which [Run] starts it. *)
Definition leaking_loop_chunk : Chunk :=
  {| Code := [Opcode_byte OP_TRU; Opcode_byte OP_JUMP_IF_LIE; 0; 4;
              Opcode_byte OP_CONST_1; Opcode_byte OP_LOOP; 0; 8;
              Opcode_byte OP_NOTHING; Opcode_byte OP_HALT];
     Constants := []; Lines := [0; 0; 0; 0; 0; 0; 0; 0; 0; 0]; strings := ∅ |}.

Definition leaking_loop_start : VM :=
  {| stack := ∅; stackTop := 0; frameCount := 0; globals := ∅;
     chunk := leaking_loop_chunk; ip := 0; vm_heap := []; out := "" |}.

(** [while lie { 1000; 1000; ... }] with 8192 statements in the body. *)
Definition long_statement : Statement :=
  ExpressionStatement (tok "1000" 2) (IntegerLiteral (tok "1000" 2) 1000).

Definition long_body : list Statement := repeat long_statement (Z.to_nat 8192).

Definition long_loop_program : Program :=
  {| Statements :=
       [ExpressionStatement (tok "dey" 1)
          (WhileExpression (tok "dey" 1) (Boolean (tok "lie" 1) false)
             (Block (tok "{" 1) long_body))] |}.

(** The code compiled from [n] copies of [long_statement] followed by a last
    one, whose value is kept. *)
Definition long_body_code (n : nat) : list Z :=
  concat (repeat [Opcode_byte OP_CONST_I16; 3; 232; Opcode_byte OP_POP] n)
    ++ [Opcode_byte OP_CONST_I16; 3; 232].

(** The same loop with [S n] statements in its body, and its code. *)
Definition long_loop (n : nat) : Expression :=
  WhileExpression (tok "dey" 1) (Boolean (tok "lie" 1) false)
    (Block (tok "{" 1) (repeat long_statement (S n))).

Definition long_code (n : nat) : list Z :=
  [Opcode_byte OP_LIE; Opcode_byte OP_JUMP_IF_LIE;
   to_byte (Z.shiftr (4 * Z.of_nat n + 6) 8);
   to_byte (Z.land (4 * Z.of_nat n + 6) 0xFF)]
    ++ long_body_code n
    ++ [Opcode_byte OP_LOOP;
        to_byte (Z.shiftr (4 * Z.of_nat n + 10) 8);
        to_byte (Z.land (4 * Z.of_nat n + 10) 0xFF);
        Opcode_byte OP_NOTHING].

(** The chunk compiled from [long_loop_program]. *)
Definition long_loop_code : list Z :=
  [Opcode_byte OP_LIE; Opcode_byte OP_JUMP_IF_LIE; 128; 2]
    ++ long_body_code (Z.to_nat 8191)
    ++ [Opcode_byte OP_LOOP; 128; 6; Opcode_byte OP_NOTHING; Opcode_byte OP_HALT].

Definition long_loop_chunk : Chunk :=
  {| Code := long_loop_code; Constants := [];
     Lines := repeat 0 (length long_loop_code); strings := ∅ |}.

Definition long_loop_start : VM :=
  {| stack := ∅; stackTop := 0; frameCount := 0; globals := ∅;
     chunk := long_loop_chunk; ip := 0; vm_heap := []; out := "" |}.

(** The instruction pointer after [fuel] instructions, if the loop is still
    running. *)
Definition ip_after (fuel : nat) (vm : VM) : option Z :=
  match execute fuel vm with
  | Ok (Continue vm') => Some (ip vm')
  | _ => None
  end.

(** [c] with [bytes] appended to the code, each on line 0. *)
Definition append_code (c : Compiler) (bytes : list Z) : Compiler :=
  with_chunk c
    {| Code := Code (c_chunk c) ++ bytes; Constants := Constants (c_chunk c);
       Lines := Lines (c_chunk c) ++ repeat 0 (length bytes);
       strings := strings (c_chunk c) |}.

(** Whether the instruction [op], about to be executed in [vm], pushes: it
    stores a value in the cell [stack[stackTop]], above the values the stack
    holds.  These are the loads of literals and constants, [OP_DUP],
    [OP_GET_GLOBAL] of a global that is set, and [OP_YARN] without arguments.
    The other instructions that produce a value (the operators, [OP_YARN]
    with arguments) first take their operands off the stack. *)
Definition pushes_on_top (vm : VM) (op : Opcode) : bool :=
  match op with
  | OP_CONST_0 | OP_CONST_1 | OP_CONST_MINUS1 | OP_NOTHING | OP_TRU | OP_LIE
  | OP_CONST_I8 | OP_CONST_I16 | OP_CONSTANT | OP_DUP => true
  | OP_GET_GLOBAL =>
      match readShort (set_ip vm (ip vm + 1)) with
      | Ok (idx, vm1) =>
          match constant_name vm1 idx with
          | Ok name =>
              match globals vm1 !! name with
              | Some _ => true
              | None => false
              end
          | _ => false
          end
      | _ => false
      end
  | OP_YARN =>
      match slice_at (Code (chunk vm)) (ip vm + 1) with
      | Some argCount => argCount =? 0
      | None => false
      end
  | _ => false
  end.

(** A state whose operand stack is full, about to execute [OP_CONST_0]. *)
Definition full_stack_vm : VM :=
  {| stack := ∅; stackTop := STACK_MAX; frameCount := 0; globals := ∅;
     chunk := WriteOpcode NewChunk OP_CONST_0 1; ip := 0; vm_heap := [];
     out := "" |}.

(** A state about to add 1 to [MAX_INT_48]. *)
Definition overflow_vm : VM :=
  {| stack := <[1 := NewInt 1]> (<[0 := NewInt MAX_INT_48]> ∅);
     stackTop := 2; frameCount := 0; globals := ∅;
     chunk := WriteOpcode NewChunk OP_ADD 1; ip := 0; vm_heap := [];
     out := "" |}.

(** The tables of [TestResolveNestedLocal]. *)
Definition test_global : SymbolTable :=
  fst (Define (fst (Define NewSymbolTable "a")) "b").
Definition test_firstLocal : SymbolTable :=
  fst (Define (fst (Define (NewEnclosedSymbolTable test_global) "c")) "d").
Definition test_secondLocal : SymbolTable :=
  fst (Define (fst (Define (NewEnclosedSymbolTable test_firstLocal) "e")) "f").

(** A compiler working inside the innermost of these scopes. *)
Definition nested_compiler : Compiler :=
  {| c_chunk := NewChunk; c_symbolTable := test_secondLocal; c_scopeDepth := 2;
     c_constants := ∅; c_heap := [] |}.

(** The stores of a table and of its enclosing tables, innermost first. *)
Fixpoint scope_chain (st : SymbolTable) : list (gmap string Symbol) :=
  match st with
  | mkSymbolTable o s _ =>
      s :: match o with Some o' => scope_chain o' | None => [] end
  end.

(* ===================================================================== *)
(** ** Notions used to state the properties of compiled loops *)
(* ===================================================================== *)

(** The code emitted so far, and "[c'] was obtained from [c] by emitting more
    code". *)
Definition code_of (c : Compiler) : list Z := Code (c_chunk c).
Definition extends (c c' : Compiler) : Prop := code_of c `prefix_of` code_of c'.

(** The code emitted between [c] and [c'], and "[segment] sits at offset
    [start] of [code]". *)
Definition emitted (c c' : Compiler) : list Z :=
  drop (length (code_of c)) (code_of c').

Definition placed_at (code : list Z) (start : Z) (segment : list Z) : Prop :=
  exists pre rest, code = pre ++ segment ++ rest /\ Z.of_nat (length pre) = start.

(** How many of the next [fuel] instructions are executed at address [pos]. *)
Fixpoint count_at (pos : Z) (fuel : nat) (vm : VM) : nat :=
  match fuel with
  | O => 0
  | S fuel' =>
      (if ip vm =? pos then 1 else 0)
      + match step vm with
        | Ok (Continue vm') => count_at pos fuel' vm'
        | _ => 0
        end
  end.

(** The state in which the body starts, given the state [t] in which the
    condition has just been evaluated: the conditional jump at [condEnd] has
    popped the condition and has not been taken. *)
Definition enter_body (condEnd : Z) (t : VM) : VM :=
  set_stackTop (set_ip t (condEnd + 3)) (stackTop t - 1).

(** From [s], at the start of the loop, [nc] instructions evaluate the
    condition to [v] without side effect: they end in [t] at the conditional
    jump, with [v] pushed on an otherwise unchanged stack and the globals and
    the output as they were; the backward jump of the loop is not among
    them. *)
Definition cond_run (loopStart condEnd bodyEnd : Z)
           (s : VM) (nc : nat) (t : VM) (v : Value) : Prop :=
  ip s = loopStart
  /\ execute nc s = Ok (Continue t)
  /\ count_at bodyEnd nc s = 0%nat
  /\ ip t = condEnd
  /\ stackTop t = stackTop s + 1
  /\ stack_get t (stackTop s) = Ok v
  /\ globals t = globals s
  /\ out t = out s
  /\ forall j, j < stackTop s -> stack t !! j = stack s !! j.

(** From the state after the condition, [nb] instructions run the body: they
    end in [u] at the backward jump of the loop, which is not among them. *)
Definition body_run (condEnd bodyEnd : Z) (t : VM) (nb : nat) (u : VM) : Prop :=
  execute nb (enter_body condEnd t) = Ok (Continue u)
  /\ count_at bodyEnd nb (enter_body condEnd t) = 0%nat
  /\ ip u = bodyEnd.

(** [iterates k s n s']: starting in [s], the condition is truthy and the
    body runs to its end [k] times in a row; together with the conditional
    and the backward jumps these rounds take [n] instructions and lead to
    [s'], where the next evaluation of the condition starts. *)
Inductive iterates (loopStart condEnd bodyEnd : Z) : nat -> VM -> nat -> VM -> Prop :=
| iterates_done (s : VM) : iterates loopStart condEnd bodyEnd 0 s 0 s
| iterates_again (k : nat) (s : VM) (nc : nat) (t : VM) (v : Value)
                 (nb : nat) (u : VM) (n : nat) (s' : VM) :
    cond_run loopStart condEnd bodyEnd s nc t v ->
    IsFalsey v = false ->
    body_run condEnd bodyEnd t nb u ->
    iterates loopStart condEnd bodyEnd k (set_ip u loopStart) n s' ->
    iterates loopStart condEnd bodyEnd (S k) s (nc + 1 + nb + 1 + n) s'.

(** The cells of a stack below index [d]. *)
Definition below (d : Z) (m : gmap Z Value) : gmap Z Value :=
  filter (fun kv => kv.1 < d) m.

(** A loop that counts to two:
    [make c be 0] followed by [while c < 2 { make c be c + 1 }]. *)
Definition counting_init : Statement :=
  MakeStatement (tok "make" 1) "c" (IntegerLiteral (tok "0" 1) 0).

Definition counting_cond : Expression :=
  InfixExpression (tok "<" 2) (Identifier (tok "c" 2) "c") "<"
                  (IntegerLiteral (tok "2" 2) 2).

Definition counting_body : BlockStatement :=
  Block (tok "{" 2)
    [MakeStatement (tok "make" 3) "c"
       (InfixExpression (tok "+" 3) (Identifier (tok "c" 3) "c") "+"
                        (IntegerLiteral (tok "1" 3) 1))].

Definition counting_program : Program :=
  {| Statements :=
       [counting_init;
        ExpressionStatement (tok "dey" 2)
          (WhileExpression (tok "dey" 2) counting_cond counting_body)] |}.

(** The compiler that a successful compilation returned. *)
Definition compiled (r : Res Compiler) : Compiler :=
  match r with Ok c => c | _ => New [] end.

(** The compiler before the loop, after its condition, after its body and
    after the whole loop. *)
Definition counting_c : Compiler :=
  Eval vm_compute in compiled (compileStatement (New []) counting_init).
Definition counting_c1 : Compiler :=
  Eval vm_compute in compiled (compileExpression counting_c counting_cond).
Definition counting_c3 : Compiler :=
  Eval vm_compute in
    compiled (compileBlock (fst (emitJump counting_c1 OP_JUMP_IF_LIE)) counting_body).
Definition counting_done : Compiler :=
  Eval vm_compute in
    compiled (compileExpression counting_c
                (WhileExpression (tok "dey" 2) counting_cond counting_body)).

(** The state of its run after [fuel] instructions. *)
Definition counting_at (fuel : nat) : VM := state_after fuel counting_program.

(* ===================================================================== *)
(** ** Notions used to state the properties of the chunk, the dispatch loop
       and the compiler *)
(* ===================================================================== *)

(** Every string of the intern table is found at the handle the table gives
    for it. *)
Definition strings_ok (h : Heap) (c : Chunk) : Prop :=
  forall s p, strings c !! s = Some p -> deref h p = Some s.

(** The state of the dispatch loop after the opcode byte has been read and
    the two operands of a binary operator have been taken off the stack. *)
Definition after_operands (vm : VM) : VM :=
  set_stackTop (set_ip vm (ip vm + 1)) (stackTop vm - 2).

(** The verb with which each binary operator reports a type error. *)
Definition type_error_verb (op : Opcode) : string :=
  match op with
  | OP_ADD => "add"
  | OP_SUB => "subtract"
  | OP_MUL => "multiply"
  | OP_DIV => "divide"
  | _ => "compare"
  end.

(** The truth value that each comparison opcode computes on two integers. *)
Definition compare_result (op : Opcode) (x y : Z) : bool :=
  match op with
  | OP_EQUAL => x =? y
  | OP_NOT_EQUAL => negb (x =? y)
  | OP_GREATER => y <? x
  | _ => x <? y
  end.

(** By how much each opcode changes the depth of the operand stack;
    [operand] is the argument count of [OP_YARN]. *)
Definition stack_effect (op : Opcode) (operand : Z) : Z :=
  match op with
  | OP_CONST_0 | OP_CONST_1 | OP_CONST_MINUS1 | OP_NOTHING | OP_TRU | OP_LIE
  | OP_CONSTANT | OP_CONST_I8 | OP_CONST_I16 | OP_DUP | OP_GET_GLOBAL => 1
  | OP_ADD | OP_SUB | OP_MUL | OP_DIV
  | OP_EQUAL | OP_NOT_EQUAL | OP_GREATER | OP_LESS
  | OP_POP | OP_JUMP_IF_LIE | OP_JUMP_IF_TRU => -1
  | OP_YARN => 1 - operand
  | _ => 0
  end.

(** Whether a jump instruction is taken when [v] is on top of the stack. *)
Definition jump_taken (op : Opcode) (v : Value) : bool :=
  match op with
  | OP_JUMP_IF_LIE => IsFalsey v
  | OP_JUMP_IF_TRU => IsTruthy v
  | _ => true
  end.

(** The operators that [compileInfixExpression] hands to
    [compileShortCircuitAnd] and [compileShortCircuitOr], and the conditional
    jump each of them emits. *)
Definition is_short_circuit (operator : string) : bool :=
  String.eqb operator "and" || String.eqb operator "abi" || String.eqb operator "or".

Definition short_circuit_jump (operator : string) : Opcode :=
  if String.eqb operator "and" then OP_JUMP_IF_LIE else OP_JUMP_IF_TRU.

(** The alternative of a [suppose] as [compileSupposeExpression] compiles it:
    the block, or [OP_NOTHING] when there is none. *)
Definition compileAlternative (c : Compiler) (alternative : option BlockStatement)
  : Res Compiler :=
  match alternative with
  | Some alt => compileBlock c alt
  | None => Ok (emit c OP_NOTHING)
  end.

(** The texts of the printed values, one after the other. *)
Definition texts (strs : list string) : string := fold_right append "" strs.

(** [c] with another symbol table. *)
Definition with_symbolTable (c : Compiler) (st : SymbolTable) : Compiler :=
  {| c_chunk := c_chunk c; c_symbolTable := st; c_scopeDepth := c_scopeDepth c;
     c_constants := c_constants c; c_heap := c_heap c |}.

(** Every byte of the code has its entry in the line table, and it is 0. *)
Definition lines_zero (ch : Chunk) : Prop :=
  Lines ch = repeat 0 (length (Code ch)).

(** Nothing that was pooled or allocated is lost from [c] to [c']. *)
Definition pool_grows (c c' : Compiler) : Prop :=
  Constants (c_chunk c) `prefix_of` Constants (c_chunk c')
  /\ c_heap c `prefix_of` c_heap c'.

(** The compiler works at global scope and its table binds globals and
    builtins only. *)
Definition global_only (c : Compiler) : Prop :=
  c_scopeDepth c = 0
  /\ outer (c_symbolTable c) = None
  /\ forall name symbol,
       store (c_symbolTable c) !! name = Some symbol ->
       Scope symbol = SCOPE_GLOBAL \/ Scope symbol = SCOPE_BUILTIN.

(** What a later state of the compiler retains of an earlier one: the cache
    of constant indices, the interned strings, the allocated cells and the
    bindings; and the intern table stays sound. *)
Definition retains (c c' : Compiler) : Prop :=
  (strings_ok (c_heap c) (c_chunk c) -> strings_ok (c_heap c') (c_chunk c'))
  /\ c_constants c ⊆ c_constants c'
  /\ strings (c_chunk c) ⊆ strings (c_chunk c')
  /\ c_heap c `prefix_of` c_heap c'
  /\ store (c_symbolTable c) ⊆ store (c_symbolTable c')
  /\ outer (c_symbolTable c') = outer (c_symbolTable c)
  /\ c_scopeDepth c' = c_scopeDepth c.

(** *** States and programs on which the properties are instantiated *)

(** A state with [x] and [y] on the stack, about to execute [op], which is on
    line [line]. *)
Definition binary_vm (op : Opcode) (x y : Value) (line : Z) (h : Heap) : VM :=
  {| stack := {[0 := x; 1 := y]}; stackTop := 2;
     frameCount := 0; globals := ∅;
     chunk := WriteByte NewChunk (Opcode_byte op) line; ip := 0;
     vm_heap := h; out := "" |}.

(** [5 - tru], [-7 / 2], [3 > -4] and ["a" + 2]. *)
Definition type_error_vm : VM := binary_vm OP_SUB (NewInt 5) (NewBool true) 4 [].
Definition division_vm : VM := binary_vm OP_DIV (NewInt (-7)) (NewInt 2) 1 [].
Definition comparison_vm : VM := binary_vm OP_GREATER (NewInt 3) (NewInt (-4)) 1 [].
Definition concat_vm : VM := binary_vm OP_ADD (NewString 1) (NewInt 2) 1 ["a"].

(** A read of the global [x], which was never set. *)
Definition undefined_global_vm : VM :=
  {| stack := ∅; stackTop := 0; frameCount := 0; globals := ∅;
     chunk := {| Code := [Opcode_byte OP_GET_GLOBAL; 0; 0];
                 Constants := [NewString 1]; Lines := [3; 3; 3]; strings := ∅ |};
     ip := 0; vm_heap := ["x"]; out := "" |}.

(** [yarn(tru, nothing)] with [7] below the arguments. *)
Definition yarn_vm : VM :=
  {| stack := {[0 := NewInt 7; 1 := NewBool true; 2 := NewNothing]}; stackTop := 3;
     frameCount := 0; globals := ∅;
     chunk := {| Code := [Opcode_byte OP_YARN; 2]; Constants := [];
                 Lines := [1; 1]; strings := ∅ |};
     ip := 0; vm_heap := []; out := ">" |}.

(** A 16-bit literal about to be pushed on two values. *)
Definition effect_vm : VM :=
  {| stack := {[0 := NewInt 7; 1 := NewInt 8]}; stackTop := 2;
     frameCount := 0; globals := ∅;
     chunk := {| Code := [Opcode_byte OP_CONST_I16; 1; 2; Opcode_byte OP_ADD];
                 Constants := []; Lines := [1; 1; 1; 1]; strings := ∅ |};
     ip := 0; vm_heap := []; out := "" |}.

(** The chunk and the heap that [Compile] returns for the counting loop. *)
Definition counting_compiled : Chunk * Heap :=
  Eval vm_compute in
    match Compile (New []) counting_program with
    | Ok r => r
    | _ => (NewChunk, [])
    end.

(** The counting loop before its exit jump is patched. *)
Definition counting_looped : Compiler :=
  Eval vm_compute in
    compiled (emitLoop counting_c3 (Count (c_chunk counting_c))).

(** [make c be ...], then the statement [40000], then a read of [c]. *)
Definition bound_c : Compiler :=
  Eval vm_compute in compiled (compileMakeBinding (New []) "c").
Definition bound_then : list Statement :=
  [ExpressionStatement (tok "40000" 2) (IntegerLiteral (tok "40000" 2) 40000);
   ExpressionStatement (tok "1" 3) (IntegerLiteral (tok "1" 3) 1)].
Definition bound_later : Compiler :=
  Eval vm_compute in compiled (compileProgram bound_c bound_then).
Definition bound_read : Compiler :=
  Eval vm_compute in compiled (compileIdentifier bound_later "c").

(** [make len be ...], then the same statements, then a read of [len]. *)
Definition builtin_c : Compiler :=
  Eval vm_compute in compiled (compileMakeBinding (New []) "len").
Definition builtin_later : Compiler :=
  Eval vm_compute in compiled (compileProgram builtin_c bound_then).
Definition builtin_read : Compiler :=
  Eval vm_compute in compiled (compileIdentifier builtin_later "len").

(** [lie and tru] *)
Definition and_expression : Expression :=
  InfixExpression (tok "and" 1) (Boolean (tok "lie" 1) false) "and"
                  (Boolean (tok "tru" 1) true).
Definition and_program : Program :=
  {| Statements := [ExpressionStatement (tok "lie" 1) and_expression] |}.
Definition and_c1 : Compiler :=
  Eval vm_compute in
    compiled (compileExpression (New []) (Boolean (tok "lie" 1) false)).
Definition and_c4 : Compiler :=
  Eval vm_compute in
    compiled (compileExpression
                (emit (fst (emitJump (emit and_c1 OP_DUP) OP_JUMP_IF_LIE)) OP_POP)
                (Boolean (tok "tru" 1) true)).
Definition and_done : Compiler :=
  Eval vm_compute in compiled (compileExpression (New []) and_expression).

(** [suppose lie { 1 } abi { 2 }] *)
Definition suppose_expression : Expression :=
  SupposeExpression (tok "suppose" 1) (Boolean (tok "lie" 1) false)
    (Block (tok "{" 1)
       [ExpressionStatement (tok "1" 1) (IntegerLiteral (tok "1" 1) 1)])
    (Some (Block (tok "{" 1)
             [ExpressionStatement (tok "2" 1) (IntegerLiteral (tok "2" 1) 2)])).
Definition suppose_program : Program :=
  {| Statements := [ExpressionStatement (tok "suppose" 1) suppose_expression] |}.
Definition suppose_c1 : Compiler :=
  Eval vm_compute in
    compiled (compileExpression (New []) (Boolean (tok "lie" 1) false)).
Definition suppose_c3 : Compiler :=
  Eval vm_compute in
    compiled (compileBlock (fst (emitJump suppose_c1 OP_JUMP_IF_LIE))
                (Block (tok "{" 1)
                   [ExpressionStatement (tok "1" 1) (IntegerLiteral (tok "1" 1) 1)])).
Definition suppose_done : Compiler :=
  Eval vm_compute in compiled (compileExpression (New []) suppose_expression).

(** The states in which the left operand of [and_expression] and the
    condition of [suppose_expression] have just been evaluated. *)
Definition and_left : VM := Eval vm_compute in state_after 1 and_program.
Definition suppose_decided : VM := Eval vm_compute in state_after 1 suppose_program.

(* ===================================================================== *)
(** ** Induction principles *)
(* ===================================================================== *)

(** Induction along the chain of enclosing tables. *)
Fixpoint SymbolTable_chain_ind (P : SymbolTable -> Prop)
         (Hroot : forall s n, P (mkSymbolTable None s n))
         (Hinner : forall o s n, P o -> P (mkSymbolTable (Some o) s n))
         (st : SymbolTable) : P st :=
  match st with
  | mkSymbolTable None s n => Hroot s n
  | mkSymbolTable (Some o) s n =>
      Hinner o s n (SymbolTable_chain_ind P Hroot Hinner o)
  end.

(** Mutual induction over expressions, statements and blocks, going through
    the lists of arguments and of statements. *)
Section AST_induction.
Variables (P : Expression -> Prop) (Q : Statement -> Prop)
          (R : BlockStatement -> Prop).
Hypothesis HIdentifier : forall t v, P (Identifier t v).
Hypothesis HIntegerLiteral : forall t v, P (IntegerLiteral t v).
Hypothesis HStringLiteral : forall t v, P (StringLiteral t v).
Hypothesis HBoolean : forall t v, P (Boolean t v).
Hypothesis HNothingLiteral : forall t, P (NothingLiteral t).
Hypothesis HPrefix : forall t op r, P r -> P (PrefixExpression t op r).
Hypothesis HInfix : forall t l op r, P l -> P r -> P (InfixExpression t l op r).
Hypothesis HSuppose : forall t c cq alt,
    P c -> R cq -> match alt with Some a => R a | None => True end ->
    P (SupposeExpression t c cq alt).
Hypothesis HWhile : forall t c b, P c -> R b -> P (WhileExpression t c b).
Hypothesis HDo : forall t n ps b, R b -> P (DoExpression t n ps b).
Hypothesis HCall : forall t f args, P f -> Forall P args -> P (CallExpression t f args).
Hypothesis HMake : forall t n v, P v -> Q (MakeStatement t n v).
Hypothesis HBring : forall t rv,
    match rv with Some e => P e | None => True end -> Q (BringStatement t rv).
Hypothesis HExpressionStatement : forall t e, P e -> Q (ExpressionStatement t e).
Hypothesis HBlockStmt : forall b, R b -> Q (BlockStmt b).
Hypothesis HBlock : forall t stmts, Forall Q stmts -> R (Block t stmts).

Fixpoint Expression_ind' (e : Expression) : P e :=
  match e with
  | Identifier t v => HIdentifier t v
  | IntegerLiteral t v => HIntegerLiteral t v
  | StringLiteral t v => HStringLiteral t v
  | Boolean t v => HBoolean t v
  | NothingLiteral t => HNothingLiteral t
  | PrefixExpression t op r => HPrefix t op r (Expression_ind' r)
  | InfixExpression t l op r => HInfix t l op r (Expression_ind' l) (Expression_ind' r)
  | SupposeExpression t c cq alt =>
      HSuppose t c cq alt (Expression_ind' c) (Block_ind' cq)
        (match alt as o return match o with Some a => R a | None => True end with
         | Some a => Block_ind' a
         | None => I
         end)
  | WhileExpression t c b => HWhile t c b (Expression_ind' c) (Block_ind' b)
  | DoExpression t n ps b => HDo t n ps b (Block_ind' b)
  | CallExpression t f args =>
      HCall t f args (Expression_ind' f)
        ((fix go (l : list Expression) : Forall P l :=
            match l with
            | [] => @List.Forall_nil _ P
            | x :: l' => @List.Forall_cons _ P x l' (Expression_ind' x) (go l')
            end) args)
  end
with Statement_ind' (s : Statement) : Q s :=
  match s with
  | MakeStatement t n v => HMake t n v (Expression_ind' v)
  | BringStatement t rv =>
      HBring t rv
        (match rv as o return match o with Some e => P e | None => True end with
         | Some e => Expression_ind' e
         | None => I
         end)
  | ExpressionStatement t e => HExpressionStatement t e (Expression_ind' e)
  | BlockStmt b => HBlockStmt b (Block_ind' b)
  end
with Block_ind' (b : BlockStatement) : R b :=
  match b with
  | Block t stmts =>
      HBlock t stmts
        ((fix go (l : list Statement) : Forall Q l :=
            match l with
            | [] => @List.Forall_nil _ Q
            | x :: l' => @List.Forall_cons _ Q x l' (Statement_ind' x) (go l')
            end) stmts)
  end.

Lemma AST_mutind : (forall e, P e) /\ (forall s, Q s) /\ (forall b, R b).
Proof.
  split; [exact Expression_ind' |]. split; [exact Statement_ind' |].
  exact Block_ind'.
Qed.
End AST_induction.

(* ===================================================================== *)
(** ** Properties of the integer encoding *)
(* ===================================================================== *)

Lemma PAYLOAD_MASK_ones : PAYLOAD_MASK = Z.ones 48.
Proof. reflexivity. Qed.

Lemma payload_of_NewInt (i : Z) :
  Z.land (NewInt i) PAYLOAD_MASK = i mod 2 ^ 48.
Proof.
  unfold NewInt, to_uint64.
  rewrite Z.land_lor_distr_l.
  replace (Z.land (Z.lor QNAN_BASE (Z.shiftl TAG_INT TAG_SHIFT)) PAYLOAD_MASK)
    with 0 by reflexivity.
  rewrite Z.lor_0_l, <- Z.land_assoc, Z.land_diag.
  rewrite PAYLOAD_MASK_ones, Z.land_ones by lia.
  change (2 ^ 64) with (2 ^ 48 * 2 ^ 16).
  rewrite Z.rem_mul_r by lia.
  rewrite Z.mul_comm, Z.mod_add by lia.
  apply Z.mod_mod. lia.
Qed.

Lemma sign_bit_test (x : Z) :
  0 <= x < 2 ^ 48 ->
  (Z.land x 0x800000000000 =? 0) = (x <? 2 ^ 47).
Proof.
  intros Hx.
  change 0x800000000000 with (2 ^ 47).
  destruct (Z.ltb_spec x (2 ^ 47)) as [Hlt | Hge].
  - apply Z.eqb_eq, Z.bits_inj'. intros n Hn.
    rewrite Z.land_spec, Z.bits_0, Z.pow2_bits_eqb by lia.
    destruct (Z.eqb_spec 47 n) as [<- | Hne]; [| apply andb_false_r].
    rewrite andb_true_r. apply Z.testbit_false; [lia |].
    rewrite Z.div_small by lia. reflexivity.
  - apply Z.eqb_neq. intros Heq.
    assert (Hbit : Z.testbit (Z.land x (2 ^ 47)) 47 = false)
      by (rewrite Heq; apply Z.bits_0).
    rewrite Z.land_spec, Z.pow2_bits_eqb, Z.eqb_refl, andb_true_r in Hbit by lia.
    apply Z.testbit_false in Hbit; [| lia].
    assert (x / 2 ^ 47 = 1) as Hq
      by (symmetry; apply (Z.div_unique x (2 ^ 47) 1 (x - 2 ^ 47)); lia).
    rewrite Hq in Hbit. discriminate.
Qed.

Lemma lor_sign_extend (x : Z) :
  0 <= x < 2 ^ 48 ->
  Z.lor x (Z.lnot PAYLOAD_MASK) = x - 2 ^ 48.
Proof.
  intros Hx.
  change (Z.lnot PAYLOAD_MASK) with (- 2 ^ 48).
  assert (Hdisj : Z.land x (- 2 ^ 48) = 0).
  { change (- 2 ^ 48) with (Z.lnot (Z.ones 48)).
    change (Z.land x (Z.lnot (Z.ones 48))) with (Z.ldiff x (Z.ones 48)).
    rewrite Z.ldiff_ones_r by lia.
    rewrite Z.shiftr_div_pow2, Z.div_small by lia. reflexivity. }
  rewrite <- Z.lxor_lor by exact Hdisj.
  rewrite <- Z.add_nocarry_lxor by exact Hdisj. lia.
Qed.

(** What [AsInt] reads back from [NewInt i], for any [i]. *)
Lemma AsInt_NewInt (i : Z) : AsInt (NewInt i) = wrap48 i.
Proof.
  unfold AsInt. rewrite payload_of_NewInt.
  assert (Hm : 0 <= i mod 2 ^ 48 < 2 ^ 48) by (apply Z.mod_pos_bound; lia).
  assert (H64 : to_int64 (i mod 2 ^ 48) = i mod 2 ^ 48).
  { unfold to_int64. rewrite Z.mod_small; lia. }
  cbv zeta. rewrite H64, sign_bit_test by exact Hm.
  unfold wrap48.
  destruct (Z.ltb_spec (i mod 2 ^ 48) (2 ^ 47)) as [Hlt | Hge]; cbn [negb].
  - symmetry.
    rewrite <- (Z.mod_unique (i + 2 ^ 47) (2 ^ 48) (i / 2 ^ 48) (i mod 2 ^ 48 + 2 ^ 47));
      [lia | lia |].
    pose proof (Z.div_mod i (2 ^ 48)). lia.
  - rewrite lor_sign_extend by exact Hm. symmetry.
    rewrite <- (Z.mod_unique (i + 2 ^ 47) (2 ^ 48) (i / 2 ^ 48 + 1) (i mod 2 ^ 48 - 2 ^ 47));
      [lia | lia |].
    pose proof (Z.div_mod i (2 ^ 48)). lia.
Qed.

Lemma wrap48_range (z : Z) : - 2 ^ 47 <= wrap48 z < 2 ^ 47.
Proof.
  unfold wrap48. pose proof (Z.mod_pos_bound (z + 2 ^ 47) (2 ^ 48)). lia.
Qed.

Lemma wrap48_small (z : Z) : - 2 ^ 47 <= z < 2 ^ 47 -> wrap48 z = z.
Proof. intros Hz. unfold wrap48. rewrite Z.mod_small; lia. Qed.

Lemma wrap48_congr (z : Z) : (wrap48 z - z) mod 2 ^ 48 = 0.
Proof.
  unfold wrap48.
  rewrite (Z.mod_eq (z + 2 ^ 47) (2 ^ 48)) by lia.
  replace (z + 2 ^ 47 - 2 ^ 48 * ((z + 2 ^ 47) / 2 ^ 48) - 2 ^ 47 - z)
    with (- ((z + 2 ^ 47) / 2 ^ 48) * 2 ^ 48) by lia.
  apply Z.mod_mul. lia.
Qed.

Lemma wrap48_unique (z r : Z) :
  - 2 ^ 47 <= r < 2 ^ 47 -> (r - z) mod 2 ^ 48 = 0 -> r = wrap48 z.
Proof.
  intros Hr Hc.
  pose proof (wrap48_range z) as Hw. pose proof (wrap48_congr z) as Hwc.
  apply Z.mod_divide in Hc; [| lia]. apply Z.mod_divide in Hwc; [| lia].
  destruct Hc as [q Hq], Hwc as [q' Hq'].
  assert (q = q') by nia. subst q'. lia.
Qed.

Lemma wrap48_to_int64 (z : Z) : wrap48 (to_int64 z) = wrap48 z.
Proof.
  symmetry. apply wrap48_unique; [apply wrap48_range |].
  pose proof (wrap48_congr z) as Hw.
  apply Z.mod_divide in Hw; [| lia]. destruct Hw as [q Hq].
  apply Z.mod_divide; [lia |].
  assert (Hz : to_int64 z = z - 2 ^ 64 * ((z + 2 ^ 63) / 2 ^ 64)).
  { unfold to_int64. rewrite (Z.mod_eq (z + 2 ^ 63) (2 ^ 64)) by lia. lia. }
  remember ((z + 2 ^ 63) / 2 ^ 64) as d eqn:Hd. clear Hd.
  remember (wrap48 z) as w eqn:Hw. clear Hw.
  exists (q + d * 2 ^ 16).
  change (2 ^ 64) with (2 ^ 16 * 2 ^ 48) in Hz. lia.
Qed.

Lemma GetTag_NewInt (i : Z) : GetTag (NewInt i) = TAG_INT.
Proof.
  unfold GetTag, NewInt, to_byte.
  rewrite Z.shiftr_lor.
  assert (Hp : Z.shiftr (Z.land (to_uint64 i) PAYLOAD_MASK) TAG_SHIFT = 0).
  { rewrite PAYLOAD_MASK_ones, Z.land_ones by lia.
    unfold TAG_SHIFT. rewrite Z.shiftr_div_pow2 by lia.
    apply Z.div_small. apply Z.mod_pos_bound. lia. }
  rewrite Hp. reflexivity.
Qed.

Lemma IsInt_NewInt (i : Z) : IsInt (NewInt i) = true.
Proof. unfold IsInt. rewrite GetTag_NewInt. reflexivity. Qed.

(* ===================================================================== *)
(** ** The 48-bit integer encoding (C9, C10) *)
(* ===================================================================== *)

(** C9.  For every integer [i] in [-2^47, 2^47 - 1], building an integer
    value from [i] with [NewInt] and reading the payload back with [AsInt]
    (which sign-extends bit 47) gives [i] again. *)
Theorem AsInt_NewInt_roundtrip (i : Z) :
  MIN_INT_48 <= i <= MAX_INT_48 -> AsInt (NewInt i) = i.
Proof.
  unfold MIN_INT_48, MAX_INT_48. intros Hi.
  rewrite AsInt_NewInt. apply wrap48_small. lia.
Qed.

Lemma AsInt_NewInt_roundtrip_witness :
  (MIN_INT_48 <= -42 <= MAX_INT_48) /\ AsInt (NewInt (-42)) = -42.
Proof.
  split; [unfold MIN_INT_48, MAX_INT_48; lia |].
  apply (AsInt_NewInt_roundtrip (-42)). unfold MIN_INT_48, MAX_INT_48. lia.
Defined.

Lemma Opcode_of_byte_byte (op : Opcode) : Opcode_of_byte (Opcode_byte op) = Some op.
Proof. destruct op; reflexivity. Qed.

Lemma readByte_at (vm : VM) (b : Z) :
  slice_at (Code (chunk vm)) (ip vm) = Some b ->
  readByte vm = Ok (b, set_ip vm (ip vm + 1)).
Proof. intros H. unfold readByte. rewrite H. reflexivity. Qed.

Lemma stack_get_range (vm : VM) (i : Z) (v : Value) :
  stack_get vm i = Ok v -> 0 <= i < STACK_MAX.
Proof.
  unfold stack_get. intros H.
  destruct (Z.leb_spec 0 i), (Z.ltb_spec i STACK_MAX); cbn in H; try discriminate.
  lia.
Qed.

Lemma stack_get_put_eq (vm : VM) (i : Z) (v : Value) :
  0 <= i < STACK_MAX ->
  exists vm', stack_put vm i v = Ok vm' /\ stack vm' = <[i := v]> (stack vm)
    /\ stackTop vm' = stackTop vm /\ globals vm' = globals vm
    /\ chunk vm' = chunk vm /\ ip vm' = ip vm /\ vm_heap vm' = vm_heap vm
    /\ out vm' = out vm /\ frameCount vm' = frameCount vm.
Proof.
  intros Hi. unfold stack_put.
  destruct (Z.leb_spec 0 i), (Z.ltb_spec i STACK_MAX); try lia. cbn [andb].
  eexists; split; [reflexivity |]. cbn. repeat split; reflexivity.
Qed.

(** Pushing in range: the cell at the old top holds the value, the top moves
    up by one. *)
Lemma push_continue_ok (vm : VM) (v : Value) :
  0 <= stackTop vm < STACK_MAX ->
  exists vm', push_continue vm v = Ok (Continue vm')
    /\ stack vm' = <[stackTop vm := v]> (stack vm)
    /\ stackTop vm' = stackTop vm + 1 /\ globals vm' = globals vm
    /\ chunk vm' = chunk vm /\ ip vm' = ip vm /\ vm_heap vm' = vm_heap vm
    /\ out vm' = out vm /\ frameCount vm' = frameCount vm.
Proof.
  intros Ht. unfold push_continue.
  destruct (stack_get_put_eq vm (stackTop vm) v Ht)
    as (vm1 & -> & Hs & Htop & Hg & Hc & Hip & Hh & Ho & Hf).
  cbn [bind]. eexists; split; [reflexivity |]. cbn.
  rewrite Hs, Htop, Hg, Hc, Hip, Hh, Ho, Hf. repeat split; reflexivity.
Qed.

Lemma stack_get_lookup (vm : VM) (i : Z) :
  0 <= i < STACK_MAX -> stack_get vm i = Ok (default 0 (stack vm !! i)).
Proof.
  intros Hi. unfold stack_get.
  destruct (Z.leb_spec 0 i), (Z.ltb_spec i STACK_MAX); try lia. reflexivity.
Qed.

(** C10.  For every 64-bit signed [i], [NewInt] keeps the low 48 bits of [i]
    and [AsInt] sign-extends bit 47, so that [AsInt (NewInt i)] is the unique
    value of [-2^47, 2^47 - 1] congruent to [i] modulo [2^48].  Consequently
    the integer opcodes [OP_ADD], [OP_SUB], [OP_MUL] and [OP_NEGATE] leave on
    the stack the exact result wrapped into 48 bits: overflow wraps, it does
    not saturate. *)
Theorem int48_arithmetic_wraps (i : Z) (vm : VM) (op : Opcode) (a b : Value) :
  - 2 ^ 63 <= i < 2 ^ 63 ->
  slice_at (Code (chunk vm)) (ip vm) = Some (Opcode_byte op) ->
  In op [OP_ADD; OP_SUB; OP_MUL; OP_NEGATE] ->
  stack_get vm (stackTop vm - 1) = Ok b -> IsInt b = true ->
  op = OP_NEGATE \/ (stack_get vm (stackTop vm - 2) = Ok a /\ IsInt a = true) ->
  (Z.land (NewInt i) PAYLOAD_MASK = i mod 2 ^ 48
   /\ AsInt (NewInt i) = wrap48 i
   /\ MIN_INT_48 <= wrap48 i <= MAX_INT_48
   /\ (wrap48 i - i) mod 2 ^ 48 = 0
   /\ forall r, MIN_INT_48 <= r <= MAX_INT_48 -> (r - i) mod 2 ^ 48 = 0 ->
                r = wrap48 i)
  /\ exists vm' r,
       step vm = Ok (Continue vm')
       /\ stack_get vm' (stackTop vm' - 1) = Ok r
       /\ IsInt r = true
       /\ AsInt r = wrap48 (exact_result op (AsInt a) (AsInt b)).
Proof.
  intros Hi Hop Hin Hb Hbi Ha. split.
  - split; [apply payload_of_NewInt |].
    split; [apply AsInt_NewInt |].
    pose proof (wrap48_range i) as Hr.
    split; [unfold MIN_INT_48, MAX_INT_48; lia |].
    split; [apply wrap48_congr |].
    intros r Hr' Hc. apply wrap48_unique; [| exact Hc].
    unfold MIN_INT_48, MAX_INT_48 in Hr'. lia.
  - pose proof (stack_get_range _ _ _ Hb) as Hrb.
    unfold step. rewrite (readByte_at _ _ Hop). cbn [bind].
    rewrite Opcode_of_byte_byte.
    assert (Hbinary :
      forall z, stack_get vm (stackTop vm - 2) = Ok a ->
        exists vm' r,
          push_continue (set_stackTop (set_ip vm (ip vm + 1)) (stackTop vm - 2))
                        (NewInt (to_int64 z)) = Ok (Continue vm')
          /\ stack_get vm' (stackTop vm' - 1) = Ok r
          /\ IsInt r = true /\ AsInt r = wrap48 z).
    { intros z Hga. pose proof (stack_get_range _ _ _ Hga) as Hra.
      destruct (push_continue_ok
                  (set_stackTop (set_ip vm (ip vm + 1)) (stackTop vm - 2))
                  (NewInt (to_int64 z)))
        as (vm' & Hpc & Hs & Htop & _); [cbn; lia |].
      cbn in Hs, Htop. exists vm', (NewInt (to_int64 z)).
      split; [exact Hpc |].
      rewrite stack_get_lookup by (rewrite Htop; lia).
      rewrite Htop, Hs. replace (stackTop vm - 2 + 1 - 1) with (stackTop vm - 2) by lia.
      rewrite lookup_insert_eq. cbn [default].
      rewrite IsInt_NewInt, AsInt_NewInt, wrap48_to_int64. auto. }
    assert (Hpop : forall a', stack_get vm (stackTop vm - 2) = Ok a' ->
      pop2 (set_ip vm (ip vm + 1))
      = Ok (a', b, set_stackTop (set_ip vm (ip vm + 1)) (stackTop vm - 2))).
    { intros a' Hga. unfold pop2.
      change (stack_get (set_ip vm (ip vm + 1)) (stackTop (set_ip vm (ip vm + 1)) - 1))
        with (stack_get vm (stackTop vm - 1)).
      change (stack_get (set_ip vm (ip vm + 1)) (stackTop (set_ip vm (ip vm + 1)) - 2))
        with (stack_get vm (stackTop vm - 2)).
      rewrite Hb, Hga. reflexivity. }
    cbn in Hin.
    destruct Hin as [<- | [<- | [<- | [<- | []]]]];
      cbn [exact_result];
      try (destruct Ha as [Hn | [Hga Hai]]; [discriminate Hn |];
           rewrite (Hpop _ Hga); cbn [bind]; rewrite Hai, Hbi; cbn [negb orb andb];
           apply Hbinary; exact Hga).
    change (stack_get (set_ip vm (ip vm + 1)) (stackTop (set_ip vm (ip vm + 1)) - 1))
      with (stack_get vm (stackTop vm - 1)).
    rewrite Hb. cbn [bind]. rewrite Hbi. cbn [negb].
    destruct (stack_get_put_eq (set_ip vm (ip vm + 1))
                (stackTop (set_ip vm (ip vm + 1)) - 1)
                (NewInt (to_int64 (- AsInt b))))
      as (vm' & Hput & Hs & Htop & _); [cbn; lia |].
    rewrite Hput. cbn [bind]. exists vm', (NewInt (to_int64 (- AsInt b))).
    split; [reflexivity |]. cbn in Hs, Htop.
    rewrite stack_get_lookup by (rewrite Htop; lia).
    rewrite Htop, Hs, lookup_insert_eq. cbn [default].
    rewrite IsInt_NewInt, AsInt_NewInt, wrap48_to_int64. auto.
Qed.

Lemma int48_arithmetic_wraps_witness :
  exists vm' r,
    step overflow_vm = Ok (Continue vm')
    /\ stack_get vm' (stackTop vm' - 1) = Ok r
    /\ IsInt r = true
    /\ AsInt r = MIN_INT_48.
Proof.
  destruct (int48_arithmetic_wraps (2 ^ 47) overflow_vm OP_ADD
              (NewInt MAX_INT_48) (NewInt 1)) as [_ (vm' & r & Hs & Hg & Hi & Hr)].
  - lia.
  - reflexivity.
  - cbn. auto.
  - reflexivity.
  - reflexivity.
  - right. split; reflexivity.
  - exists vm', r. repeat split; assumption.
Defined.

(* ===================================================================== *)
(** ** Integer literals (C8) *)
(* ===================================================================== *)

Lemma short_of_bytes_split (w : Z) :
  0 <= w < 2 ^ 16 ->
  short_of_bytes (to_byte (Z.shiftr w 8)) (to_byte (Z.land w 0xFF)) = w.
Proof.
  intros Hw. unfold short_of_bytes, to_byte, to_uint16.
  change 0xFF with (Z.ones 8).
  rewrite Z.land_ones, Z.shiftr_div_pow2 by lia.
  assert (Hh : 0 <= w / 2 ^ 8 < 2 ^ 8).
  { split; [apply Z.div_pos; lia |]. apply Z.div_lt_upper_bound; lia. }
  pose proof (Z.mod_pos_bound w (2 ^ 8)) as Hl.
  rewrite (Z.mod_small (w / 2 ^ 8)) by lia.
  rewrite Z.mod_mod by lia.
  rewrite Z.shiftl_mul_pow2 by lia.
  rewrite (Z.mod_small (w / 2 ^ 8 * 2 ^ 8)) by lia.
  assert (Hdisj : Z.land (w / 2 ^ 8 * 2 ^ 8) (w mod 2 ^ 8) = 0).
  { apply Z.bits_inj'. intros n Hn. rewrite Z.land_spec, Z.bits_0.
    destruct (Z.lt_ge_cases n 8) as [Hlt | Hge].
    - rewrite <- Z.shiftl_mul_pow2, Z.shiftl_spec_low by lia. reflexivity.
    - rewrite Z.mod_pow2_bits_high by lia. apply andb_false_r. }
  pose proof (Z.add_lor_land (w / 2 ^ 8 * 2 ^ 8) (w mod 2 ^ 8)) as Hadd.
  rewrite Hdisj in Hadd.
  pose proof (Z.div_mod w (2 ^ 8)). lia.
Qed.






Lemma Code_emit (c : Compiler) (op : Opcode) :
  Code (c_chunk (emit c op)) = Code (c_chunk c) ++ [Opcode_byte op].
Proof. reflexivity. Qed.

Lemma Code_emitByte (c : Compiler) (op : Opcode) (b : Z) :
  Code (c_chunk (emitByte c op b)) = Code (c_chunk c) ++ [Opcode_byte op; b].
Proof. cbn. rewrite <- app_assoc. reflexivity. Qed.



(* ===================================================================== *)
(** ** Symbol resolution (C4) *)
(* ===================================================================== *)

Lemma Resolve_unfold (st : SymbolTable) (name : string) :
  Resolve st name
  = match store st !! name with
    | Some symbol => (symbol, true)
    | None =>
        match outer st with
        | Some o => Resolve o name
        | None => (Symbol_zero, false)
        end
    end.
Proof.
  destruct st as [o s n]. cbn [Resolve store outer].
  destruct (s !! name); [reflexivity |].
  destruct o as [o' |]; [| reflexivity].
  destruct (Resolve o' name) as [symbol ok].
  destruct ok; cbn [negb]; [| reflexivity].
  destruct (SymbolScope_eqb (Scope symbol) SCOPE_LOCAL); reflexivity.
Qed.

Lemma scope_chain_unfold (st : SymbolTable) :
  scope_chain st
  = store st :: match outer st with Some o => scope_chain o | None => [] end.
Proof. destruct st; reflexivity. Qed.

(** The first store of the chain that binds the name decides the result. *)
Lemma Resolve_first_match (st : SymbolTable) (name : string) (i : nat)
      (s : gmap string Symbol) (symbol : Symbol) :
  scope_chain st !! i = Some s ->
  s !! name = Some symbol ->
  (forall j sj, (j < i)%nat -> scope_chain st !! j = Some sj -> sj !! name = None) ->
  Resolve st name = (symbol, true).
Proof.
  revert i. induction st as [s0 n | o s0 n IH] using SymbolTable_chain_ind;
    intros i Hi Hs Hfirst;
    rewrite Resolve_unfold; cbn [store outer];
    rewrite scope_chain_unfold in Hi, Hfirst; cbn [store outer] in Hi, Hfirst.
  - destruct i as [| i]; [| discriminate].
    cbn in Hi. injection Hi as ->. rewrite Hs. reflexivity.
  - destruct i as [| i].
    + cbn in Hi. injection Hi as ->. rewrite Hs. reflexivity.
    + rewrite (Hfirst 0%nat s0) by (lia || reflexivity).
      apply (IH i Hi Hs).
      intros j sj Hj Hsj. apply (Hfirst (S j) sj); [lia | exact Hsj].
Qed.

Lemma Resolve_no_match (st : SymbolTable) (name : string) :
  (forall j sj, scope_chain st !! j = Some sj -> sj !! name = None) ->
  Resolve st name = (Symbol_zero, false).
Proof.
  induction st as [s0 n | o s0 n IH] using SymbolTable_chain_ind;
    intros Hnone;
    rewrite Resolve_unfold; cbn [store outer];
    rewrite scope_chain_unfold in Hnone; cbn [store outer] in Hnone;
    rewrite (Hnone 0%nat s0) by reflexivity; [reflexivity |].
  apply IH. intros j sj Hsj. apply (Hnone (S j) sj). exact Hsj.
Qed.

Lemma compileIdentifier_local (c : Compiler) (name : string) (symbol : Symbol) :
  Resolve (c_symbolTable c) name = (symbol, true) ->
  Scope symbol = SCOPE_LOCAL ->
  exists c', compileIdentifier c name = Ok c'
    /\ Code (c_chunk c')
       = Code (c_chunk c)
           ++ (if Index symbol =? 0 then [Opcode_byte OP_GET_LOCAL_0]
               else if Index symbol =? 1 then [Opcode_byte OP_GET_LOCAL_1]
               else if Index symbol =? 2 then [Opcode_byte OP_GET_LOCAL_2]
               else if Index symbol =? 3 then [Opcode_byte OP_GET_LOCAL_3]
               else [Opcode_byte OP_GET_LOCAL; to_byte (Index symbol)]).
Proof.
  intros Hres Hloc. unfold compileIdentifier. rewrite Hres, Hloc. cbn [negb].
  destruct (Index symbol =? 0); [eexists; split; reflexivity |].
  destruct (Index symbol =? 1); [eexists; split; reflexivity |].
  destruct (Index symbol =? 2); [eexists; split; reflexivity |].
  destruct (Index symbol =? 3); [eexists; split; reflexivity |].
  eexists; split; [reflexivity |]. apply Code_emitByte.
Qed.

(** C4, as the code has it.  [Resolve] searches the stores from the innermost
    scope outward and returns the first binding of the name exactly as it was
    stored, whatever its scope kind: a local that is found in an enclosing
    scope is returned unchanged as well, with scope [SCOPE_LOCAL] and its slot
    index of that enclosing scope, and [compileIdentifier] lowers it to a
    [GET_LOCAL] instruction without reporting an error.  A name bound nowhere
    in the chain is not resolved. *)
Theorem Resolve_returns_first_match_unchanged
        (c : Compiler) (name : string) (i : nat)
        (s : gmap string Symbol) (symbol : Symbol) :
  scope_chain (c_symbolTable c) !! i = Some s ->
  s !! name = Some symbol ->
  (forall j sj, (j < i)%nat -> scope_chain (c_symbolTable c) !! j = Some sj ->
                sj !! name = None) ->
  Resolve (c_symbolTable c) name = (symbol, true)
  /\ (Scope symbol = SCOPE_LOCAL ->
      exists c', compileIdentifier c name = Ok c'
        /\ Code (c_chunk c')
           = Code (c_chunk c)
               ++ (if Index symbol =? 0 then [Opcode_byte OP_GET_LOCAL_0]
                   else if Index symbol =? 1 then [Opcode_byte OP_GET_LOCAL_1]
                   else if Index symbol =? 2 then [Opcode_byte OP_GET_LOCAL_2]
                   else if Index symbol =? 3 then [Opcode_byte OP_GET_LOCAL_3]
                   else [Opcode_byte OP_GET_LOCAL; to_byte (Index symbol)]))
  /\ (forall other,
        (forall j sj, scope_chain (c_symbolTable c) !! j = Some sj ->
                      sj !! other = None) ->
        Resolve (c_symbolTable c) other = (Symbol_zero, false)).
Proof.
  intros Hi Hs Hfirst.
  pose proof (Resolve_first_match _ _ _ _ _ Hi Hs Hfirst) as Hres.
  split; [exact Hres |]. split.
  - intros Hloc. apply (compileIdentifier_local c name symbol Hres Hloc).
  - intros other Hnone. apply Resolve_no_match. exact Hnone.
Qed.

(** Witness: [c], a local of the enclosing function scope, resolved from the
    innermost scope. *)
Lemma Resolve_returns_first_match_unchanged_witness :
  Resolve test_secondLocal "c"
  = ({| Name := "c"; Scope := SCOPE_LOCAL; Index := 0 |}, true).
Proof.
  refine (proj1 (Resolve_returns_first_match_unchanged nested_compiler "c" 1%nat
                   (store test_firstLocal)
                   {| Name := "c"; Scope := SCOPE_LOCAL; Index := 0 |} _ _ _)).
  - reflexivity.
  - vm_compute. reflexivity.
  - intros j sj Hj Hsj. destruct j as [| j]; [| lia].
    cbn in Hsj. injection Hsj as <-. vm_compute. reflexivity.
Defined.

(** C4, counterexample to the claim as stated: the local [c] of an enclosing
    scope resolves to the very symbol that scope stored, nothing marks it
    unavailable, and using it compiles to [OP_GET_LOCAL_0] instead of
    producing a compile error. *)
Lemma outer_local_is_not_rejected :
  Resolve test_secondLocal "c" = Resolve test_firstLocal "c"
  /\ Resolve test_secondLocal "c"
     = ({| Name := "c"; Scope := SCOPE_LOCAL; Index := 0 |}, true)
  /\ compileIdentifier nested_compiler "c"
     = Ok (emit nested_compiler OP_GET_LOCAL_0)
  /\ ~ (exists msg, compileIdentifier nested_compiler "c" = Err msg).
Proof.
  assert (H : compileIdentifier nested_compiler "c"
              = Ok (emit nested_compiler OP_GET_LOCAL_0))
    by (vm_compute; reflexivity).
  repeat split; try (vm_compute; reflexivity); try exact H.
  intros [msg Hmsg]. rewrite H in Hmsg. discriminate.
Qed.

(* ===================================================================== *)
(** ** What one instruction leaves unchanged *)
(* ===================================================================== *)

Ltac inv_bind H :=
  match type of H with
  | bind ?r _ = _ =>
      let E := fresh "E" in
      destruct r as [? | ? | ?] eqn:E; cbn [bind] in H; [| discriminate H ..]
  end.

Ltac keeps_solve :=
  unfold keeps in *; cbn in *;
  repeat match goal with H : _ /\ _ |- _ => destruct H end;
  repeat split; congruence.

Lemma readByte_keeps vm b vm1 : readByte vm = Ok (b, vm1) -> keeps vm vm1.
Proof.
  unfold readByte. destruct slice_at; [| discriminate].
  intros [= <- <-]. keeps_solve.
Qed.

Lemma readShort_keeps vm b vm1 : readShort vm = Ok (b, vm1) -> keeps vm vm1.
Proof.
  unfold readShort. do 2 (destruct slice_at; [| discriminate]).
  intros [= <- <-]. keeps_solve.
Qed.

Lemma stack_put_keeps vm i v vm1 : stack_put vm i v = Ok vm1 -> keeps vm vm1.
Proof.
  unfold stack_put. destruct andb; [| discriminate].
  intros [= <-]. keeps_solve.
Qed.

Lemma push_continue_keeps vm v o :
  push_continue vm v = Ok o -> exists vm1, o = Continue vm1 /\ keeps vm vm1.
Proof.
  unfold push_continue. intros H. inv_bind H. apply stack_put_keeps in E.
  injection H as <-. eexists; split; [reflexivity |]. keeps_solve.
Qed.

Lemma pop2_keeps vm a b vm1 : pop2 vm = Ok (a, b, vm1) -> keeps vm vm1.
Proof.
  unfold pop2. intros H. inv_bind H. inv_bind H.
  injection H as <- <- <-. keeps_solve.
Qed.

Lemma yarn_args_keeps n :
  forall vm argc i vm1, yarn_args vm argc i n = Ok vm1 -> keeps vm vm1.
Proof.
  induction n as [| n IH]; intros vm argc i vm1 H; cbn [yarn_args] in H.
  - injection H as <-. keeps_solve.
  - inv_bind H. inv_bind H. apply IH in H. keeps_solve.
Qed.

Lemma InternString_chunk h c s h' c' p :
  InternString h c s = (h', c', p) ->
  Code c' = Code c /\ Constants c' = Constants c /\ Lines c' = Lines c.
Proof.
  unfold InternString. destruct (strings c !! s).
  - intros [= <- <- <-]. auto.
  - cbn. intros [= <- <- <-]. auto.
Qed.

Lemma Opcode_byte_of_byte b op : Opcode_of_byte b = Some op -> b = Opcode_byte op.
Proof.
  intros H. destruct b as [| p | p]; try discriminate H.
  - injection H as <-. reflexivity.
  - cbn in H.
    repeat (match type of H with
            | match ?q with _ => _ end = _ => destruct q; try discriminate H
            end).
    all: injection H as <-; reflexivity.
Qed.

Ltac step_case H :=
  repeat first
    [ discriminate H
    | inv_bind H
    | match type of H with
      | match ?x with _ => _ end = _ => destruct x eqn:?
      end ];
  repeat match goal with
    | E : readByte _ = Ok _ |- _ => apply readByte_keeps in E
    | E : readShort _ = Ok _ |- _ => apply readShort_keeps in E
    | E : stack_put _ _ _ = Ok _ |- _ => apply stack_put_keeps in E
    | E : pop2 _ = Ok _ |- _ => apply pop2_keeps in E
    | E : yarn_args _ _ _ _ = Ok _ |- _ => apply yarn_args_keeps in E
    | E : InternString _ _ _ = _ |- _ => apply InternString_chunk in E
    | E : push_continue _ _ = Ok _ |- _ =>
        let vm1 := fresh "vm" in
        let Hk := fresh "Hk" in
        apply push_continue_keeps in E as (vm1 & E & Hk);
        try (injection E as <-)
    end.

(** No instruction changes the code, the constants, the line table or the
    frame count, and only [SET_GLOBAL] changes a global. *)
Lemma step_keeps vm vm' :
  step vm = Ok (Continue vm') ->
  Code (chunk vm') = Code (chunk vm)
  /\ Constants (chunk vm') = Constants (chunk vm)
  /\ Lines (chunk vm') = Lines (chunk vm)
  /\ frameCount vm' = frameCount vm
  /\ forall name, writes_global vm name = false ->
                  globals vm' !! name = globals vm !! name.
Proof.
  unfold step. intros H. inv_bind H. destruct a as [instruction vm0].
  destruct (Opcode_of_byte instruction) as [op |] eqn:Hop; [| discriminate H].
  apply Opcode_byte_of_byte in Hop. subst instruction.
  assert (Hset : op = OP_SET_GLOBAL \/ op <> OP_SET_GLOBAL)
    by (destruct op; (left; reflexivity) || (right; discriminate)).
  destruct Hset as [-> | Hnot].
  { inv_bind H. destruct a as [idx vm1]. inv_bind H. inv_bind H.
    injection H as <-.
    assert (Hw : forall name, writes_global vm name = false -> a <> name).
    { intros name Hw ->. unfold writes_global in Hw. unfold readByte in E.
      destruct (slice_at (Code (chunk vm)) (ip vm)) as [b |]; [| discriminate E].
      injection E as -> <-. rewrite Z.eqb_refl in Hw. rewrite E0, E1 in Hw.
      rewrite String.eqb_refl in Hw. discriminate. }
    apply readByte_keeps in E. apply readShort_keeps in E0.
    unfold keeps in *. cbn. repeat split; try (intuition congruence).
    intros name Hn. rewrite lookup_insert_ne by (apply Hw; exact Hn).
    intuition congruence. }
  destruct op; try congruence.
  all: step_case H.
  all: try (injection H as <-).
  all: try discriminate.
  all: unfold fail in *; try discriminate.
  all: unfold keeps in *; cbn in *.
  all: repeat match goal with H : _ /\ _ |- _ => destruct H end;
    repeat split; try congruence; intros; congruence.
Qed.

Lemma execute_S (n : nat) (vm : VM) :
  execute (S n) vm
  = match step vm with
    | Ok (Continue vm') => execute n vm'
    | Ok (Finished v e vm') => Ok (Finished v e vm')
    | Err msg => Err msg
    | Panicked msg => Panicked msg
    end.
Proof. cbn [execute]. destruct (step vm) as [[] | |]; reflexivity. Qed.

Lemma execute_no_write (name : string) (n : nat) :
  forall vm vm',
    execute n vm = Ok (Continue vm') -> no_write name n vm ->
    globals vm' !! name = globals vm !! name.
Proof.
  induction n as [| n IH]; intros vm vm' Hex Hnw.
  - injection Hex as <-. reflexivity.
  - rewrite execute_S in Hex. destruct Hnw as [Hw Hrest].
    destruct (step vm) as [[vm1 | ? ? ?] | |] eqn:Hstep; try discriminate Hex.
    rewrite (IH vm1 vm' Hex Hrest).
    apply (step_keeps vm vm1 Hstep). exact Hw.
Qed.

(* ===================================================================== *)
(** ** Globals (C7) *)
(* ===================================================================== *)

Lemma readShort_at (vm : VM) (b1 b2 : Z) :
  slice_at (Code (chunk vm)) (ip vm) = Some b1 ->
  slice_at (Code (chunk vm)) (ip vm + 1) = Some b2 ->
  readShort vm = Ok (short_of_bytes b1 b2, set_ip vm (ip vm + 2)).
Proof. intros H1 H2. unfold readShort. rewrite H1, H2. reflexivity. Qed.

(** C7.  [SET_GLOBAL] stores the value on top of the stack in the globals
    table under the name its operand designates and leaves the operand stack
    as it was (same cells, same depth).  A later [GET_GLOBAL] of the same name
    in the same run, with no [SET_GLOBAL] of that name in between, pushes
    exactly that value. *)
Theorem set_global_then_get_global
        (vm vm2 : VM) (b1 b2 b1' b2' : Z) (name : string) (v : Value) (n : nat) :
  let vm1 := set_global (set_ip vm (ip vm + 3)) name v in
  slice_at (Code (chunk vm)) (ip vm) = Some (Opcode_byte OP_SET_GLOBAL) ->
  slice_at (Code (chunk vm)) (ip vm + 1) = Some b1 ->
  slice_at (Code (chunk vm)) (ip vm + 2) = Some b2 ->
  constant_name vm (short_of_bytes b1 b2) = Ok name ->
  stack_get vm (stackTop vm - 1) = Ok v ->
  execute n vm1 = Ok (Continue vm2) ->
  no_write name n vm1 ->
  slice_at (Code (chunk vm2)) (ip vm2) = Some (Opcode_byte OP_GET_GLOBAL) ->
  slice_at (Code (chunk vm2)) (ip vm2 + 1) = Some b1' ->
  slice_at (Code (chunk vm2)) (ip vm2 + 2) = Some b2' ->
  constant_name vm2 (short_of_bytes b1' b2') = Ok name ->
  0 <= stackTop vm2 < STACK_MAX ->
  step vm = Ok (Continue vm1)
  /\ stack vm1 = stack vm
  /\ stackTop vm1 = stackTop vm
  /\ globals vm1 = <[name := v]> (globals vm)
  /\ exists vm3,
       step vm2 = Ok (Continue vm3)
       /\ stackTop vm3 = stackTop vm2 + 1
       /\ stack_get vm3 (stackTop vm2) = Ok v
       /\ forall j, j <> stackTop vm2 -> stack vm3 !! j = stack vm2 !! j.
Proof.
  intros vm1 Hop Hb1 Hb2 Hname Hv Hex Hnw Hop' Hb1' Hb2' Hname' Htop.
  assert (Hstep : step vm = Ok (Continue vm1)).
  { unfold step. rewrite (readByte_at _ _ Hop). cbn [bind].
    rewrite Opcode_of_byte_byte.
    rewrite (readShort_at (set_ip vm (ip vm + 1)) b1 b2)
      by (cbn; rewrite <- ?Z.add_assoc; assumption).
    cbn [bind].
    change (constant_name (set_ip (set_ip vm (ip vm + 1))
                                  (ip (set_ip vm (ip vm + 1)) + 2))
                          (short_of_bytes b1 b2))
      with (constant_name vm (short_of_bytes b1 b2)).
    rewrite Hname. cbn [bind].
    change (stack_get _ _) with (stack_get vm (stackTop vm - 1)).
    rewrite Hv. cbn [bind]. unfold vm1, set_global, set_ip. cbn.
    replace (ip vm + 1 + 2) with (ip vm + 3) by lia. reflexivity. }
  split; [exact Hstep |]. split; [reflexivity |]. split; [reflexivity |].
  split; [reflexivity |].
  assert (Hg : globals vm2 !! name = Some v).
  { rewrite (execute_no_write name n vm1 vm2 Hex Hnw).
    unfold vm1. cbn. apply lookup_insert_eq. }
  unfold step. rewrite (readByte_at _ _ Hop'). cbn [bind].
  rewrite Opcode_of_byte_byte.
  rewrite (readShort_at (set_ip vm2 (ip vm2 + 1)) b1' b2')
    by (cbn; rewrite <- ?Z.add_assoc; assumption).
  cbn [bind].
  change (constant_name (set_ip (set_ip vm2 (ip vm2 + 1))
                                (ip (set_ip vm2 (ip vm2 + 1)) + 2))
                        (short_of_bytes b1' b2'))
    with (constant_name vm2 (short_of_bytes b1' b2')).
  rewrite Hname'. cbn [bind].
  change (globals (set_ip (set_ip vm2 (ip vm2 + 1))
                          (ip (set_ip vm2 (ip vm2 + 1)) + 2)))
    with (globals vm2).
  rewrite Hg.
  destruct (push_continue_ok
              (set_ip (set_ip vm2 (ip vm2 + 1)) (ip (set_ip vm2 (ip vm2 + 1)) + 2)) v)
    as (vm3 & Hpc & Hs & Ht & _); [exact Htop |].
  cbn in Hs, Ht. exists vm3. split; [exact Hpc |]. split; [exact Ht |].
  split.
  - rewrite stack_get_lookup by exact Htop. rewrite Hs, lookup_insert_eq.
    reflexivity.
  - intros j Hj. rewrite Hs. apply lookup_insert_ne. congruence.
Qed.

(** Witness: [make x be 42] immediately followed by a read of [x]. *)
Lemma set_global_then_get_global_witness :
  exists vm3,
    step (set_global (set_ip before_set_global 5) "x" (NewInt 42))
    = Ok (Continue vm3)
    /\ stackTop vm3 = 2
    /\ stack_get vm3 1 = Ok (NewInt 42).
Proof.
  destruct (set_global_then_get_global before_set_global
              (set_global (set_ip before_set_global 5) "x" (NewInt 42))
              0 0 0 0 "x" (NewInt 42) 0)
    as (_ & _ & _ & _ & vm3 & Hstep & Htop & Hget & _);
    try (vm_compute; reflexivity); try exact I.
  - vm_compute. split; [discriminate | reflexivity].
  - exists vm3. repeat split; assumption.
Defined.

(* ===================================================================== *)
(** ** Running the loop for more instructions *)
(* ===================================================================== *)

Lemma execute_add (n m : nat) :
  forall vm,
    execute (n + m) vm
    = match execute n vm with
      | Ok (Continue vm') => execute m vm'
      | r => r
      end.
Proof.
  induction n as [| n IH]; intros vm; [reflexivity |].
  cbn [Nat.add]. rewrite !execute_S.
  destruct (step vm) as [[vm1 | ? ? ?] | |]; try reflexivity.
  apply IH.
Qed.

Lemma execute_panicked_stable (n m : nat) (vm : VM) (msg : string) :
  execute n vm = Panicked msg -> execute (n + m) vm = Panicked msg.
Proof. intros H. rewrite execute_add, H. reflexivity. Qed.

Lemma execute_finished_stable (n m : nat) (vm : VM) v e vm' :
  execute n vm = Ok (Finished v e vm') ->
  execute (n + m) vm = Ok (Finished v e vm').
Proof. intros H. rewrite execute_add, H. reflexivity. Qed.

(** Once the loop has panicked after [n] instructions, no amount of fuel
    makes it return. *)
Lemma execute_panicked_never_returns (n : nat) (vm : VM) (msg : string) :
  execute n vm = Panicked msg ->
  forall fuel v e vm', execute fuel vm <> Ok (Finished v e vm').
Proof.
  intros Hp fuel v e vm' Hf.
  destruct (Nat.le_ge_cases fuel n) as [Hle | Hge].
  - replace n with (fuel + (n - fuel))%nat in Hp by lia.
    rewrite (execute_finished_stable _ _ _ _ _ _ Hf) in Hp. discriminate.
  - replace fuel with (n + (fuel - n))%nat in Hf by lia.
    rewrite (execute_panicked_stable _ _ _ _ Hp) in Hf. discriminate.
Qed.

(* ===================================================================== *)
(** ** Division by zero (C3) *)
(* ===================================================================== *)

(** C3, as the code has it.  Compiling and running [10 / 0] returns a runtime
    error and no value; its message mentions the division by zero; the line it
    reports is read from the chunk's line table at the offset of the failing
    [OP_DIV], and since the compiler writes line 0 for every byte it emits,
    the reported line is 0 whatever the source line of the [/]. *)
Theorem division_by_zero_reports_line_table_entry
        (t_stmt t_slash t_ten t_zero : Token) (k : nat) :
  exists ch h vm,
    Compile (New []) (div_by_zero_program t_stmt t_slash t_ten t_zero) = Ok (ch, h)
    /\ Run (3 + k) (NewVM h) ch
       = Ok (Finished NewNothing
               (Some (runtimeError vm "I no fit divide by zero o!")) vm)
    /\ chunk vm = ch
    /\ slice_at (Code ch) (ip vm - 1) = Some (Opcode_byte OP_DIV)
    /\ Lines ch !! Z.to_nat (ip vm - 1) = Some 0
    /\ Forall (fun line => line = 0) (Lines ch)
    /\ runtimeError vm "I no fit divide by zero o!"
       = error_text "I no fit divide by zero o!" 0
    /\ index 0 "divide by zero" (error_text "I no fit divide by zero o!" 0)
       = Some 23%nat.
Proof.
  exists div_by_zero_chunk, [], div_by_zero_final.
  split; [vm_compute; reflexivity |].
  split; [vm_compute; reflexivity |].
  split; [reflexivity |].
  split; [reflexivity |].
  split; [reflexivity |].
  split; [repeat constructor |].
  split; vm_compute; reflexivity.
Qed.

(** C3, counterexample to the claim as stated: with the whole of [10 / 0] on
    source line 1, the error that is returned carries line 0, not the line of
    the [/] token. *)
Lemma division_by_zero_line_is_not_source_line :
  let t_slash := tok "/" 1 in
  exists vm,
    compileAndRun 3 (div_by_zero_program (tok "10" 1) t_slash (tok "10" 1)
                                         (tok "0" 1))
    = Ok (Finished NewNothing
            (Some (error_text "I no fit divide by zero o!" 0)) vm)
    /\ error_text "I no fit divide by zero o!" 0
       <> error_text "I no fit divide by zero o!" (Line t_slash).
Proof.
  eexists. split; [vm_compute; reflexivity |].
  vm_compute. discriminate.
Qed.

(* ===================================================================== *)
(** ** Opcodes the dispatch loop does not know (C1) *)
(* ===================================================================== *)

(** C1, at the failing inputs.  The compiler accepts [bring 5], [len("abc")]
    and [type(1)], and running the chunks it returns ends in the default
    branch of the dispatch loop: the runtime error "Unknown opcode", for
    [OP_BRING] (61) and [OP_BUILTIN] (66). *)
Theorem accepted_programs_reach_unknown_opcode (k : nat) :
  (exists ch h vm,
     Compile (New []) bring_program = Ok (ch, h)
     /\ Run (2 + k) (NewVM h) ch
        = Ok (Finished NewNothing (Some (error_text "Unknown opcode: 61" 0)) vm))
  /\ (exists ch h vm,
        Compile (New []) len_program = Ok (ch, h)
        /\ Run (2 + k) (NewVM h) ch
           = Ok (Finished NewNothing (Some (error_text "Unknown opcode: 66" 0)) vm))
  /\ (exists ch h vm,
        Compile (New []) type_program = Ok (ch, h)
        /\ Run (2 + k) (NewVM h) ch
           = Ok (Finished NewNothing (Some (error_text "Unknown opcode: 66" 0)) vm)).
Proof.
  split; [| split].
  - eexists _, _, _. split; [vm_compute; reflexivity |].
    vm_compute. reflexivity.
  - eexists _, _, _. split; [vm_compute; reflexivity |].
    vm_compute. reflexivity.
  - eexists _, _, _. split; [vm_compute; reflexivity |].
    vm_compute. reflexivity.
Qed.

(* ===================================================================== *)
(** ** The constant pool of the chunk and the cache of the compiler (C2) *)
(* ===================================================================== *)

(** The search loop of [Chunk.AddConstant] returns the index of an entry
    that equals the value. *)
Lemma find_constant_found (h : Heap) (value : Value) (cs : list Value) :
  forall i j,
    find_constant h cs value i = Ok (Some j) ->
    i <= j < i + Z.of_nat (length cs)
    /\ exists existing,
         cs !! Z.to_nat (j - i) = Some existing
         /\ Equals h existing value = Some true.
Proof.
  induction cs as [| e rest IH]; intros i j H; [discriminate H |].
  cbn [find_constant] in H. unfold Equals_res in H.
  destruct (Equals h e value) as [[|] |] eqn:He; cbn in H; try discriminate H.
  - injection H as <-. split; [cbn [length]; lia |].
    exists e. rewrite Z.sub_diag. split; [reflexivity | exact He].
  - destruct (IH _ _ H) as (Hr & x & Hx & Hxe).
    split; [cbn [length]; lia |].
    exists x. split; [| exact Hxe].
    replace (Z.to_nat (j - i)) with (S (Z.to_nat (j - (i + 1)))) by lia.
    exact Hx.
Qed.

Lemma Equals_refl (h : Heap) (v : Value) : Equals h v v = Some true.
Proof. unfold Equals. rewrite Z.eqb_refl. reflexivity. Qed.

(** [Chunk.AddConstant] deduplicates by value equality: the index it returns
    designates a pool entry that equals the value, and the entries that were
    pooled before keep their indices. *)
Lemma AddConstant_index_holds_equal (h : Heap) (c c' : Chunk) (value : Value) (idx : Z) :
  AddConstant h c value = Ok (c', idx) ->
  Constants c `prefix_of` Constants c'
  /\ exists existing,
       slice_at (Constants c') idx = Some existing
       /\ Equals h existing value = Some true.
Proof.
  unfold AddConstant. intros H.
  destruct (find_constant h (Constants c) value 0) as [[j |] | |] eqn:Hf;
    cbn in H; try discriminate H.
  - injection H as <- <-. split; [reflexivity |].
    destruct (find_constant_found _ _ _ _ _ Hf) as (Hr & x & Hx & Hxe).
    exists x. split; [| exact Hxe].
    unfold slice_at.
    replace ((0 <=? j) && (j <? Z.of_nat (length (Constants c)))) with true
      by (symmetry; apply andb_true_iff; split; [apply Z.leb_le | apply Z.ltb_lt]; lia).
    rewrite Z.sub_0_r in Hx. exact Hx.
  - injection H as <- <-. cbn [Constants]. split; [apply prefix_app_r; reflexivity |].
    exists value. split; [| apply Equals_refl].
    unfold slice_at. rewrite length_app. cbn [length].
    replace ((0 <=? Z.of_nat (length (Constants c) + 1) - 1)
             && (Z.of_nat (length (Constants c) + 1) - 1
                 <? Z.of_nat (length (Constants c) + 1))) with true
      by (symmetry; apply andb_true_iff; split; [apply Z.leb_le | apply Z.ltb_lt]; lia).
    replace (Z.to_nat (Z.of_nat (length (Constants c) + 1) - 1))
      with (length (Constants c) + 0)%nat by lia.
    rewrite lookup_app_r by lia.
    replace (length (Constants c) + 0 - length (Constants c))%nat with 0%nat by lia.
    reflexivity.
Qed.

Lemma find_constant_not_found (h : Heap) (value : Value) (cs : list Value) :
  forall i,
    find_constant h cs value i = Ok None ->
    forall k existing, cs !! k = Some existing -> Equals h existing value = Some false.
Proof.
  induction cs as [| e rest IH]; intros i H k x Hk; [discriminate Hk |].
  cbn [find_constant] in H. unfold Equals_res in H.
  destruct (Equals h e value) as [[|] |] eqn:He; cbn in H; try discriminate H.
  destruct k as [| k]; cbn in Hk.
  - injection Hk as <-. exact He.
  - exact (IH _ H k x Hk).
Qed.

(** [Chunk.AddConstant] keeps the pool free of two entries that compare
    equal. *)
Lemma AddConstant_keeps_pool_distinct (h : Heap) (c c' : Chunk) (value : Value) (idx : Z) :
  pool_distinct h (Constants c) ->
  AddConstant h c value = Ok (c', idx) ->
  pool_distinct h (Constants c').
Proof.
  unfold AddConstant. intros Hd H.
  destruct (find_constant h (Constants c) value 0) as [[j |] | |] eqn:Hf;
    cbn in H; try discriminate H.
  - injection H as <- <-. exact Hd.
  - injection H as <- <-. cbn [Constants].
    intros i j a b Hij Ha Hb.
    destruct (decide (j < length (Constants c))%nat) as [Hj | Hj].
    + rewrite lookup_app_l in Ha by lia. rewrite lookup_app_l in Hb by lia.
      exact (Hd i j a b Hij Ha Hb).
    + assert (Hlen : (j < length (Constants c ++ [value]))%nat)
        by (apply lookup_lt_is_Some; eexists; exact Hb).
      rewrite length_app in Hlen. cbn [length] in Hlen.
      rewrite lookup_app_r in Hb by lia.
      replace (j - length (Constants c))%nat with 0%nat in Hb by lia.
      injection Hb as <-.
      rewrite lookup_app_l in Ha by lia.
      rewrite (find_constant_not_found _ _ _ _ Hf i a Ha). discriminate.
Qed.

(** C2, at the failing input.  After the integer [40000] has been pooled,
    adding the string ["40000"] returns the index of the integer: the
    compiler's cache is keyed by the printed form, which the two values share.
    The entry at the returned index is not equal to the string under value
    equality, the two unequal values share one pool index, and the program
    [40000] followed by ["40000"] evaluates to the integer. *)
Theorem addConstant_confuses_integer_and_string :
  addConstant (New []) (NewInt 40000) = Ok after_int
  /\ internString (fst after_int) "40000" = after_intern
  /\ addConstant (fst after_intern) (NewString (snd after_intern))
     = Ok after_string
  /\ snd after_string = snd after_int
  /\ slice_at (Constants (c_chunk (fst after_string))) (snd after_string)
     = Some (NewInt 40000)
  /\ Equals (c_heap (fst after_string)) (NewInt 40000)
            (NewString (snd after_intern)) = Some false
  /\ Value_String (c_heap (fst after_string)) (NewInt 40000)
     = Value_String (c_heap (fst after_string)) (NewString (snd after_intern))
  /\ exists vm,
       compileAndRun 4 int_then_string_program
       = Ok (Finished (NewInt 40000) None vm).
Proof.
  split; [vm_compute; reflexivity |].
  split; [vm_compute; reflexivity |].
  split; [vm_compute; reflexivity |].
  split; [vm_compute; reflexivity |].
  split; [vm_compute; reflexivity |].
  split; [vm_compute; reflexivity |].
  split; [vm_compute; reflexivity |].
  eexists. vm_compute. reflexivity.
Qed.

(* ===================================================================== *)
(** ** Operand stack overflow (C5) *)
(* ===================================================================== *)

(** How the helpers of the dispatch loop move the instruction pointer and the
    top of the stack. *)
Lemma readByte_ip (vm : VM) (b : Z) (vm1 : VM) :
  readByte vm = Ok (b, vm1) -> ip vm1 = ip vm + 1 /\ stackTop vm1 = stackTop vm.
Proof.
  unfold readByte. destruct slice_at; [| discriminate].
  intros [= <- <-]. split; reflexivity.
Qed.

Lemma readShort_ip (vm : VM) (b : Z) (vm1 : VM) :
  readShort vm = Ok (b, vm1) -> ip vm1 = ip vm + 2 /\ stackTop vm1 = stackTop vm.
Proof.
  unfold readShort. do 2 (destruct slice_at; [| discriminate]).
  intros [= <- <-]. split; reflexivity.
Qed.

Lemma stack_put_ip (vm : VM) (i : Z) (v : Value) (vm1 : VM) :
  stack_put vm i v = Ok vm1 -> ip vm1 = ip vm /\ stackTop vm1 = stackTop vm.
Proof.
  unfold stack_put. destruct andb; [| discriminate].
  intros [= <-]. split; reflexivity.
Qed.

Lemma push_continue_ip (vm : VM) (v : Value) (o : Outcome) :
  push_continue vm v = Ok o ->
  exists vm1, o = Continue vm1 /\ ip vm1 = ip vm /\ stackTop vm1 = stackTop vm + 1.
Proof.
  unfold push_continue. intros H. inv_bind H. apply stack_put_ip in E as [Hi Ht].
  injection H as <-. eexists; split; [reflexivity |]. cbn. rewrite Hi, Ht. auto.
Qed.

Lemma pop2_ip (vm : VM) (a b : Value) (vm1 : VM) :
  pop2 vm = Ok (a, b, vm1) -> ip vm1 = ip vm /\ stackTop vm1 = stackTop vm - 2.
Proof.
  unfold pop2. intros H. inv_bind H. inv_bind H.
  injection H as <- <- <-. split; reflexivity.
Qed.

Lemma yarn_args_ip (n : nat) :
  forall vm argc i vm1, yarn_args vm argc i n = Ok vm1 ->
                        ip vm1 = ip vm /\ stackTop vm1 = stackTop vm.
Proof.
  induction n as [| n IH]; intros vm argc i vm1 H; cbn [yarn_args] in H.
  - injection H as <-. auto.
  - inv_bind H. inv_bind H. apply IH in H. cbn in H. exact H.
Qed.

Ltac ip_case H :=
  repeat first
    [ discriminate H
    | inv_bind H
    | match type of H with
      | match ?x with _ => _ end = _ => destruct x eqn:?
      end ];
  repeat match goal with
    | E : readByte _ = Ok _ |- _ => apply readByte_ip in E
    | E : readShort _ = Ok _ |- _ => apply readShort_ip in E
    | E : stack_put _ _ _ = Ok _ |- _ => apply stack_put_ip in E
    | E : pop2 _ = Ok _ |- _ => apply pop2_ip in E
    | E : yarn_args _ _ _ _ = Ok _ |- _ => apply yarn_args_ip in E
    | E : push_continue _ _ = Ok _ |- _ =>
        let vm1 := fresh "vm" in
        let Hk := fresh "Hk" in
        apply push_continue_ip in E as (vm1 & E & Hk);
        try (injection E as <-)
    end.

(** The common tail of the pushing instructions only succeeds below the
    capacity of the stack. *)
Lemma push_continue_top (vm : VM) (v : Value) (o : Outcome) :
  push_continue vm v = Ok o -> stackTop vm < STACK_MAX.
Proof.
  unfold push_continue, stack_put.
  destruct (Z.ltb_spec (stackTop vm) STACK_MAX) as [Hlt | Hge]; [intros _; exact Hlt |].
  rewrite andb_false_r. discriminate.
Qed.

Ltac top_case H :=
  repeat first
    [ discriminate H
    | inv_bind H
    | match type of H with
      | match ?x with _ => _ end = _ => destruct x eqn:?
      end ];
  repeat match goal with
    | E : readByte _ = Ok _ |- _ => apply readByte_ip in E
    | E : readShort _ = Ok _ |- _ => apply readShort_ip in E
    | E : stack_put _ _ _ = Ok _ |- _ => apply stack_put_ip in E
    | E : pop2 _ = Ok _ |- _ => apply pop2_ip in E
    | E : yarn_args _ _ _ _ = Ok _ |- _ => apply yarn_args_ip in E
    | E : push_continue _ _ = Ok _ |- _ =>
        let vm1 := fresh "vm" in
        let Hk := fresh "Hk" in
        let Ht := fresh "Ht" in
        pose proof (push_continue_top _ _ _ E) as Ht;
        apply push_continue_ip in E as (vm1 & E & Hk);
        try (injection E as <-)
    end.

(** Reading the code or the stack fails in one way only: the bounds check
    of the slice or of the array. *)
Lemma readByte_fails (s : VM) :
  (forall e, readByte s <> Err e)
  /\ (forall m, readByte s = Panicked m -> m = index_out_of_range).
Proof.
  unfold readByte. destruct slice_at; split; intros x E; congruence.
Qed.

Lemma readShort_fails (s : VM) :
  (forall e, readShort s <> Err e)
  /\ (forall m, readShort s = Panicked m -> m = index_out_of_range).
Proof.
  unfold readShort.
  repeat match goal with
         | |- context [match slice_at ?l ?i with _ => _ end] => destruct (slice_at l i)
         end; split; intros x E; congruence.
Qed.

Lemma stack_get_fails (s : VM) (i : Z) :
  (forall e, stack_get s i <> Err e)
  /\ (forall m, stack_get s i = Panicked m -> m = index_out_of_range).
Proof.
  unfold stack_get. destruct (_ && _); split; intros x E; congruence.
Qed.

(** On a full stack no instruction completes with a deeper stack: the ones
    that produce a value after taking their operands off store it in a cell
    that was in use, and the others panic. *)
Lemma full_stack_not_deeper (s s' : VM) :
  STACK_MAX <= stackTop s -> step s = Ok (Continue s') -> stackTop s' <= stackTop s.
Proof.
  intros Hfull H. unfold step in H. inv_bind H. destruct a as [instruction vm0].
  apply readByte_ip in E as [_ Htop0].
  destruct (Opcode_of_byte instruction) as [op |]; [| discriminate H].
  destruct op.
  all: top_case H.
  all: try (injection H as <-).
  all: try discriminate.
  all: unfold fail in *; try discriminate.
  all: cbn in *.
  all: repeat match goal with H : _ /\ _ |- _ => destruct H end; try lia.
Qed.

(** What reaches a panic after [n] instructions panics under every larger
    fuel, and never returns. *)
Lemma Run_panics_after (vm0 vm : VM) (ch : Chunk) (n : nat) (msg : string) :
  Run n vm0 ch = Ok (Continue vm) ->
  step vm = Panicked msg ->
  (forall fuel, (n < fuel)%nat -> Run fuel vm0 ch = Panicked msg)
  /\ (forall fuel result err vm', Run fuel vm0 ch <> Ok (Finished result err vm')).
Proof.
  unfold Run. cbv zeta. intros Hrun Hstep.
  match type of Hrun with
  | execute n ?st = _ => set (start := st) in *
  end.
  assert (Hp : execute (n + 1) start = Panicked msg).
  { rewrite execute_add, Hrun. cbn [execute]. rewrite Hstep. reflexivity. }
  split.
  - intros fuel Hlt. replace fuel with (n + 1 + (fuel - n - 1))%nat by lia.
    apply execute_panicked_stable. exact Hp.
  - apply (execute_panicked_never_returns _ _ _ Hp).
Qed.

Lemma stack_put_out_of_range (vm : VM) (i : Z) (v : Value) :
  STACK_MAX <= i -> stack_put vm i v = Panicked index_out_of_range.
Proof.
  intros Hi. unfold stack_put.
  destruct (Z.ltb_spec i STACK_MAX); [lia |].
  rewrite andb_false_r. reflexivity.
Qed.

(** C5, as the code has it.  When the operand stack is full (65536 entries),
    an instruction that pushes (a load of a literal or of a constant,
    [OP_DUP], a read of a global that is set, [OP_YARN] without arguments)
    does not return a runtime error record: the store into the fixed array
    fails its bounds check and the dispatch loop panics, so that [Run],
    having reached this state, panics under every larger fuel and never
    returns an error record; the [push] helper panics as well, with "Stack
    overflow".  No other instruction completes with a deeper stack when the
    stack is full.  No instruction of the dispatch loop changes the frame
    count, so the frame stack never grows. *)
Theorem operand_stack_overflow_panics (vm : VM) (op : Opcode) (v : Value) :
  STACK_MAX <= stackTop vm ->
  slice_at (Code (chunk vm)) (ip vm) = Some (Opcode_byte op) ->
  pushes_on_top vm op = true ->
  step vm = Panicked index_out_of_range
  /\ (forall vm0 ch n,
        Run n vm0 ch = Ok (Continue vm) ->
        (forall fuel, (n < fuel)%nat ->
                      Run fuel vm0 ch = Panicked index_out_of_range)
        /\ (forall fuel result err vm',
              Run fuel vm0 ch <> Ok (Finished result err vm')))
  /\ push vm v = Panicked "Stack overflow"
  /\ (forall s s', STACK_MAX <= stackTop s -> step s = Ok (Continue s') ->
                   stackTop s' <= stackTop s)
  /\ (forall vm0 vm', step vm0 = Ok (Continue vm') ->
                      frameCount vm' = frameCount vm0).
Proof.
  intros Hfull Hop Hpush.
  assert (Hstep : step vm = Panicked index_out_of_range).
  { unfold step. rewrite (readByte_at _ _ Hop). cbn [bind].
    rewrite Opcode_of_byte_byte.
    assert (Hput : forall s w, stackTop s = stackTop vm ->
                               push_continue s w = Panicked index_out_of_range).
    { intros s w Hs. unfold push_continue.
      rewrite stack_put_out_of_range by (rewrite Hs; exact Hfull). reflexivity. }
    assert (Hfail : forall (A : Type) (r : Res A) (k : A -> Res Outcome),
               (forall a, r = Ok a -> k a = Panicked index_out_of_range) ->
               (forall e, r <> Err e) ->
               (forall m, r = Panicked m -> m = index_out_of_range) ->
               bind r k = Panicked index_out_of_range).
    { intros A r k Hok Herr Hpan. destruct r as [a | e | m]; cbn [bind].
      - apply Hok. reflexivity.
      - destruct (Herr e). reflexivity.
      - rewrite (Hpan m); reflexivity. }
    destruct op; try discriminate Hpush; cbn [pushes_on_top] in Hpush;
      try (apply Hput; reflexivity).
    - (* OP_CONSTANT *)
      apply Hfail; [| apply readShort_fails ..].
      intros [w vm1] E. apply readShort_ip in E as [_ Ht].
      destruct (slice_at (Constants (chunk vm1)) w); [| reflexivity].
      apply Hput. exact Ht.
    - (* OP_CONST_I8 *)
      apply Hfail; [| apply readByte_fails ..].
      intros [b vm1] E. apply readByte_ip in E as [_ Ht]. apply Hput. exact Ht.
    - (* OP_CONST_I16 *)
      apply Hfail; [| apply readShort_fails ..].
      intros [w vm1] E. apply readShort_ip in E as [_ Ht]. apply Hput. exact Ht.
    - (* OP_GET_GLOBAL *)
      destruct (readShort (set_ip vm (ip vm + 1))) as [[idx vm1] | |] eqn:E;
        [| discriminate Hpush ..].
      cbn [bind].
      destruct (constant_name vm1 idx) as [name | |]; [| discriminate Hpush ..].
      cbn [bind].
      destruct (globals vm1 !! name); [| discriminate Hpush].
      apply readShort_ip in E as [_ Ht]. apply Hput. exact Ht.
    - (* OP_YARN *)
      destruct (slice_at (Code (chunk vm)) (ip vm + 1)) as [argCount |] eqn:E;
        [| discriminate Hpush].
      apply Z.eqb_eq in Hpush. subst argCount.
      rewrite (readByte_at (set_ip vm (ip vm + 1)) 0) by exact E.
      cbn [bind Z.to_nat yarn_args]. apply Hput. cbn. lia.
    - (* OP_DUP *)
      apply Hfail; [| apply stack_get_fails ..].
      intros w _. apply Hput. reflexivity. }
  split; [exact Hstep |].
  split; [intros vm0 ch n Hrun; apply (Run_panics_after _ _ _ _ _ Hrun Hstep) |].
  split.
  { unfold push. destruct (Z.leb_spec STACK_MAX (stackTop vm)); [reflexivity | lia]. }
  split; [apply full_stack_not_deeper |].
  intros vm0 vm' H. apply (step_keeps vm0 vm' H).
Qed.

Lemma operand_stack_overflow_panics_witness :
  step full_stack_vm = Panicked index_out_of_range
  /\ push full_stack_vm NewNothing = Panicked "Stack overflow".
Proof.
  destruct (operand_stack_overflow_panics full_stack_vm OP_CONST_0 NewNothing)
    as (Hstep & _ & Hpush & _).
  - vm_compute. discriminate.
  - reflexivity.
  - reflexivity.
  - split; assumption.
Defined.

Lemma leaking_loop_panics :
  execute (Z.to_nat 262145) leaking_loop_start = Panicked index_out_of_range.
Proof. vm_compute. reflexivity. Qed.

Lemma Run_leaking_loop (fuel : nat) :
  Run fuel (NewVM []) leaking_loop_chunk = execute fuel leaking_loop_start.
Proof. reflexivity. Qed.

(** C5, counterexample to the claim as stated: [while tru { 1 }] is accepted
    by the compiler, each iteration leaves one more value on the operand
    stack, and the push that would exceed 65536 entries panics; [Run] never
    returns an error record for this program. *)
Lemma stack_overflow_is_not_a_runtime_error :
  Compile (New []) leaking_loop_program = Ok (leaking_loop_chunk, [])
  /\ Run (Z.to_nat 262145) (NewVM []) leaking_loop_chunk
     = Panicked index_out_of_range
  /\ forall fuel v e vm,
       Run fuel (NewVM []) leaking_loop_chunk <> Ok (Finished v e vm).
Proof.
  split; [vm_compute; reflexivity |].
  split.
  - rewrite Run_leaking_loop. exact leaking_loop_panics.
  - intros fuel. rewrite Run_leaking_loop.
    exact (execute_panicked_never_returns _ _ _ leaking_loop_panics fuel).
Qed.

(* ===================================================================== *)
(** ** The exit jump of a long loop (C6) *)
(* ===================================================================== *)

Lemma compileBlock_unfold (c : Compiler) (t : Token) (stmts : list Statement) :
  compileBlock c (Block t stmts) = compileStatements c stmts.
Proof. reflexivity. Qed.

Lemma append_code_nil (c : Compiler) : append_code c [] = c.
Proof.
  destruct c as [[code cs lines strs] st d k h].
  unfold append_code, with_chunk. cbn. rewrite !app_nil_r. reflexivity.
Qed.

Lemma append_code_app (c : Compiler) (a b : list Z) :
  append_code (append_code c a) b = append_code c (a ++ b).
Proof.
  unfold append_code, with_chunk. cbn.
  rewrite length_app, repeat_app, !app_assoc. reflexivity.
Qed.

Lemma emit_append (c : Compiler) (op : Opcode) :
  emit c op = append_code c [Opcode_byte op].
Proof. reflexivity. Qed.

Lemma emitShort_append (c : Compiler) (op : Opcode) (w : Z) :
  emitShort c op w
  = append_code c [Opcode_byte op; to_byte (Z.shiftr w 8); to_byte (Z.land w 0xFF)].
Proof.
  unfold emitShort, emit, append_code, with_chunk, WriteOpcode, WriteByte. cbn.
  rewrite <- !app_assoc. reflexivity.
Qed.

Lemma compile_long_statement (c : Compiler) :
  compileStatement c long_statement
  = Ok (append_code c [Opcode_byte OP_CONST_I16; 3; 232; Opcode_byte OP_POP]).
Proof.
  cbn [compileStatement long_statement compileExpression].
  change (compileIntegerLiteral c 1000)
    with (Ok (emitShort c OP_CONST_I16 (to_uint16 (to_int16 1000)))).
  cbn [bind]. rewrite emit_append, emitShort_append, append_code_app.
  reflexivity.
Qed.

Lemma compileStatements_cons (c : Compiler) (s s' : Statement)
      (rest : list Statement) :
  compileStatements c (s :: s' :: rest)
  = let* c := compileStatement c s in compileStatements c (s' :: rest).
Proof. destruct s; reflexivity. Qed.

Lemma compile_long_body (n : nat) :
  forall c,
    compileStatements c (repeat long_statement (S n))
    = Ok (append_code c (long_body_code n)).
Proof.
  induction n as [| n IH]; intros c.
  - cbn [repeat compileStatements long_statement compileExpression].
    change (compileIntegerLiteral c 1000)
      with (Ok (emitShort c OP_CONST_I16 (to_uint16 (to_int16 1000)))).
    cbn [bind]. rewrite emitShort_append. reflexivity.
  - change (repeat long_statement (S (S n)))
      with (long_statement :: long_statement :: repeat long_statement n).
    rewrite compileStatements_cons, compile_long_statement. cbn [bind].
    change (long_statement :: repeat long_statement n)
      with (repeat long_statement (S n)).
    rewrite IH, append_code_app. reflexivity.
Qed.

Lemma length_long_body_code (n : nat) :
  Z.of_nat (length (long_body_code n)) = 4 * Z.of_nat n + 3.
Proof.
  unfold long_body_code. rewrite length_app.
  induction n as [| n IH]; [reflexivity |].
  cbn [repeat concat]. rewrite length_app. cbn [length] in *. lia.
Qed.

Lemma slice_set_ok {A} (l : list A) (i : Z) (x : A) :
  0 <= i < Z.of_nat (length l) -> slice_set l i x = Some (<[Z.to_nat i := x]> l).
Proof.
  intros Hi. unfold slice_set.
  destruct (Z.leb_spec 0 i), (Z.ltb_spec i (Z.of_nat (length l))); try lia.
  reflexivity.
Qed.

Lemma Count_append_code (c : Compiler) (b : list Z) :
  Count (c_chunk (append_code c b)) = Count (c_chunk c) + Z.of_nat (length b).
Proof. unfold Count, append_code. cbn [c_chunk with_chunk Code]. rewrite length_app. lia. Qed.

Lemma writeByte_append (c : Compiler) (b : Z) :
  with_chunk c (WriteByte (c_chunk c) b 0) = append_code c [b].
Proof. reflexivity. Qed.

Lemma compile_long_loop (n : nat) :
  4 * Z.of_nat n + 10 <= 65535 ->
  exists c',
    compileExpression (New []) (long_loop n) = Ok c'
    /\ Code (c_chunk c') = long_code n
    /\ Lines (c_chunk c') = repeat 0 (length (long_code n))
    /\ Constants (c_chunk c') = []
    /\ strings (c_chunk c') = ∅
    /\ c_heap c' = [].
Proof.
  intros Hn. unfold long_loop.
  cbn [compileExpression compileBooleanLiteral bind].
  unfold emitJump. cbn [fst snd].
  rewrite compileBlock_unfold.
  set (c2 := with_chunk _ _).
  assert (Hc2 : c2 = append_code (New []) [Opcode_byte OP_LIE; Opcode_byte OP_JUMP_IF_LIE; 255; 255])
    by reflexivity.
  rewrite compile_long_body. cbn [bind].
  rewrite Hc2, append_code_app.
  set (B := [Opcode_byte OP_LIE; Opcode_byte OP_JUMP_IF_LIE; 255; 255] ++ long_body_code n).
  assert (HB : Z.of_nat (length B) = 4 * Z.of_nat n + 7).
  { unfold B. rewrite length_app, Nat2Z.inj_add, length_long_body_code.
    change (Z.of_nat (length [Opcode_byte OP_LIE; Opcode_byte OP_JUMP_IF_LIE; 255; 255])) with 4. lia. }
  unfold emitLoop. rewrite emit_append, append_code_app.
  rewrite Count_append_code, length_app, Nat2Z.inj_add, HB.
  change (Count (c_chunk (New []))) with 0.
  change (Z.of_nat (length [Opcode_byte OP_LOOP])) with 1.
  replace (0 + (4 * Z.of_nat n + 7 + 1) - 0 + 2) with (4 * Z.of_nat n + 10) by lia.
  destruct (Z.ltb_spec 65535 (4 * Z.of_nat n + 10)) as [Hbad | _]; [lia |].
  cbn [bind].
  rewrite !writeByte_append, !append_code_app.
  change (Count _ - 2) with 2.
  unfold patchJump.
  rewrite Count_append_code, !length_app, !Nat2Z.inj_add, HB.
  change (Count (c_chunk (New []))) with 0.
  match goal with
  | |- context [65535 <? ?j] => replace j with (4 * Z.of_nat n + 6) by (cbn [length]; lia)
  end.
  destruct (Z.ltb_spec 65535 (4 * Z.of_nat n + 6)) as [Hbad | _]; [lia |].
  set (code := Code (c_chunk (append_code (New []) _))).
  assert (Hcode : code = Opcode_byte OP_LIE :: Opcode_byte OP_JUMP_IF_LIE :: 255 :: 255
                    :: long_body_code n ++ [Opcode_byte OP_LOOP;
        to_byte (Z.shiftr (4 * Z.of_nat n + 10) 8);
        to_byte (Z.land (4 * Z.of_nat n + 10) 0xFF)]).
  { unfold code, B. cbn [append_code with_chunk c_chunk Code New NewChunk].
    rewrite <- !app_assoc. reflexivity. }
  rewrite Hcode.
  rewrite slice_set_ok by (cbn [length]; lia).
  change (Z.to_nat 2) with 2%nat. cbn [list_insert insert].
  rewrite slice_set_ok by (cbn [length]; lia).
  change (Z.to_nat (2 + 1)) with 3%nat. cbn [list_insert insert bind].
  eexists. split; [reflexivity |].
  split.
  { cbn [emit with_chunk c_chunk WriteOpcode WriteByte set_code Code].
    unfold long_code. cbn [app]. rewrite <- !app_assoc. reflexivity. }
  split.
  { cbn [emit with_chunk c_chunk WriteOpcode WriteByte set_code Lines append_code New NewChunk].
    unfold long_code. rewrite !length_app, !repeat_app. unfold B.
    rewrite !length_app, !repeat_app. cbn [length repeat app].
    rewrite <- !app_assoc. reflexivity. }
  repeat split; reflexivity.
Qed.

Lemma Compile_long_loop_program :
  Compile (New []) long_loop_program = Ok (long_loop_chunk, []).
Proof.
  unfold Compile, long_loop_program.
  cbn [Statements compileProgram compileStatementWithContext].
  destruct (compile_long_loop (Z.to_nat 8191)) as (c' & Hc & Hcode & Hlines & Hconst & Hstr & Hheap);
    [rewrite Z2Nat.id; lia |].
  change (WhileExpression (tok "dey" 1) (Boolean (tok "lie" 1) false)
            (Block (tok "{" 1) long_body))
    with (long_loop (Z.to_nat 8191)).
  rewrite Hc. cbn [bind].
  f_equal. f_equal; [| exact Hheap].
  unfold emit, with_chunk, WriteOpcode, WriteByte. cbn [c_chunk].
  rewrite Hcode, Hlines, Hconst, Hstr.
  assert (Hbytes : long_code (Z.to_nat 8191) ++ [Opcode_byte OP_HALT]
                   = long_loop_code).
  { unfold long_code, long_loop_code. rewrite Z2Nat.id by lia.
    cbn [app]. rewrite <- !app_assoc. reflexivity. }
  change [0] with (repeat 0 (length [Opcode_byte OP_HALT])).
  rewrite <- repeat_app, <- length_app, Hbytes. reflexivity.
Qed.

(** C6, at the failing input.  The loop [while lie { ... }] whose body is 8192
    statements long is accepted by the compiler: [patchJump] admits its exit
    distance, 32770, because it only rejects distances above 65535.  The
    dispatch loop reads the operand of [OP_JUMP_IF_LIE] as a signed 16-bit
    number, here -32766.  The condition is falsey on its first evaluation, so
    the body must run zero times and the loop must leave [nothing] on the
    stack; instead the exit jump moves the instruction pointer before the
    start of the code and the run panics, without ever returning. *)
Theorem long_loop_exit_jump_goes_backwards :
  Compile (New []) long_loop_program = Ok (long_loop_chunk, [])
  /\ slice_at (Code long_loop_chunk) 1 = Some (Opcode_byte OP_JUMP_IF_LIE)
  /\ slice_at (Code long_loop_chunk) 2 = Some 128
  /\ slice_at (Code long_loop_chunk) 3 = Some 2
  /\ short_of_bytes 128 2 = 32770
  /\ to_int16 32770 = -32766
  /\ ip_after 1 long_loop_start = Some 1
  /\ ip_after 2 long_loop_start = Some (-32762)
  /\ Run 3 (NewVM []) long_loop_chunk = Panicked index_out_of_range
  /\ forall fuel v e vm,
       Run fuel (NewVM []) long_loop_chunk <> Ok (Finished v e vm).
Proof.
  assert (Hpanic : execute 3 long_loop_start = Panicked index_out_of_range)
    by (vm_compute; reflexivity).
  assert (Hrun : forall fuel,
            Run fuel (NewVM []) long_loop_chunk = execute fuel long_loop_start)
    by reflexivity.
  split; [exact Compile_long_loop_program |].
  split; [vm_compute; reflexivity |].
  split; [vm_compute; reflexivity |].
  split; [vm_compute; reflexivity |].
  split; [vm_compute; reflexivity |].
  split; [vm_compute; reflexivity |].
  split; [vm_compute; reflexivity |].
  split; [vm_compute; reflexivity |].
  split; [rewrite Hrun; exact Hpanic |].
  intros fuel. rewrite Hrun.
  exact (execute_panicked_never_returns _ _ _ Hpanic fuel).
Qed.

(* ===================================================================== *)
(** ** The code emitted so far is only extended *)
(* ===================================================================== *)

Lemma extends_refl c : extends c c.
Proof. unfold extends. reflexivity. Qed.

Lemma extends_trans a b c : extends a b -> extends b c -> extends a c.
Proof. unfold extends. intros H1 H2. etransitivity; eassumption. Qed.

Lemma extends_length a b : extends a b -> (length (code_of a) <= length (code_of b))%nat.
Proof. apply prefix_length. Qed.

Lemma extends_append c bytes : extends c (append_code c bytes).
Proof. unfold extends, code_of. cbn. apply prefix_app_r. reflexivity. Qed.

Lemma extends_emit c op : extends c (emit c op).
Proof. rewrite emit_append. apply extends_append. Qed.

Lemma emitByte_append c op b : emitByte c op b = append_code c [Opcode_byte op; b].
Proof.
  unfold emitByte. rewrite emit_append, writeByte_append, append_code_app. reflexivity.
Qed.

Lemma emitBytes_append c op bs : emitBytes c op bs = append_code c (Opcode_byte op :: bs).
Proof.
  unfold emitBytes. rewrite emit_append.
  change (Opcode_byte op :: bs) with ([Opcode_byte op] ++ bs).
  generalize [Opcode_byte op] as pre.
  induction bs as [| b bs IH]; intros pre; cbn [fold_left].
  - rewrite app_nil_r. reflexivity.
  - rewrite writeByte_append, append_code_app, IH, <- app_assoc. reflexivity.
Qed.

Lemma emitJump_spec c op c' j :
  emitJump c op = (c', j) ->
  c' = append_code c [Opcode_byte op; 255; 255]
  /\ j = Z.of_nat (length (code_of c)) + 1.
Proof.
  unfold emitJump. cbv zeta.
  rewrite emit_append, !writeByte_append, !append_code_app.
  intros [= <- <-]. split; [reflexivity |].
  unfold Count, code_of. cbn [Code]. rewrite length_app. cbn [length]. lia.
Qed.

Lemma code_of_append c bytes : code_of (append_code c bytes) = code_of c ++ bytes.
Proof. reflexivity. Qed.

Lemma slice_set_Some {A} (l l' : list A) (i : Z) (x : A) :
  slice_set l i x = Some l' ->
  0 <= i < Z.of_nat (length l) /\ l' = <[Z.to_nat i := x]> l.
Proof.
  unfold slice_set.
  destruct (Z.leb_spec 0 i), (Z.ltb_spec i (Z.of_nat (length l)));
    cbn [andb]; intros [= <-]; split; (lia || reflexivity).
Qed.

Lemma patchJump_spec c off c' :
  patchJump c off = Ok c' ->
  exists jump,
    jump = Z.of_nat (length (code_of c)) - off - 2
    /\ jump <= 65535
    /\ 0 <= off /\ off + 1 < Z.of_nat (length (code_of c))
    /\ code_of c'
       = <[Z.to_nat (off + 1) := to_byte (Z.land jump 0xFF)]>
           (<[Z.to_nat off := to_byte (Z.shiftr jump 8)]> (code_of c)).
Proof.
  unfold patchJump, Count. fold (code_of c). intros H.
  exists (Z.of_nat (length (code_of c)) - off - 2).
  destruct (Z.ltb_spec 65535 (Z.of_nat (length (code_of c)) - off - 2)) as [| Hj];
    [discriminate |].
  destruct (slice_set (code_of c) off _) as [code1 |] eqn:H1; [| discriminate].
  destruct (slice_set code1 (off + 1) _) as [code2 |] eqn:H2; [| discriminate].
  injection H as <-.
  apply slice_set_Some in H1 as [Hr1 ->].
  apply slice_set_Some in H2 as [Hr2 ->].
  rewrite length_insert in Hr2.
  repeat split; try lia.
Qed.

Lemma prefix_insert_after {A} (l k : list A) (i : nat) (x : A) :
  l `prefix_of` k -> (length l <= i)%nat -> l `prefix_of` <[i := x]> k.
Proof.
  intros [ext ->] Hi.
  rewrite insert_app_r_alt by exact Hi. apply prefix_app_r. reflexivity.
Qed.

Lemma extends_patchJump c0 c off c' :
  extends c0 c -> Z.of_nat (length (code_of c0)) <= off ->
  patchJump c off = Ok c' -> extends c0 c'.
Proof.
  intros Hext Hoff Hp. apply patchJump_spec in Hp as (jump & _ & _ & H0 & _ & Hcode).
  unfold extends. rewrite Hcode.
  apply prefix_insert_after; [apply prefix_insert_after; [exact Hext |] |]; lia.
Qed.

Lemma emitLoop_spec c ls c' :
  emitLoop c ls = Ok c' ->
  exists offset,
    offset = Z.of_nat (length (code_of c)) + 1 - ls + 2
    /\ offset <= 65535
    /\ c' = append_code c [Opcode_byte OP_LOOP; to_byte (Z.shiftr offset 8);
                           to_byte (Z.land offset 0xFF)].
Proof.
  unfold emitLoop. cbv zeta. rewrite emit_append, Count_append_code.
  unfold Count. fold (code_of c). cbn [length]. intros H.
  change (Z.of_nat 1) with 1 in H.
  exists (Z.of_nat (length (code_of c)) + 1 - ls + 2).
  destruct (Z.ltb_spec 65535 (Z.of_nat (length (code_of c)) + 1 - ls + 2));
    [discriminate |].
  injection H as <-. rewrite !writeByte_append, !append_code_app.
  split; [reflexivity |]. split; [lia | reflexivity].
Qed.

Lemma AddConstant_code h ch v ch' i :
  AddConstant h ch v = Ok (ch', i) -> Code ch' = Code ch /\ Lines ch' = Lines ch.
Proof.
  unfold AddConstant. intros H. inv_bind H.
  destruct a; injection H as <- <-; auto.
Qed.

Lemma addConstant_code c v c' i :
  addConstant c v = Ok (c', i) -> code_of c' = code_of c.
Proof.
  unfold addConstant. intros H. inv_bind H.
  destruct (c_constants c !! a).
  - injection H as <- <-. reflexivity.
  - inv_bind H. destruct a0 as [ch idx]. injection H as <- <-.
    apply AddConstant_code in E0 as [? ?]. assumption.
Qed.

Lemma internString_code c s c' p :
  internString c s = (c', p) -> code_of c' = code_of c.
Proof.
  unfold internString.
  destruct (InternString (c_heap c) (c_chunk c) s) as [[h ch] ptr] eqn:E.
  intros [= <- <-]. apply InternString_chunk in E as (? & _). assumption.
Qed.

Ltac extends_tac :=
  unfold extends;
  rewrite ?emitShort_append, ?emitByte_append, ?emitBytes_append, ?emit_append,
    ?code_of_append;
  repeat match goal with
         | H : code_of ?x = _ |- context [code_of ?x] => progress rewrite H
         end;
  repeat apply prefix_app_r; reflexivity.

Ltac split_ifs H :=
  repeat match type of H with
         | (if ?b then _ else _) = _ => destruct b
         end.

Lemma compileIntegerLiteral_extends c v c' :
  compileIntegerLiteral c v = Ok c' -> extends c c'.
Proof.
  unfold compileIntegerLiteral. intros H. split_ifs H;
    try (injection H as <-; extends_tac).
  inv_bind H. destruct a as [c1 idx]. injection H as <-.
  apply addConstant_code in E. extends_tac.
Qed.

Lemma compileStringLiteral_extends c v c' :
  compileStringLiteral c v = Ok c' -> extends c c'.
Proof.
  unfold compileStringLiteral. intros H.
  destruct (internString c v) as [c1 p] eqn:E1.
  inv_bind H. destruct a as [c2 idx]. injection H as <-.
  apply internString_code in E1. apply addConstant_code in E. extends_tac.
Qed.

Lemma compileBooleanLiteral_extends c v c' :
  compileBooleanLiteral c v = Ok c' -> extends c c'.
Proof.
  unfold compileBooleanLiteral. intros H. destruct v; injection H as <-; extends_tac.
Qed.

Lemma compileIdentifier_extends c v c' :
  compileIdentifier c v = Ok c' -> extends c c'.
Proof.
  unfold compileIdentifier. intros H.
  destruct (Resolve (c_symbolTable c) v) as [symbol ok].
  destruct ok; cbn [negb] in H; [| discriminate].
  destruct (Scope symbol).
  - destruct (internString c v) as [c1 p] eqn:E1.
    inv_bind H. destruct a as [c2 idx]. injection H as <-.
    apply internString_code in E1. apply addConstant_code in E. extends_tac.
  - split_ifs H; injection H as <-; extends_tac.
  - discriminate.
  - inv_bind H. destruct a as [c2 idx]. injection H as <-.
    apply addConstant_code in E. extends_tac.
Qed.

Lemma compileMakeBinding_extends c name c' :
  compileMakeBinding c name = Ok c' -> extends c c'.
Proof.
  unfold compileMakeBinding. intros H.
  destruct (Resolve (c_symbolTable c) name) as [symbol ex].
  destruct (c_scopeDepth c =? 0).
  - match type of H with
    | (let '(_, _) := internString ?c0 _ in _) = _ =>
        assert (Hc0 : code_of c0 = code_of c) by (destruct (negb ex); reflexivity);
        destruct (internString c0 name) as [c1 p] eqn:E1
    end.
    inv_bind H. destruct a as [c2 idx]. injection H as <-.
    apply internString_code in E1. apply addConstant_code in E. extends_tac.
  - match type of H with
    | (let '(_, _) := ?x in _) = _ =>
        destruct x as [c1 sym] eqn:E1;
        assert (Hc1 : code_of c1 = code_of c)
    end.
    { destruct (negb ex).
      - destruct (Define (c_symbolTable c) name). injection E1 as <- <-. reflexivity.
      - injection E1 as <- <-. reflexivity. }
    split_ifs H; injection H as <-; extends_tac.
Qed.

Lemma emitPrefixOperator_extends c op c' :
  emitPrefixOperator c op = Ok c' -> extends c c'.
Proof.
  unfold emitPrefixOperator. intros H.
  split_ifs H; try discriminate; injection H as <-; extends_tac.
Qed.

Lemma emitInfixOperator_extends c op c' :
  emitInfixOperator c op = Ok c' -> extends c c'.
Proof.
  unfold emitInfixOperator. intros H.
  split_ifs H; try discriminate; injection H as <-; extends_tac.
Qed.

Lemma emitCall_extends c n : extends c (emitCall c n).
Proof.
  unfold emitCall.
  repeat match goal with
         | |- context [if ?b then _ else _] => destruct b
         end; extends_tac.
Qed.

Lemma compileExpression_Call c t f args :
  compileExpression c (CallExpression t f args)
  = match builtinCallee c f with
    | Some (name, builtinIdx) =>
        if String.eqb name "yarn" then
          let* c := compileArguments c args in
          Ok (emitByte c OP_YARN (to_byte (Z.of_nat (length args))))
        else
          let* c := compileArguments c args in
          Ok (emitBytes c OP_BUILTIN
                        [to_byte builtinIdx; to_byte (Z.of_nat (length args))])
    | None =>
        let* c := compileArguments c args in
        let* c := compileExpression c f in
        Ok (emitCall c (Z.of_nat (length args)))
    end.
Proof. reflexivity. Qed.

Lemma compileArguments_extends args :
  Forall (fun e => forall c c', compileExpression c e = Ok c' -> extends c c') args ->
  forall c c', compileArguments c args = Ok c' -> extends c c'.
Proof.
  induction 1 as [| e args He _ IH]; intros c c' H; cbn [compileArguments] in H.
  - injection H as <-. apply extends_refl.
  - inv_bind H. eapply extends_trans; [apply (He _ _ E) | apply (IH _ _ H)].
Qed.

Lemma compileStatements_extends stmts :
  Forall (fun s =>
            (forall c c', compileStatement c s = Ok c' -> extends c c')
            /\ match s with
               | ExpressionStatement _ e =>
                   forall c c', compileExpression c e = Ok c' -> extends c c'
               | _ => True
               end) stmts ->
  forall c c', compileStatements c stmts = Ok c' -> extends c c'.
Proof.
  induction 1 as [| s stmts [Hs He] _ IH]; intros c c' H; cbn [compileStatements] in H.
  - injection H as <-. apply extends_refl.
  - inv_bind H. eapply extends_trans; [| apply (IH _ _ H)].
    destruct s; try (apply (Hs _ _ E)).
    destruct stmts; [apply (He _ _ E) | apply (Hs _ _ E)].
Qed.

Lemma extends_offset c0 c :
  extends c0 c -> Z.of_nat (length (code_of c0)) <= Z.of_nat (length (code_of c)) + 1.
Proof. intros H. apply extends_length in H. lia. Qed.

(** Compilation only appends to the code that is already there. *)
Lemma compile_extends :
  (forall e c c', compileExpression c e = Ok c' -> extends c c')
  /\ (forall s,
        (forall c c', compileStatement c s = Ok c' -> extends c c')
        /\ match s with
           | ExpressionStatement _ e =>
               forall c c', compileExpression c e = Ok c' -> extends c c'
           | _ => True
           end)
  /\ (forall b c c', compileBlock c b = Ok c' -> extends c c').
Proof.
  apply AST_mutind.
  - intros t v c c' H. apply (compileIdentifier_extends _ _ _ H).
  - intros t v c c' H. apply (compileIntegerLiteral_extends _ _ _ H).
  - intros t v c c' H. apply (compileStringLiteral_extends _ _ _ H).
  - intros t v c c' H. apply (compileBooleanLiteral_extends _ _ _ H).
  - intros t c c' H. injection H as <-. apply extends_emit.
  - intros t op r IH c c' H. cbn [compileExpression] in H. inv_bind H.
    eapply extends_trans; [apply (IH _ _ E) | apply (emitPrefixOperator_extends _ _ _ H)].
  - intros t l op r IHl IHr c c' H. cbn [compileExpression] in H.
    destruct (String.eqb op "and"); [| destruct (_ || _)].
    + inv_bind H. destruct (emitJump (emit a OP_DUP) OP_JUMP_IF_LIE) as [c2 j] eqn:Hj.
      apply emitJump_spec in Hj as [-> ->]. inv_bind H.
      assert (Hext : extends c a0).
      { eapply extends_trans; [apply (IHl _ _ E) |].
        eapply extends_trans; [| apply (IHr _ _ E0)]. extends_tac. }
      refine (extends_patchJump c a0 _ c' Hext _ H).
      pose proof (extends_length _ _ (IHl _ _ E)).
      rewrite emit_append, code_of_append, length_app. cbn [length]. lia.
    + inv_bind H. destruct (emitJump (emit a OP_DUP) OP_JUMP_IF_TRU) as [c2 j] eqn:Hj.
      apply emitJump_spec in Hj as [-> ->]. inv_bind H.
      assert (Hext : extends c a0).
      { eapply extends_trans; [apply (IHl _ _ E) |].
        eapply extends_trans; [| apply (IHr _ _ E0)]. extends_tac. }
      refine (extends_patchJump c a0 _ c' Hext _ H).
      pose proof (extends_length _ _ (IHl _ _ E)).
      rewrite emit_append, code_of_append, length_app. cbn [length]. lia.
    + inv_bind H. inv_bind H.
      eapply extends_trans; [apply (IHl _ _ E) |].
      eapply extends_trans; [apply (IHr _ _ E0) |].
      apply (emitInfixOperator_extends _ _ _ H).
  - intros t cond cq alt IHc IHq IHa c c' H. cbn [compileExpression] in H.
    inv_bind H. destruct (emitJump a OP_JUMP_IF_LIE) as [c2 j1] eqn:Hj1.
    apply emitJump_spec in Hj1 as [-> ->]. inv_bind H.
    destruct (emitJump a0 OP_JUMP) as [c4 j2] eqn:Hj2.
    apply emitJump_spec in Hj2 as [-> ->]. inv_bind H. inv_bind H.
    pose proof (IHc _ _ E) as H1. pose proof (IHq _ _ E0) as H2.
    assert (H3 : extends c (append_code a0 [Opcode_byte OP_JUMP; 255; 255])).
    { eapply extends_trans; [exact H1 |]. eapply extends_trans; [| eapply extends_trans; [exact H2 |]];
        extends_tac. }
    assert (H4 : extends c a1).
    { refine (extends_patchJump c _ _ a1 H3 _ E1).
      apply extends_length in H1. lia. }
    assert (H5 : extends a1 a2).
    { destruct alt as [alt |]; [apply (IHa _ _ E2) |].
      injection E2 as <-. apply extends_emit. }
    refine (extends_patchJump c a2 _ c' (extends_trans _ _ _ H4 H5) _ H).
    apply extends_length in H1, H2.
    rewrite code_of_append, length_app in H2. lia.
  - intros t cond b IHc IHb c c' H. cbn [compileExpression] in H.
    inv_bind H. destruct (emitJump a OP_JUMP_IF_LIE) as [c2 j1] eqn:Hj1.
    apply emitJump_spec in Hj1 as [-> ->]. inv_bind H. inv_bind H. inv_bind H.
    injection H as <-.
    apply emitLoop_spec in E1 as (offset & _ & _ & ->).
    pose proof (IHc _ _ E) as H1. pose proof (IHb _ _ E0) as H2.
    eapply extends_trans; [| apply extends_emit].
    refine (extends_patchJump c _ _ a2 _ _ E2).
    + eapply extends_trans; [exact H1 |].
      eapply extends_trans; [| eapply extends_trans; [exact H2 |]]; extends_tac.
    + apply extends_length in H1. lia.
  - intros t n ps b _ c c' H. discriminate H.
  - intros t f args IHf IHargs c c' H. rewrite compileExpression_Call in H.
    pose proof (compileArguments_extends args IHargs) as Hargs.
    destruct (builtinCallee c f) as [[name idx] |].
    + destruct (String.eqb name "yarn"); inv_bind H; injection H as <-;
        (eapply extends_trans; [apply (Hargs _ _ E) | extends_tac]).
    + inv_bind H. inv_bind H. injection H as <-.
      eapply extends_trans; [apply (Hargs _ _ E) |].
      eapply extends_trans; [apply (IHf _ _ E0) | apply emitCall_extends].
  - intros t n v IH. split; [| exact I]. intros c c' H.
    cbn [compileStatement] in H. inv_bind H.
    eapply extends_trans; [apply (IH _ _ E) | apply (compileMakeBinding_extends _ _ _ H)].
  - intros t rv IH. split; [| exact I]. intros c c' H.
    cbn [compileStatement] in H. inv_bind H. injection H as <-.
    eapply extends_trans; [| apply extends_emit].
    destruct rv as [e |]; [apply (IH _ _ E) |]. injection E as <-. apply extends_emit.
  - intros t e IH. split; [| exact IH]. intros c c' H.
    cbn [compileStatement] in H. inv_bind H. injection H as <-.
    eapply extends_trans; [apply (IH _ _ E) | apply extends_emit].
  - intros b IH. split; [| exact I]. intros c c' H. apply (IH _ _ H).
  - intros t stmts IH c c' H. rewrite compileBlock_unfold in H.
    apply (compileStatements_extends stmts IH _ _ H).
Qed.

(* ===================================================================== *)
(** ** The layout of a compiled loop *)
(* ===================================================================== *)

Lemma compileExpression_While c t cond body :
  compileExpression c (WhileExpression t cond body)
  = (let loopStart := Count (c_chunk c) in
     let* c := compileExpression c cond in
     let '(c, exitJump) := emitJump c OP_JUMP_IF_LIE in
     let* c := compileBlock c body in
     let* c := emitLoop c loopStart in
     let* c := patchJump c exitJump in
     Ok (emit c OP_NOTHING)).
Proof. reflexivity. Qed.

Lemma prefix_exists {A} (l k : list A) : l `prefix_of` k -> exists ext, k = l ++ ext.
Proof. intros [ext ->]. eauto. Qed.

Lemma insert_middle {A} (pre : list A) (a x : A) (rest : list A) :
  <[length pre := x]> (pre ++ a :: rest) = pre ++ x :: rest.
Proof.
  rewrite insert_app_r_alt by lia. rewrite Nat.sub_diag. reflexivity.
Qed.

Lemma while_layout c t cond body c' :
  compileExpression c (WhileExpression t cond body) = Ok c' ->
  exists c1 c3 condcode bodycode,
    compileExpression c cond = Ok c1
    /\ compileBlock (fst (emitJump c1 OP_JUMP_IF_LIE)) body = Ok c3
    /\ code_of c1 = code_of c ++ condcode
    /\ code_of c3 = code_of c1 ++ [Opcode_byte OP_JUMP_IF_LIE; 255; 255] ++ bodycode
    /\ Z.of_nat (length bodycode) + 3 <= 65535
    /\ Z.of_nat (length condcode) + Z.of_nat (length bodycode) + 6 <= 65535
    /\ code_of c'
       = code_of c ++ condcode
           ++ [Opcode_byte OP_JUMP_IF_LIE;
               to_byte (Z.shiftr (Z.of_nat (length bodycode) + 3) 8);
               to_byte (Z.land (Z.of_nat (length bodycode) + 3) 0xFF)]
           ++ bodycode
           ++ [Opcode_byte OP_LOOP;
               to_byte (Z.shiftr (Z.of_nat (length condcode)
                                  + Z.of_nat (length bodycode) + 6) 8);
               to_byte (Z.land (Z.of_nat (length condcode)
                                + Z.of_nat (length bodycode) + 6) 0xFF);
               Opcode_byte OP_NOTHING].
Proof.
  rewrite compileExpression_While. cbv zeta. intros H.
  inv_bind H. rename a into c1.
  destruct (emitJump c1 OP_JUMP_IF_LIE) as [c2 j] eqn:Hj.
  pose proof Hj as Hj'. apply emitJump_spec in Hj' as [Hc2 ->].
  inv_bind H. rename a into c3. inv_bind H. inv_bind H. injection H as <-.
  destruct compile_extends as (HE & _ & HB).
  destruct (prefix_exists _ _ (HE _ _ _ E)) as [condcode Hcond].
  destruct (prefix_exists _ _ (HB _ _ _ E0)) as [bodycode Hbody].
  rewrite Hc2, code_of_append in Hbody.
  apply emitLoop_spec in E1 as (offset & Hoff & Hoffle & ->).
  apply patchJump_spec in E2 as (jump & Hjump & Hjle & _ & _ & Hcode).
  rewrite code_of_append, Hbody in Hcode, Hjump.
  rewrite Hbody in Hoff.
  unfold Count in Hoff. fold (code_of c) in Hoff.
  rewrite Hcond in Hoff, Hjump.
  rewrite !length_app in Hoff, Hjump. cbn [length] in Hoff, Hjump.
  assert (Hj1 : jump = Z.of_nat (length bodycode) + 3) by lia.
  assert (Ho1 : offset = Z.of_nat (length condcode) + Z.of_nat (length bodycode) + 6) by lia.
  exists c1, c3, condcode, bodycode.
  split; [reflexivity |]. split; [rewrite Hj; exact E0 |].
  split; [exact Hcond |]. split; [rewrite Hbody, <- app_assoc; reflexivity |].
  split; [lia |]. split; [lia |].
  rewrite emit_append, code_of_append, Hcode, <- Hj1, <- Ho1.
  replace (Z.to_nat (Z.of_nat (length (code_of c1)) + 1))
    with (length (code_of c1 ++ [Opcode_byte OP_JUMP_IF_LIE])) by (rewrite length_app; cbn [length]; lia).
  replace (Z.to_nat (Z.of_nat (length (code_of c1)) + 1 + 1))
    with (length (code_of c1 ++ [Opcode_byte OP_JUMP_IF_LIE; to_byte (Z.shiftr jump 8)]))
    by (rewrite length_app; cbn [length]; lia).
  replace (((code_of c1 ++ [Opcode_byte OP_JUMP_IF_LIE; 255; 255]) ++ bodycode) ++
           [Opcode_byte OP_LOOP; to_byte (Z.shiftr offset 8); to_byte (Z.land offset 255)])
    with ((code_of c1 ++ [Opcode_byte OP_JUMP_IF_LIE]) ++ 255 :: (255 :: bodycode ++
           [Opcode_byte OP_LOOP; to_byte (Z.shiftr offset 8); to_byte (Z.land offset 255)]))
    by (rewrite <- !app_assoc; reflexivity).
  rewrite insert_middle.
  replace ((code_of c1 ++ [Opcode_byte OP_JUMP_IF_LIE]) ++ to_byte (Z.shiftr jump 8) :: 255 :: bodycode ++
           [Opcode_byte OP_LOOP; to_byte (Z.shiftr offset 8); to_byte (Z.land offset 255)])
    with ((code_of c1 ++ [Opcode_byte OP_JUMP_IF_LIE; to_byte (Z.shiftr jump 8)]) ++ 255 :: (bodycode ++
           [Opcode_byte OP_LOOP; to_byte (Z.shiftr offset 8); to_byte (Z.land offset 255)]))
    by (rewrite <- !app_assoc; reflexivity).
  rewrite insert_middle. rewrite Hcond, <- !app_assoc. cbn [app].
  rewrite <- ?app_assoc. reflexivity.
Qed.

(* ===================================================================== *)
(** ** Running a compiled loop *)
(* ===================================================================== *)

Lemma slice_at_app_r {A} (l1 l2 : list A) (i : Z) :
  0 <= i -> slice_at (l1 ++ l2) (Z.of_nat (length l1) + i) = slice_at l2 i.
Proof.
  intros Hi. unfold slice_at. rewrite length_app, Nat2Z.inj_add.
  destruct (Z.leb_spec 0 i); [| lia].
  destruct (Z.leb_spec 0 (Z.of_nat (length l1) + i)); [| lia].
  cbn [andb].
  destruct (Z.ltb_spec i (Z.of_nat (length l2))),
           (Z.ltb_spec (Z.of_nat (length l1) + i)
                       (Z.of_nat (length l1) + Z.of_nat (length l2))); try lia;
    [| reflexivity].
  rewrite lookup_app_r by lia. f_equal. lia.
Qed.

Lemma slice_at_app_r0 {A} (l1 l2 : list A) :
  slice_at (l1 ++ l2) (Z.of_nat (length l1)) = slice_at l2 0.
Proof. rewrite <- (slice_at_app_r l1 l2 0) by lia. f_equal. lia. Qed.

Lemma slice_at_0 {A} (x : A) (l : list A) : slice_at (x :: l) 0 = Some x.
Proof.
  unfold slice_at. cbn [length].
  destruct (Z.ltb_spec 0 (Z.of_nat (S (length l)))); [reflexivity | lia].
Qed.

Lemma slice_at_S {A} (x : A) (l : list A) (i : Z) :
  0 <= i -> slice_at (x :: l) (i + 1) = slice_at l i.
Proof.
  intros Hi. change (x :: l) with ([x] ++ l).
  rewrite <- (slice_at_app_r [x] l i Hi). f_equal. cbn [length]. lia.
Qed.

Ltac fetch :=
  cbn [app];
  change 1 with (0 + 1); change 2 with (0 + 1 + 1); change 3 with (0 + 1 + 1 + 1);
  rewrite ?slice_at_S by lia; apply slice_at_0.

Lemma execute_keeps (n : nat) :
  forall vm vm', execute n vm = Ok (Continue vm') ->
                 Code (chunk vm') = Code (chunk vm).
Proof.
  induction n as [| n IH]; intros vm vm' H.
  - injection H as <-. reflexivity.
  - rewrite execute_S in H.
    destruct (step vm) as [[vm1 | ? ? ?] | |] eqn:Hstep; try discriminate H.
    rewrite (IH _ _ H). apply (step_keeps _ _ Hstep).
Qed.

Lemma count_at_add (pos : Z) (n m : nat) :
  forall vm,
    count_at pos (n + m) vm
    = (count_at pos n vm
       + match execute n vm with
         | Ok (Continue vm') => count_at pos m vm'
         | _ => 0
         end)%nat.
Proof.
  induction n as [| n IH]; intros vm; [reflexivity |].
  cbn [Nat.add count_at]. rewrite execute_S.
  destruct (step vm) as [[vm1 | ? ? ?] | |]; try lia.
  rewrite IH. lia.
Qed.

Lemma execute_seq (n m : nat) (vm vm' : VM) :
  execute n vm = Ok (Continue vm') -> execute (n + m) vm = execute m vm'.
Proof. intros H. rewrite execute_add, H. reflexivity. Qed.

Lemma count_at_seq (pos : Z) (n m : nat) (vm vm' : VM) :
  execute n vm = Ok (Continue vm') ->
  count_at pos (n + m) vm = (count_at pos n vm + count_at pos m vm')%nat.
Proof. intros H. rewrite count_at_add, H. reflexivity. Qed.

Lemma execute_step (vm vm' : VM) :
  step vm = Ok (Continue vm') -> execute 1 vm = Ok (Continue vm').
Proof. intros H. cbn [execute]. rewrite H. reflexivity. Qed.

Lemma execute_1 (vm : VM) :
  execute 1 vm = match step vm with
                 | Ok (Continue vm') => Ok (Continue vm')
                 | r => r
                 end.
Proof. cbn [execute]. destruct (step vm) as [[] | |]; reflexivity. Qed.

Lemma count_at_1 (pos : Z) (vm : VM) :
  count_at pos 1 vm = if ip vm =? pos then 1%nat else 0%nat.
Proof.
  cbn [count_at]. destruct (step vm) as [[] | |]; destruct (ip vm =? pos); reflexivity.
Qed.

Section Loop.
Variables (code pre condcode bodycode rest : list Z).

Local Abbreviation J := (Z.of_nat (length bodycode) + 3).
Local Abbreviation L := (Z.of_nat (length condcode) + Z.of_nat (length bodycode) + 6).
Local Abbreviation loopStart := (Z.of_nat (length pre)).
Local Abbreviation condEnd := (loopStart + Z.of_nat (length condcode)).
Local Abbreviation bodyEnd := (condEnd + 3 + Z.of_nat (length bodycode)).

Hypothesis Hcode :
  code = pre ++ condcode
           ++ [Opcode_byte OP_JUMP_IF_LIE; to_byte (Z.shiftr J 8);
               to_byte (Z.land J 0xFF)]
           ++ bodycode
           ++ [Opcode_byte OP_LOOP; to_byte (Z.shiftr L 8);
               to_byte (Z.land L 0xFF); Opcode_byte OP_NOTHING]
           ++ rest.
Hypothesis HJ : J <= 32767.
Hypothesis HL : L <= 65535.

Lemma fetch_exit_jump :
  slice_at code condEnd = Some (Opcode_byte OP_JUMP_IF_LIE)
  /\ slice_at code (condEnd + 1) = Some (to_byte (Z.shiftr J 8))
  /\ slice_at code (condEnd + 2) = Some (to_byte (Z.land J 0xFF)).
Proof.
  rewrite Hcode, app_assoc.
  replace condEnd with (Z.of_nat (length (pre ++ condcode)))
    by (rewrite length_app; lia).
  rewrite slice_at_app_r0, !slice_at_app_r by lia.
  repeat split; fetch.
Qed.

Lemma fetch_loop :
  slice_at code bodyEnd = Some (Opcode_byte OP_LOOP)
  /\ slice_at code (bodyEnd + 1) = Some (to_byte (Z.shiftr L 8))
  /\ slice_at code (bodyEnd + 2) = Some (to_byte (Z.land L 0xFF))
  /\ slice_at code (bodyEnd + 3) = Some (Opcode_byte OP_NOTHING).
Proof.
  assert (Hb : bodyEnd
               = Z.of_nat (length (pre ++ condcode
                   ++ [Opcode_byte OP_JUMP_IF_LIE; to_byte (Z.shiftr J 8);
                       to_byte (Z.land J 0xFF)] ++ bodycode))).
  { rewrite !length_app. cbn [length]. lia. }
  rewrite Hb, Hcode.
  replace (pre ++ condcode ++ [Opcode_byte OP_JUMP_IF_LIE; to_byte (Z.shiftr J 8);
               to_byte (Z.land J 0xFF)] ++ bodycode
           ++ [Opcode_byte OP_LOOP; to_byte (Z.shiftr L 8);
               to_byte (Z.land L 0xFF); Opcode_byte OP_NOTHING] ++ rest)
    with ((pre ++ condcode ++ [Opcode_byte OP_JUMP_IF_LIE; to_byte (Z.shiftr J 8);
               to_byte (Z.land J 0xFF)] ++ bodycode)
           ++ [Opcode_byte OP_LOOP; to_byte (Z.shiftr L 8);
               to_byte (Z.land L 0xFF); Opcode_byte OP_NOTHING] ++ rest)
    by (rewrite <- !app_assoc; reflexivity).
  rewrite slice_at_app_r0, !slice_at_app_r by lia.
  repeat split; fetch.
Qed.

Lemma step_exit_jump (vm : VM) (v : Value) :
  Code (chunk vm) = code -> ip vm = condEnd ->
  stack_get vm (stackTop vm - 1) = Ok v ->
  step vm = Ok (Continue (if IsFalsey v
                          then set_ip (enter_body condEnd vm) (bodyEnd + 3)
                          else enter_body condEnd vm)).
Proof.
  intros Hc Hip Hv.
  destruct fetch_exit_jump as (H0 & H1 & H2).
  unfold step. rewrite (readByte_at vm (Opcode_byte OP_JUMP_IF_LIE))
    by (rewrite Hc, Hip; exact H0).
  cbn [bind]. rewrite Opcode_of_byte_byte.
  rewrite (readShort_at (set_ip vm (ip vm + 1)) (to_byte (Z.shiftr J 8))
                        (to_byte (Z.land J 0xFF)));
    [| cbn; rewrite Hc, Hip; exact H1
     | cbn; rewrite Hc, Hip, <- Z.add_assoc; exact H2].
  cbn [bind].
  change (stack_get _ _) with (stack_get vm (stackTop vm - 1)).
  rewrite Hv. cbn [bind].
  assert (HJ0 : 0 <= J < 2 ^ 16) by lia.
  rewrite (short_of_bytes_split J HJ0).
  assert (Hoff : to_int16 J = J).
  { unfold to_int16. rewrite Z.mod_small by lia. lia. }
  rewrite Hoff. unfold enter_body, set_ip, set_stackTop. cbn.
  rewrite Hip. destruct (IsFalsey v); do 2 f_equal.
  - f_equal. lia.
  - f_equal. lia.
Qed.

Lemma step_loop (vm : VM) :
  Code (chunk vm) = code -> ip vm = bodyEnd ->
  step vm = Ok (Continue (set_ip vm loopStart)).
Proof.
  intros Hc Hip.
  destruct fetch_loop as (H0 & H1 & H2 & _).
  unfold step. rewrite (readByte_at vm (Opcode_byte OP_LOOP))
    by (rewrite Hc, Hip; exact H0).
  cbn [bind]. rewrite Opcode_of_byte_byte.
  rewrite (readShort_at (set_ip vm (ip vm + 1)) (to_byte (Z.shiftr L 8))
                        (to_byte (Z.land L 0xFF)));
    [| cbn; rewrite Hc, Hip; exact H1
     | cbn; rewrite Hc, Hip, <- Z.add_assoc; exact H2].
  cbn [bind].
  assert (HL0 : 0 <= L < 2 ^ 16) by lia.
  rewrite (short_of_bytes_split L HL0).
  unfold set_ip. cbn. rewrite Hip. do 3 f_equal.
  lia.
Qed.

Lemma step_nothing (vm : VM) :
  Code (chunk vm) = code -> ip vm = bodyEnd + 3 ->
  step vm = push_continue (set_ip vm (bodyEnd + 4)) NewNothing.
Proof.
  intros Hc Hip.
  destruct fetch_loop as (_ & _ & _ & H3).
  unfold step. rewrite (readByte_at vm (Opcode_byte OP_NOTHING))
    by (rewrite Hc, Hip; exact H3).
  cbn [bind]. rewrite Opcode_of_byte_byte. rewrite Hip.
  replace (bodyEnd + 3 + 1) with (bodyEnd + 4) by lia. reflexivity.
Qed.

(** One round: the condition holds, the body runs, control is back at the
    start of the loop. *)
Lemma one_iteration (s t u : VM) (nc nb : nat) (v : Value) :
  Code (chunk s) = code ->
  cond_run loopStart condEnd bodyEnd s nc t v ->
  IsFalsey v = false ->
  body_run condEnd bodyEnd t nb u ->
  execute (nc + 1 + nb + 1) s = Ok (Continue (set_ip u loopStart))
  /\ count_at bodyEnd (nc + 1 + nb + 1) s = 1%nat.
Proof.
  intros Hc (Hs & Hex & Hcnt & Hipt & Htop & Hv & _) Hf (Hb & Hbcnt & Hipu).
  assert (Hct : Code (chunk t) = code) by (rewrite (execute_keeps _ _ _ Hex); exact Hc).
  assert (Hjump : step t = Ok (Continue (enter_body condEnd t))).
  { rewrite (step_exit_jump t v Hct Hipt), Hf; [reflexivity |].
    rewrite Htop. replace (stackTop s + 1 - 1) with (stackTop s) by lia. exact Hv. }
  assert (Hcu : Code (chunk u) = code).
  { rewrite (execute_keeps _ _ _ Hb). exact Hct. }
  assert (Hloop : step u = Ok (Continue (set_ip u loopStart)))
    by (apply step_loop; assumption).
  assert (Hne : condEnd <> bodyEnd) by lia.
  assert (H1 : execute (nc + 1) s = Ok (Continue (enter_body condEnd t)))
    by (rewrite (execute_seq _ _ _ _ Hex); apply execute_step; exact Hjump).
  assert (H2 : execute (nc + 1 + nb) s = Ok (Continue u))
    by (rewrite (execute_seq _ _ _ _ H1); exact Hb).
  split.
  - rewrite (execute_seq _ _ _ _ H2). apply execute_step. exact Hloop.
  - rewrite (count_at_seq _ _ _ _ _ H2), (count_at_seq _ _ _ _ _ H1),
      (count_at_seq _ _ _ _ _ Hex), Hcnt, Hbcnt, !count_at_1.
    rewrite Hipt, Hipu, Z.eqb_refl.
    destruct (Z.eqb_spec condEnd bodyEnd); [contradiction | reflexivity].
Qed.

Lemma iterates_execute (k n : nat) (s s' : VM) :
  iterates loopStart condEnd bodyEnd k s n s' ->
  Code (chunk s) = code ->
  execute n s = Ok (Continue s')
  /\ count_at bodyEnd n s = k
  /\ Code (chunk s') = code.
Proof.
  induction 1 as [s | k s nc t v nb u n s' Hcond Hf Hbody _ IH]; intros Hc.
  - split; [reflexivity |]. split; [reflexivity | exact Hc].
  - destruct (one_iteration s t u nc nb v Hc Hcond Hf Hbody) as [Hex Hcnt].
    assert (Hcu : Code (chunk (set_ip u loopStart)) = code).
    { rewrite <- Hc. apply (execute_keeps _ _ _ Hex). }
    destruct (IH Hcu) as (Hex' & Hcnt' & Hc').
    split; [| split; [| exact Hc']].
    + rewrite (execute_seq _ _ _ _ Hex). exact Hex'.
    + rewrite (count_at_seq _ _ _ _ _ Hex), Hcnt, Hcnt'. reflexivity.
Qed.

(** The loop as a whole: [k] rounds, then the condition is falsey, the exit
    jump is taken and [nothing] is pushed. *)
Lemma loop_execute (k n nc : nat) (s s' t : VM) (v : Value) :
  Code (chunk s) = code ->
  iterates loopStart condEnd bodyEnd k s n s' ->
  cond_run loopStart condEnd bodyEnd s' nc t v ->
  IsFalsey v = true ->
  exists final,
    execute n s = Ok (Continue s')
    /\ execute (n + nc + 2) s = Ok (Continue final)
    /\ count_at bodyEnd (n + nc + 2) s = k
    /\ ip final = bodyEnd + 4
    /\ stackTop final = stackTop s' + 1
    /\ stack_get final (stackTop s') = Ok NewNothing
    /\ globals final = globals s'
    /\ out final = out s'
    /\ forall j, j < stackTop s' -> stack final !! j = stack s' !! j.
Proof.
  intros Hc Hit (Hs & Hex & Hcnt & Hipt & Htop & Hv & Hg & Ho & Hbelow) Hf.
  destruct (iterates_execute k n s s' Hit Hc) as (Hexn & Hcntn & Hc').
  assert (Hct : Code (chunk t) = code) by (rewrite (execute_keeps _ _ _ Hex); exact Hc').
  pose proof (stack_get_range _ _ _ Hv) as Hrange.
  assert (Hjump : step t = Ok (Continue (set_ip (enter_body condEnd t) (bodyEnd + 3)))).
  { rewrite (step_exit_jump t v Hct Hipt), Hf; [reflexivity |].
    rewrite Htop. replace (stackTop s' + 1 - 1) with (stackTop s') by lia. exact Hv. }
  destruct (push_continue_ok
              (set_ip (set_ip (enter_body condEnd t) (bodyEnd + 3)) (bodyEnd + 4))
              NewNothing)
    as (final & Hpush & Hst & Htopf & Hgf & _ & Hipf & _ & Hof & _);
    [cbn; lia |].
  cbn in Hst, Htopf, Hgf, Hipf, Hof.
  assert (Hnothing : step (set_ip (enter_body condEnd t) (bodyEnd + 3))
                     = Ok (Continue final)).
  { rewrite step_nothing; [exact Hpush | exact Hct | reflexivity]. }
  assert (H1 : execute (n + nc) s = Ok (Continue t))
    by (rewrite (execute_seq _ _ _ _ Hexn); exact Hex).
  assert (H2 : execute (n + nc + 1) s
               = Ok (Continue (set_ip (enter_body condEnd t) (bodyEnd + 3))))
    by (rewrite (execute_seq _ _ _ _ H1); apply execute_step; exact Hjump).
  exists final. split; [exact Hexn |].
  split.
  { replace (n + nc + 2)%nat with (n + nc + 1 + 1)%nat by lia.
    rewrite (execute_seq _ _ _ _ H2). apply execute_step. exact Hnothing. }
  split.
  { replace (n + nc + 2)%nat with (n + nc + 1 + 1)%nat by lia.
    rewrite (count_at_seq _ _ _ _ _ H2), (count_at_seq _ _ _ _ _ H1),
      (count_at_seq _ _ _ _ _ Hexn), Hcntn, Hcnt, !count_at_1.
    rewrite Hipt. cbn [ip set_ip].
    destruct (Z.eqb_spec condEnd bodyEnd) as [He | _];
      [lia |].
    destruct (Z.eqb_spec (bodyEnd + 3) bodyEnd) as [He | _]; [lia |]. lia. }
  split; [exact Hipf |].
  split; [rewrite Htopf, Htop; lia |].
  split.
  { rewrite stack_get_lookup by exact Hrange.
    rewrite Hst, Htop. replace (stackTop s' + 1 - 1) with (stackTop s') by lia.
    rewrite lookup_insert_eq. reflexivity. }
  split; [rewrite Hgf; exact Hg |].
  split; [rewrite Hof; exact Ho |].
  intros j Hj. rewrite Hst, lookup_insert_ne by (rewrite Htop; lia).
  apply Hbelow. exact Hj.
Qed.
End Loop.

(** X30.  A [while] loop whose exit distance fits the signed operand runs its
    body as long as its condition holds.  Let a [while] be compiled from [c]
    to [c'], its condition ending
    at [c1] and its body at [c3], with at most 32767 bytes from the end of the
    condition to the end of the body, and let its code sit at its offset in
    the chunk that the machine runs.  If from [s] the condition evaluates
    truthy, without side effect, and the body runs to its end [k] times in a
    row, and the condition then evaluates falsey, then the machine goes
    through exactly these [k] rounds (the backward jump of the loop is executed
    [k] times), leaves the loop and pushes [nothing]. *)
Theorem while_loop_runs_body_k_times
        (c c1 c3 c' : Compiler) (t : Token) (cond : Expression)
        (body : BlockStatement) (s s' tl : VM) (k n nc : nat) (v : Value) :
  compileExpression c (WhileExpression t cond body) = Ok c' ->
  compileExpression c cond = Ok c1 ->
  compileBlock (fst (emitJump c1 OP_JUMP_IF_LIE)) body = Ok c3 ->
  Count (c_chunk c3) - Count (c_chunk c1) <= 32767 ->
  placed_at (Code (chunk s)) (Count (c_chunk c)) (emitted c c') ->
  iterates (Count (c_chunk c)) (Count (c_chunk c1)) (Count (c_chunk c3)) k s n s' ->
  cond_run (Count (c_chunk c)) (Count (c_chunk c1)) (Count (c_chunk c3)) s' nc tl v ->
  IsFalsey v = true ->
  exists final,
    execute n s = Ok (Continue s')
    /\ execute (n + nc + 2) s = Ok (Continue final)
    /\ count_at (Count (c_chunk c3)) (n + nc + 2) s = k
    /\ ip final = Count (c_chunk c')
    /\ stackTop final = stackTop s' + 1
    /\ stack_get final (stackTop s') = Ok NewNothing
    /\ globals final = globals s'
    /\ out final = out s'
    /\ forall j, j < stackTop s' -> stack final !! j = stack s' !! j.
Proof.
  intros Hwhile Hcond Hbody Hsize Hplaced Hit Hlast Hf.
  destruct (while_layout _ _ _ _ _ Hwhile)
    as (c1' & c3' & condcode & bodycode & Hc1 & Hc3 & Hcode1 & Hcode3 & HJ & HL & Hcode').
  rewrite Hcond in Hc1. injection Hc1 as <-.
  rewrite Hbody in Hc3. injection Hc3 as <-.
  destruct Hplaced as (pre & rest & Hrest & Hpre).
  unfold emitted in Hrest. rewrite Hcode', drop_app_length in Hrest.
  assert (Hp0 : Count (c_chunk c) = Z.of_nat (length pre)) by (symmetry; exact Hpre).
  assert (Hlen : Z.of_nat (length (code_of c)) = Z.of_nat (length pre))
    by (rewrite Hpre; reflexivity).
  assert (Hp1 : Count (c_chunk c1)
                = Z.of_nat (length pre) + Z.of_nat (length condcode)).
  { unfold Count. fold (code_of c1). rewrite Hcode1, length_app. lia. }
  assert (Hp3 : Count (c_chunk c3)
                = Z.of_nat (length pre) + Z.of_nat (length condcode) + 3
                  + Z.of_nat (length bodycode)).
  { unfold Count. fold (code_of c3). rewrite Hcode3, Hcode1, !length_app.
    cbn [length]. lia. }
  assert (Hp' : Count (c_chunk c')
                = Z.of_nat (length pre) + Z.of_nat (length condcode) + 3
                  + Z.of_nat (length bodycode) + 4).
  { unfold Count. fold (code_of c'). rewrite Hcode', !length_app.
    cbn [length]. lia. }
  rewrite Hp0, Hp1, Hp3 in Hit, Hlast. rewrite Hp3, Hp'.
  rewrite Hp1, Hp3 in Hsize.
  apply (loop_execute (Code (chunk s)) pre condcode bodycode rest)
    with (t := tl) (v := v); try assumption; try reflexivity; try lia.
  rewrite Hrest, <- !app_assoc. reflexivity.
Qed.

Lemma below_agree (d : Z) (m1 m2 : gmap Z Value) :
  below d m1 = below d m2 -> forall j, j < d -> m1 !! j = m2 !! j.
Proof.
  intros Heq j Hj.
  assert (H : forall m : gmap Z Value, below d m !! j = m !! j).
  { intros m. unfold below. destruct (m !! j) as [x |] eqn:Hm.
    - apply map_lookup_filter_Some. split; [exact Hm | exact Hj].
    - apply map_lookup_filter_None. left. exact Hm. }
  rewrite <- (H m1), <- (H m2), Heq. reflexivity.
Qed.

(** Closed goals about the concrete run are settled by evaluation. *)
Ltac run := vm_compute; reflexivity.

Ltac split_all :=
  repeat match goal with
         | |- _ /\ _ => split
         end.

Ltac cond_run_tac :=
  unfold cond_run; split_all; try run; apply below_agree; run.

(** The theorem at work on the loop that counts to two: the body runs twice,
    the third evaluation of the condition is falsey, the loop pushes
    [nothing] and the counter is left at 2. *)
Lemma counting_loop_example :
  exists final,
    execute 18 (counting_at 2) = Ok (Continue (counting_at 20))
    /\ execute 23 (counting_at 2) = Ok (Continue final)
    /\ count_at 21 23 (counting_at 2) = 2%nat
    /\ ip final = 25
    /\ stack_get final (stackTop (counting_at 20)) = Ok NewNothing
    /\ globals final !! "c" = Some (NewInt 2).
Proof.
  destruct (while_loop_runs_body_k_times
              counting_c counting_c1 counting_c3 counting_done
              (tok "dey" 2) counting_cond counting_body
              (counting_at 2) (counting_at 20) (counting_at 23)
              2 (3 + 1 + 4 + 1 + (3 + 1 + 4 + 1 + 0)) 3 (NewBool false))
    as (final & H1 & H2 & H3 & H4 & H5 & H6 & H7 & _).
  - run.
  - run.
  - run.
  - vm_compute. discriminate.
  - exists (code_of counting_c), [Opcode_byte OP_HALT]. split; run.
  - apply (iterates_again _ _ _ 1 (counting_at 2) 3 (counting_at 5) (NewBool true)
                          4 (counting_at 10)).
    + cond_run_tac.
    + run.
    + unfold body_run. split_all; run.
    + apply (iterates_again _ _ _ 0 _ 3 (counting_at 14) (NewBool true)
                            4 (counting_at 19)).
      * cond_run_tac.
      * run.
      * unfold body_run. split_all; run.
      * replace (set_ip (counting_at 19) (Count (c_chunk counting_c)))
          with (counting_at 20) by run.
        apply iterates_done.
  - cond_run_tac.
  - run.
  - exists final. split; [exact H1 |]. split; [exact H2 |]. split; [exact H3 |].
    split; [exact H4 |]. split; [exact H6 |].
    rewrite H7. run.
Defined.

(* ===================================================================== *)
(** ** Kinds, truthiness and equality of values *)
(* ===================================================================== *)

(** A word built from a tag and a 48-bit payload carries both. *)
Lemma GetTag_tagged (tag payload : Z) :
  0 <= tag < 8 -> 0 <= payload < 2 ^ 48 ->
  GetTag (Z.lor (Z.lor QNAN_BASE (Z.shiftl tag TAG_SHIFT)) payload) = tag.
Proof.
  intros Ht Hp. unfold GetTag, to_byte, TAG_SHIFT, TAG_MASK.
  rewrite !Z.shiftr_lor, Z.shiftr_shiftl_l, Z.sub_diag, Z.shiftl_0_r by lia.
  rewrite (Z.shiftr_div_pow2 payload), (Z.div_small payload) by lia.
  rewrite Z.lor_0_r, Z.land_lor_distr_l.
  change (Z.land (Z.shiftr QNAN_BASE 48) 7) with 0.
  rewrite Z.lor_0_l. change 7 with (Z.ones 3).
  rewrite Z.land_ones by lia. change (2 ^ 3) with 8.
  rewrite (Z.mod_small tag 8) by lia. apply Z.mod_small. lia.
Qed.

Lemma payload_tagged (tag payload : Z) :
  0 <= tag < 8 -> 0 <= payload < 2 ^ 48 ->
  Z.land (Z.lor (Z.lor QNAN_BASE (Z.shiftl tag TAG_SHIFT)) payload) PAYLOAD_MASK
  = payload.
Proof.
  intros Ht Hp. unfold TAG_SHIFT.
  rewrite !Z.land_lor_distr_l.
  change (Z.land QNAN_BASE PAYLOAD_MASK) with 0.
  assert (H0 : Z.land (Z.shiftl tag 48) PAYLOAD_MASK = 0).
  { rewrite PAYLOAD_MASK_ones, Z.land_ones, Z.shiftl_mul_pow2 by lia.
    apply Z.mod_mul. lia. }
  rewrite H0, !Z.lor_0_l, PAYLOAD_MASK_ones, Z.land_ones by lia.
  apply Z.mod_small. exact Hp.
Qed.

Lemma payload_mod (i : Z) : Z.land (to_uint64 i) PAYLOAD_MASK = i mod 2 ^ 48.
Proof.
  unfold to_uint64. rewrite PAYLOAD_MASK_ones, Z.land_ones by lia.
  change (2 ^ 64) with (2 ^ 48 * 2 ^ 16).
  rewrite Z.rem_mul_r by lia.
  rewrite Z.mul_comm, Z.mod_add by lia.
  apply Z.mod_mod. lia.
Qed.

Lemma payload_small (z : Z) :
  0 <= z < 2 ^ 48 -> Z.land (to_uint64 z) PAYLOAD_MASK = z.
Proof. intros Hz. rewrite payload_mod. apply Z.mod_small. exact Hz. Qed.

Lemma GetTag_NewBool (b : bool) : GetTag (NewBool b) = TAG_BOOL.
Proof. destruct b; reflexivity. Qed.

Lemma GetTag_NewString (s : Z) : GetTag (NewString s) = TAG_STRING.
Proof.
  apply (GetTag_tagged TAG_STRING); [unfold TAG_STRING; lia |].
  rewrite payload_mod. apply Z.mod_pos_bound. lia.
Qed.

Lemma GetTag_NewBuiltin (index : Z) :
  0 <= index < 2 ^ 48 -> GetTag (NewBuiltin index) = TAG_BUILTIN.
Proof.
  intros Hi. unfold NewBuiltin, to_uint64. rewrite Z.mod_small by lia.
  apply (GetTag_tagged TAG_BUILTIN); [unfold TAG_BUILTIN; lia | exact Hi].
Qed.

Lemma AsString_NewString (p : Z) : 0 <= p < 2 ^ 48 -> AsString (NewString p) = p.
Proof.
  intros Hp. unfold AsString, NewString. cbv zeta.
  rewrite (payload_small p Hp).
  apply (payload_tagged TAG_STRING); [unfold TAG_STRING; lia | exact Hp].
Qed.

(** X1.  A value is of the kind of the constructor that built it, and of no
    other: [NewInt], [NewBool], [NewNothing] and [NewString] give values that
    [TypeName] calls number, boolean, nothing and string, and on which exactly
    the matching predicate among [IsInt], [IsBool], [IsNothing] and
    [IsString] holds, whatever the integer, the boolean or the address. *)
Theorem constructed_values_have_one_type (i : Z) (b : bool) (s : Z) :
  (TypeName (NewInt i) = "number"
   /\ IsInt (NewInt i) = true /\ IsBool (NewInt i) = false
   /\ IsNothing (NewInt i) = false /\ IsString (NewInt i) = false)
  /\ (TypeName (NewBool b) = "boolean"
      /\ IsInt (NewBool b) = false /\ IsBool (NewBool b) = true
      /\ IsNothing (NewBool b) = false /\ IsString (NewBool b) = false)
  /\ (TypeName NewNothing = "nothing"
      /\ IsInt NewNothing = false /\ IsBool NewNothing = false
      /\ IsNothing NewNothing = true /\ IsString NewNothing = false)
  /\ (TypeName (NewString s) = "string"
      /\ IsInt (NewString s) = false /\ IsBool (NewString s) = false
      /\ IsNothing (NewString s) = false /\ IsString (NewString s) = true).
Proof.
  unfold TypeName, IsInt, IsBool, IsNothing, IsString.
  rewrite GetTag_NewInt, GetTag_NewBool, GetTag_NewString.
  repeat split; reflexivity.
Qed.

(** X2.  Only [lie] and [nothing] are falsey: [IsFalsey] holds of the boolean
    false and of [nothing], and of no integer (0 included) and no string;
    a falsey value is a boolean or [nothing]; [IsTruthy] is the negation of
    [IsFalsey]; [AsBool] reads back the boolean that [NewBool] boxed. *)
Theorem only_lie_and_nothing_are_falsey (i : Z) (b : bool) (s : Z) :
  AsBool (NewBool b) = b
  /\ IsFalsey (NewBool b) = negb b
  /\ IsFalsey NewNothing = true
  /\ IsFalsey (NewInt i) = false
  /\ IsFalsey (NewString s) = false
  /\ forall v, IsTruthy v = negb (IsFalsey v)
               /\ (IsFalsey v = true -> IsBool v = true \/ IsNothing v = true).
Proof.
  split; [destruct b; reflexivity |].
  split; [destruct b; reflexivity |].
  split; [reflexivity |].
  unfold IsFalsey, IsBool, IsNothing.
  rewrite GetTag_NewInt, GetTag_NewString.
  split; [reflexivity |]. split; [reflexivity |].
  intros v. split; [reflexivity |].
  destruct (GetTag v =? TAG_BOOL); [left; reflexivity |].
  destruct (GetTag v =? TAG_NOTHING); [right; reflexivity | discriminate].
Qed.

(** X3.  String addresses and builtin indices survive boxing: for a payload
    [p] of at most 48 bits, [AsString (NewString p)] and
    [AsBuiltin (NewBuiltin p)] are [p], and [NewBuiltin p] is a builtin. *)
Theorem handle_roundtrip (p : Z) :
  0 <= p < 2 ^ 48 ->
  AsString (NewString p) = p
  /\ AsBuiltin (NewBuiltin p) = p
  /\ IsBuiltin (NewBuiltin p) = true
  /\ TypeName (NewBuiltin p) = "builtin".
Proof.
  intros Hp. split; [apply AsString_NewString; exact Hp |].
  assert (Hb : AsBuiltin (NewBuiltin p) = p).
  { unfold AsBuiltin, NewBuiltin, to_uint64. rewrite (Z.mod_small p) by lia.
    rewrite (payload_tagged TAG_BUILTIN) by (unfold TAG_BUILTIN; lia).
    unfold to_int64. rewrite Z.mod_small; lia. }
  unfold IsBuiltin, TypeName. rewrite (GetTag_NewBuiltin p Hp).
  repeat split; assumption || reflexivity.
Qed.

Lemma handle_roundtrip_witness :
  0 <= 7 < 2 ^ 48
  /\ AsString (NewString 7) = 7
  /\ AsBuiltin (NewBuiltin 7) = 7
  /\ IsBuiltin (NewBuiltin 7) = true
  /\ TypeName (NewBuiltin 7) = "builtin".
Proof. split; [lia |]. apply (handle_roundtrip 7). lia. Defined.

Lemma wrap48_mod (a b : Z) : wrap48 a = wrap48 b -> a mod 2 ^ 48 = b mod 2 ^ 48.
Proof.
  unfold wrap48. intros H.
  assert (Hm : (a + 2 ^ 47) mod 2 ^ 48 = (b + 2 ^ 47) mod 2 ^ 48) by lia.
  assert (Hs : forall z, z mod 2 ^ 48 = ((z + 2 ^ 47) mod 2 ^ 48 + 2 ^ 47) mod 2 ^ 48).
  { intros z. rewrite Z.add_mod_idemp_l by lia.
    replace (z + 2 ^ 47 + 2 ^ 47) with (z + 1 * 2 ^ 48) by lia.
    rewrite Z.mod_add by lia. reflexivity. }
  rewrite (Hs a), (Hs b), Hm. reflexivity.
Qed.

(** Two integers box to the same word exactly when they agree modulo
    [2^48]. *)
Lemma NewInt_eq (a b : Z) : NewInt a = NewInt b <-> wrap48 a = wrap48 b.
Proof.
  split; intros H.
  - rewrite <- !AsInt_NewInt, H. reflexivity.
  - unfold NewInt. cbv zeta. rewrite !payload_mod, (wrap48_mod a b H). reflexivity.
Qed.

Lemma Equals_sym (h : Heap) (v other : Value) : Equals h v other = Equals h other v.
Proof.
  unfold Equals, IsString. rewrite (Z.eqb_sym other v).
  destruct (v =? other); [reflexivity |].
  rewrite (Z.eqb_sym (GetTag other) (GetTag v)).
  destruct (Z.eqb_spec (GetTag v) (GetTag other)) as [Ht | _]; [| reflexivity].
  cbn [negb]. rewrite Ht.
  destruct (GetTag other =? TAG_STRING); [| reflexivity].
  destruct (deref h (AsString v)) as [a |], (deref h (AsString other)) as [b |];
    try reflexivity.
  rewrite String.eqb_sym. reflexivity.
Qed.

Lemma Equals_other_tag (h : Heap) (v other : Value) :
  GetTag v <> GetTag other -> Equals h v other = Some false.
Proof.
  intros Ht. unfold Equals.
  destruct (Z.eqb_spec v other) as [-> | _]; [contradiction |].
  destruct (Z.eqb_spec (GetTag v) (GetTag other)); [contradiction | reflexivity].
Qed.

Lemma Equals_NewInt (h : Heap) (a b : Z) :
  Equals h (NewInt a) (NewInt b) = Some (wrap48 a =? wrap48 b).
Proof.
  unfold Equals.
  destruct (Z.eqb_spec (NewInt a) (NewInt b)) as [He | Hne].
  - apply NewInt_eq in He. rewrite He, Z.eqb_refl. reflexivity.
  - rewrite !GetTag_NewInt, Z.eqb_refl. cbn [negb].
    unfold IsString. rewrite GetTag_NewInt.
    destruct (Z.eqb_spec (wrap48 a) (wrap48 b)) as [He | _]; [| reflexivity].
    apply NewInt_eq in He. contradiction.
Qed.

(** X4.  [Equals] is reflexive and symmetric.  Two integers are equal exactly
    when their 48-bit values are, and a value of one kind never equals a value
    of another kind: no integer equals a boolean, [nothing] or a string, and
    so on. *)
Theorem Equals_on_integers_and_kinds (h : Heap) (a b : Z) (c : bool) (s : Z)
        (v other : Value) :
  Equals h v v = Some true
  /\ Equals h v other = Equals h other v
  /\ Equals h (NewInt a) (NewInt b) = Some (wrap48 a =? wrap48 b)
  /\ Equals h (NewBool c) (NewInt a) = Some false
  /\ Equals h NewNothing (NewInt a) = Some false
  /\ Equals h (NewString s) (NewInt a) = Some false
  /\ Equals h NewNothing (NewBool c) = Some false
  /\ Equals h (NewString s) (NewBool c) = Some false
  /\ Equals h (NewString s) NewNothing = Some false.
Proof.
  split; [apply Equals_refl |]. split; [apply Equals_sym |].
  split; [apply Equals_NewInt |].
  repeat split; apply Equals_other_tag;
    rewrite ?GetTag_NewInt, ?GetTag_NewBool, ?GetTag_NewString; discriminate.
Qed.

(** X5.  Strings are compared by content, not by address: two string values
    whose addresses hold [s] and [t] are equal exactly when [s] and [t] are
    the same text. *)
Theorem Equals_strings_by_content (h : Heap) (p q : Z) (s t : string) :
  0 <= p < 2 ^ 48 -> 0 <= q < 2 ^ 48 ->
  deref h p = Some s -> deref h q = Some t ->
  Equals h (NewString p) (NewString q) = Some (String.eqb s t).
Proof.
  intros Hp Hq Hs Ht. unfold Equals.
  pose proof (AsString_NewString p Hp) as Hap.
  pose proof (AsString_NewString q Hq) as Haq.
  destruct (Z.eqb_spec (NewString p) (NewString q)) as [He | _].
  - assert (p = q) by (rewrite <- Hap, <- Haq, He; reflexivity). subst q.
    rewrite Hs in Ht. injection Ht as <-. rewrite String.eqb_refl. reflexivity.
  - rewrite !GetTag_NewString, Z.eqb_refl. cbn [negb].
    unfold IsString. rewrite GetTag_NewString, Hap, Haq, Hs, Ht. reflexivity.
Qed.

Lemma Equals_strings_by_content_witness :
  Equals ["ab"; "ab"; "c"] (NewString 1) (NewString 2) = Some true
  /\ Equals ["ab"; "ab"; "c"] (NewString 1) (NewString 3) = Some false.
Proof.
  split.
  - apply (Equals_strings_by_content ["ab"; "ab"; "c"] 1 2 "ab" "ab");
      (lia || reflexivity).
  - apply (Equals_strings_by_content ["ab"; "ab"; "c"] 1 3 "ab" "c");
      (lia || reflexivity).
Defined.

(* ===================================================================== *)
(** ** The chunk: constants, interned strings and lines *)
(* ===================================================================== *)

Lemma GetConstant_in_range (c : Chunk) (index : Z) (v : Value) :
  slice_at (Constants c) index = Some v -> GetConstant c index = v.
Proof.
  unfold slice_at, GetConstant. intros H.
  destruct (Z.leb_spec 0 index), (Z.ltb_spec index (Z.of_nat (length (Constants c))));
    cbn [andb] in H; try discriminate H.
  destruct (Z.ltb_spec index 0), (Z.leb_spec (Z.of_nat (length (Constants c))) index);
    try lia.
  cbn [orb]. rewrite H. reflexivity.
Qed.

Lemma GetConstant_prefix (c c' : Chunk) (index : Z) :
  Constants c `prefix_of` Constants c' ->
  0 <= index < Z.of_nat (length (Constants c)) ->
  GetConstant c' index = GetConstant c index.
Proof.
  intros [ext Hext] Hi. unfold GetConstant. rewrite Hext, length_app.
  destruct (Z.ltb_spec index 0),
           (Z.leb_spec (Z.of_nat (length (Constants c))) index),
           (Z.leb_spec (Z.of_nat (length (Constants c) + length ext)) index);
    try lia.
  cbn [orb]. rewrite lookup_app_l by lia. reflexivity.
Qed.

(** X6.  [GetConstant] at the index that [AddConstant] returned gives a value
    equal to the one added; the entries pooled before are still read at their
    old indices; an index outside the pool (negative, or at or beyond its
    length) reads as [nothing] instead of failing. *)
Theorem GetConstant_of_added_constant (h : Heap) (c c' : Chunk) (value : Value)
        (idx : Z) :
  AddConstant h c value = Ok (c', idx) ->
  0 <= idx < Z.of_nat (length (Constants c'))
  /\ Equals h (GetConstant c' idx) value = Some true
  /\ (forall i, 0 <= i < Z.of_nat (length (Constants c)) ->
                GetConstant c' i = GetConstant c i)
  /\ (forall i, i < 0 \/ Z.of_nat (length (Constants c')) <= i ->
                GetConstant c' i = NewNothing).
Proof.
  intros H.
  destruct (AddConstant_index_holds_equal _ _ _ _ _ H) as (Hpre & e & He & Heq).
  split.
  { unfold slice_at in He.
    destruct (Z.leb_spec 0 idx), (Z.ltb_spec idx (Z.of_nat (length (Constants c'))));
      cbn [andb] in He; try discriminate He. lia. }
  split; [rewrite (GetConstant_in_range _ _ _ He); exact Heq |].
  split; [intros i Hi; apply GetConstant_prefix; assumption |].
  intros i Hi. unfold GetConstant.
  destruct (Z.ltb_spec i 0), (Z.leb_spec (Z.of_nat (length (Constants c'))) i);
    try lia; reflexivity.
Qed.

Lemma GetConstant_of_added_constant_witness :
  exists c',
    AddConstant [] NewChunk (NewInt 5) = Ok (c', 0)
    /\ Equals [] (GetConstant c' 0) (NewInt 5) = Some true
    /\ GetConstant c' 1 = NewNothing.
Proof.
  eexists. split; [reflexivity |].
  destruct (GetConstant_of_added_constant [] NewChunk _ (NewInt 5) 0 eq_refl)
    as (_ & H1 & _ & H2).
  split; [exact H1 |]. apply H2. right. cbn. lia.
Defined.

Lemma find_constant_app (h : Heap) (value : Value) (cs ds : list Value) :
  forall i,
    find_constant h cs value i = Ok None ->
    find_constant h (cs ++ ds) value i
    = find_constant h ds value (i + Z.of_nat (length cs)).
Proof.
  induction cs as [| e rest IH]; intros i H; cbn [app length].
  - rewrite Z.add_0_r. reflexivity.
  - cbn [find_constant] in *. unfold Equals_res in *.
    destruct (Equals h e value) as [[|] |]; cbn [bind] in *; try discriminate H.
    rewrite (IH _ H). f_equal. lia.
Qed.

(** X7.  [AddConstant] deduplicates: adding the same value once more returns
    the same index and leaves the chunk as it is; one call grows the pool by
    at most one entry; and a pool in which no two entries compare equal stays
    so. *)
Theorem AddConstant_deduplicates (h : Heap) (c c' : Chunk) (value : Value)
        (idx : Z) :
  AddConstant h c value = Ok (c', idx) ->
  AddConstant h c' value = Ok (c', idx)
  /\ (length (Constants c') <= length (Constants c) + 1)%nat
  /\ (pool_distinct h (Constants c) -> pool_distinct h (Constants c')).
Proof.
  intros H. split; [| split].
  - unfold AddConstant in *.
    destruct (find_constant h (Constants c) value 0) as [[j |] | |] eqn:Hf;
      cbn [bind] in H; try discriminate H.
    + injection H as <- <-. rewrite Hf. reflexivity.
    + injection H as <- <-. cbn [Constants].
      rewrite (find_constant_app _ _ _ _ _ Hf). cbn [find_constant].
      unfold Equals_res. rewrite Equals_refl. cbn [bind].
      rewrite length_app. cbn [length]. do 2 f_equal. lia.
  - unfold AddConstant in H.
    destruct (find_constant h (Constants c) value 0) as [[j |] | |];
      cbn [bind] in H; try discriminate H; injection H as <- <-; cbn [Constants].
    + lia.
    + rewrite length_app. cbn [length]. lia.
  - intros Hd. exact (AddConstant_keeps_pool_distinct _ _ _ _ _ Hd H).
Qed.

Lemma AddConstant_deduplicates_witness :
  exists c',
    AddConstant [] NewChunk (NewInt 5) = Ok (c', 0)
    /\ AddConstant [] c' (NewInt 5) = Ok (c', 0).
Proof.
  eexists. split; [reflexivity |].
  apply (AddConstant_deduplicates [] NewChunk _ (NewInt 5) 0). reflexivity.
Defined.

Lemma deref_prefix (h h' : Heap) (p : Z) (s : string) :
  h `prefix_of` h' -> deref h p = Some s -> deref h' p = Some s.
Proof.
  intros [ext ->]. unfold deref. destruct (1 <=? p); [| discriminate].
  intros H. apply lookup_app_l_Some. exact H.
Qed.

Lemma deref_bound (h : Heap) (p : Z) (s : string) :
  deref h p = Some s -> 1 <= p <= Z.of_nat (length h).
Proof.
  unfold deref. destruct (Z.leb_spec 1 p) as [Hp | Hp]; [| discriminate].
  intros Hl. apply lookup_lt_Some in Hl. lia.
Qed.

Lemma deref_alloc (h : Heap) (s : string) :
  deref (fst (alloc h s)) (snd (alloc h s)) = Some s.
Proof.
  unfold alloc, deref. cbn [fst snd].
  replace (1 <=? Z.of_nat (length h) + 1) with true
    by (symmetry; apply Z.leb_le; lia).
  replace (Z.to_nat (Z.of_nat (length h) + 1 - 1)) with (length h + 0)%nat by lia.
  apply lookup_app_Some. right. split; [lia |].
  replace (length h + 0 - length h)%nat with 0%nat by lia. reflexivity.
Qed.

Lemma strings_ok_empty (h : Heap) (c : Chunk) : strings c = ∅ -> strings_ok h c.
Proof. intros He s p H. rewrite He, lookup_empty in H. discriminate. Qed.

(** Interning keeps the intern table sound and only adds to it and to the
    heap. *)
Lemma InternString_ok (h : Heap) (c : Chunk) (s : string) (h' : Heap) (c' : Chunk)
      (p : Z) :
  strings_ok h c ->
  InternString h c s = (h', c', p) ->
  deref h' p = Some s /\ strings c' !! s = Some p /\ strings_ok h' c'
  /\ h `prefix_of` h' /\ strings c ⊆ strings c'.
Proof.
  intros Hok. unfold InternString.
  destruct (strings c !! s) as [q |] eqn:Hs.
  - intros [= <- <- <-]. repeat split; try assumption; try reflexivity.
    apply (Hok _ _ Hs).
  - cbn. intros [= <- <- <-]. cbn [strings].
    assert (Hd : deref (h ++ [s]) (Z.of_nat (length h) + 1) = Some s)
      by apply (deref_alloc h s).
    split; [exact Hd |]. split; [apply lookup_insert_eq |].
    split; [| split; [apply prefix_app_r; reflexivity | apply insert_subseteq; exact Hs]].
    intros s' p'. cbn [strings]. destruct (decide (s' = s)) as [-> | Hne].
    + rewrite lookup_insert_eq. intros [= <-]. exact Hd.
    + rewrite lookup_insert_ne by congruence. intros H.
      apply (deref_prefix h); [apply prefix_app_r; reflexivity | apply (Hok _ _ H)].
Qed.

(** X8.  [InternString] returns a handle to the string.  Interning the same
    string again returns the same handle and allocates nothing; two different
    strings never get the same handle; and the handles given out before stay
    valid. *)
Theorem InternString_shares_equal_strings (h : Heap) (c : Chunk) (s : string)
        (h' : Heap) (c' : Chunk) (p : Z) :
  strings_ok h c ->
  InternString h c s = (h', c', p) ->
  deref h' p = Some s
  /\ strings_ok h' c'
  /\ InternString h' c' s = (h', c', p)
  /\ (forall q t, deref h q = Some t -> deref h' q = Some t)
  /\ (forall t h2 c2 q, InternString h' c' t = (h2, c2, q) -> (q = p <-> t = s)).
Proof.
  intros Hok H.
  destruct (InternString_ok _ _ _ _ _ _ Hok H) as (Hd & Hs & Hok' & Hpre & _).
  split; [exact Hd |]. split; [exact Hok' |].
  split; [unfold InternString; rewrite Hs; reflexivity |].
  split; [intros q t; apply deref_prefix; exact Hpre |].
  intros t h2 c2 q H2.
  destruct (InternString_ok _ _ _ _ _ _ Hok' H2) as (Hd2 & _ & _ & Hpre2 & _).
  split.
  - intros ->. pose proof (deref_prefix _ _ _ _ Hpre2 Hd) as Hd'.
    rewrite Hd2 in Hd'. injection Hd' as ->. reflexivity.
  - intros ->. unfold InternString in H2. rewrite Hs in H2.
    injection H2 as _ _ <-. reflexivity.
Qed.

Lemma InternString_shares_equal_strings_witness :
  exists h' c' p,
    InternString [] NewChunk "x" = (h', c', p)
    /\ deref h' p = Some "x"
    /\ InternString h' c' "x" = (h', c', p).
Proof.
  eexists _, _, _. split; [reflexivity |].
  destruct (InternString_shares_equal_strings [] NewChunk "x" _ _ _
              (strings_ok_empty [] NewChunk eq_refl) eq_refl) as (H1 & _ & H3 & _).
  split; [exact H1 | exact H3].
Defined.

Lemma WriteBytes_spec (bytes : list Z) (line : Z) :
  forall c,
    Code (WriteBytes c bytes line) = Code c ++ bytes
    /\ Lines (WriteBytes c bytes line) = Lines c ++ repeat line (length bytes)
    /\ Constants (WriteBytes c bytes line) = Constants c
    /\ strings (WriteBytes c bytes line) = strings c.
Proof.
  unfold WriteBytes.
  induction bytes as [| b bytes IH]; intros c; cbn [fold_left length repeat].
  - rewrite !app_nil_r. auto.
  - destruct (IH (WriteByte c b line)) as (-> & -> & -> & ->). cbn.
    rewrite <- !app_assoc. auto.
Qed.

Lemma lookup_repeat_lt {A} (x : A) (n i : nat) :
  (i < n)%nat -> repeat x n !! i = Some x.
Proof.
  revert i. induction n as [| n IH]; intros i Hi; [lia |].
  destruct i as [| i]; [reflexivity |]. cbn. apply IH. lia.
Qed.

Lemma default_repeat {A} (x : A) (n i : nat) : default x (repeat x n !! i) = x.
Proof.
  revert i. induction n as [| n IH]; intros i; [reflexivity |].
  destruct i as [| i]; [reflexivity |]. apply IH.
Qed.

(** X9.  The line table follows the code.  In a chunk whose line table is as
    long as its code, [WriteBytes] appends the bytes in order and records the
    given line for each; [GetLine] then returns that line at each new offset,
    the old line at each old offset, and 0 at any offset outside the code. *)
Theorem GetLine_of_written_bytes (c : Chunk) (bytes : list Z) (line : Z) :
  length (Lines c) = length (Code c) ->
  let c' := WriteBytes c bytes line in
  Code c' = Code c ++ bytes
  /\ Count c' = Count c + Z.of_nat (length bytes)
  /\ length (Lines c') = length (Code c')
  /\ (forall offset, Count c <= offset < Count c' -> GetLine c' offset = line)
  /\ (forall offset, 0 <= offset < Count c -> GetLine c' offset = GetLine c offset)
  /\ (forall offset, offset < 0 \/ Count c' <= offset -> GetLine c' offset = 0).
Proof.
  intros Hlen c'. subst c'.
  destruct (WriteBytes_spec bytes line c) as (Hc & Hl & _ & _).
  unfold Count, GetLine. rewrite Hc, Hl, !length_app, repeat_length, Hlen.
  split; [reflexivity |]. split; [lia |]. split; [reflexivity |].
  split; [| split]; intros offset Ho.
  - destruct (Z.ltb_spec offset 0),
             (Z.leb_spec (Z.of_nat (length (Code c) + length bytes)) offset); try lia.
    cbn [orb]. rewrite lookup_app_r by lia.
    rewrite (lookup_repeat_lt line (length bytes)) by lia. reflexivity.
  - destruct (Z.ltb_spec offset 0),
             (Z.leb_spec (Z.of_nat (length (Code c) + length bytes)) offset),
             (Z.leb_spec (Z.of_nat (length (Code c))) offset); try lia.
    cbn [orb]. rewrite lookup_app_l by lia. reflexivity.
  - destruct (Z.ltb_spec offset 0),
             (Z.leb_spec (Z.of_nat (length (Code c) + length bytes)) offset); try lia;
      reflexivity.
Qed.

Lemma GetLine_of_written_bytes_witness :
  GetLine (WriteBytes NewChunk [1; 2; 3] 7) 2 = 7
  /\ GetLine (WriteBytes NewChunk [1; 2; 3] 7) 3 = 0.
Proof.
  destruct (GetLine_of_written_bytes NewChunk [1; 2; 3] 7 eq_refl)
    as (_ & _ & _ & H1 & _ & H2).
  split; [apply H1 | apply H2]; vm_compute; intuition discriminate.
Defined.

(* ===================================================================== *)
(** ** Defining and resolving symbols *)
(* ===================================================================== *)

Lemma Resolve_Define_same (st : SymbolTable) (name : string) :
  Resolve (fst (Define st name)) name = (snd (Define st name), true).
Proof.
  unfold Define. cbn [fst snd]. rewrite Resolve_unfold. cbn [store].
  rewrite lookup_insert_eq. reflexivity.
Qed.

Lemma Resolve_Define_other (st : SymbolTable) (name other : string) :
  other <> name -> Resolve (fst (Define st name)) other = Resolve st other.
Proof.
  intros Hne. unfold Define. cbn [fst].
  rewrite (Resolve_unfold st other), Resolve_unfold.
  cbn [store outer]. rewrite lookup_insert_ne by congruence. reflexivity.
Qed.

(** X10.  A name resolves to the symbol that [Define] returned for it: the
    symbol carries the name, the number of definitions made in the table so
    far as its index, and the scope global in a table without enclosing table
    and local otherwise.  The other names resolve as before.  Defining the
    same name again gives it the next index: a redefinition takes a new
    slot. *)
Theorem Define_then_Resolve (st : SymbolTable) (name : string) :
  let st' := fst (Define st name) in
  let symbol := snd (Define st name) in
  Resolve st' name = (symbol, true)
  /\ symbol = {| Name := name;
                 Scope := match outer st with
                          | None => SCOPE_GLOBAL
                          | Some _ => SCOPE_LOCAL
                          end;
                 Index := numDefinitions st |}
  /\ numDefinitions st' = numDefinitions st + 1
  /\ outer st' = outer st
  /\ (forall other, other <> name -> Resolve st' other = Resolve st other)
  /\ Index (snd (Define st' name)) = Index symbol + 1.
Proof.
  cbv zeta. split; [apply Resolve_Define_same |].
  split; [reflexivity |]. split; [reflexivity |]. split; [reflexivity |].
  split; [| reflexivity].
  intros other Hne. apply Resolve_Define_other. exact Hne.
Qed.

(** X11.  A fresh enclosed table shows every binding of the enclosing table.
    A name defined in it becomes its local number 0 and hides whatever the
    enclosing tables bind under that name; the other names still resolve
    through the enclosing table. *)
Theorem enclosed_table_shadows (o : SymbolTable) (name : string) :
  (forall other, Resolve (NewEnclosedSymbolTable o) other = Resolve o other)
  /\ let inner := fst (Define (NewEnclosedSymbolTable o) name) in
     Resolve inner name
     = ({| Name := name; Scope := SCOPE_LOCAL; Index := 0 |}, true)
     /\ (forall other, other <> name -> Resolve inner other = Resolve o other)
     /\ outer inner = Some o.
Proof.
  assert (H : forall other, Resolve (NewEnclosedSymbolTable o) other = Resolve o other).
  { intros other. rewrite Resolve_unfold. cbn [NewEnclosedSymbolTable store outer].
    rewrite lookup_empty. reflexivity. }
  split; [exact H |]. cbv zeta.
  split; [rewrite Resolve_Define_same; reflexivity |].
  split; [| reflexivity].
  intros other Hne. rewrite (Resolve_Define_other _ _ _ Hne). apply H.
Qed.

(* ===================================================================== *)
(** ** The helpers of the operand stack *)
(* ===================================================================== *)

(** X12.  Below the capacity of the stack, [push] stores the value and moves
    the top up by one, [peek 0] then reads that value, and [pop] returns it
    and restores the depth, with all other cells untouched; [pop] on an empty
    stack panics with "Stack underflow". *)
Theorem push_then_pop (vm : VM) (value : Value) :
  0 <= stackTop vm < STACK_MAX ->
  exists vm1 vm2,
    push vm value = Ok vm1
    /\ stackTop vm1 = stackTop vm + 1
    /\ peek vm1 0 = Ok value
    /\ pop vm1 = Ok (value, vm2)
    /\ stackTop vm2 = stackTop vm
    /\ (forall j, j <> stackTop vm -> stack vm2 !! j = stack vm !! j)
    /\ (stackTop vm = 0 -> pop vm = Panicked "Stack underflow").
Proof.
  intros Ht. unfold push, pop, peek.
  destruct (Z.leb_spec STACK_MAX (stackTop vm)); [lia |].
  destruct (stack_get_put_eq vm (stackTop vm) value Ht)
    as (vm0 & -> & Hs & Htop & _).
  cbn [bind]. rewrite Htop.
  exists (set_stackTop vm0 (stackTop vm + 1)), (set_stackTop vm0 (stackTop vm)).
  split; [reflexivity |].
  cbn [stackTop stack set_stackTop].
  split; [reflexivity |].
  replace (stackTop vm + 1 - 1 - 0) with (stackTop vm) by lia.
  replace (stackTop vm + 1 - 1) with (stackTop vm) by lia.
  assert (Hg : forall t, stack_get (set_stackTop vm0 t) (stackTop vm) = Ok value).
  { intros t. rewrite stack_get_lookup by exact Ht. cbn [stack set_stackTop].
    rewrite Hs, lookup_insert_eq. reflexivity. }
  split; [apply Hg |].
  destruct (Z.leb_spec (stackTop vm + 1) 0); [lia |].
  split.
  { change (stack_get (set_stackTop (set_stackTop vm0 (stackTop vm + 1)) (stackTop vm))
                      (stackTop vm))
      with (stack_get (set_stackTop vm0 (stackTop vm)) (stackTop vm)).
    rewrite Hg. reflexivity. }
  split; [reflexivity |].
  split; [intros j Hj; rewrite Hs; apply lookup_insert_ne; congruence |].
  intros ->. reflexivity.
Qed.

Lemma push_then_pop_witness :
  exists vm1 vm2,
    push (NewVM []) (NewInt 3) = Ok vm1 /\ pop vm1 = Ok (NewInt 3, vm2)
    /\ stackTop vm2 = 0
    /\ pop (NewVM []) = Panicked "Stack underflow".
Proof.
  destruct (push_then_pop (NewVM []) (NewInt 3))
    as (vm1 & vm2 & H1 & _ & _ & H2 & H3 & _ & H4).
  - vm_compute. split; [discriminate | reflexivity].
  - exists vm1, vm2. split; [exact H1 |]. split; [exact H2 |].
    split; [exact H3 | apply H4; reflexivity].
Defined.

(* ===================================================================== *)
(** ** Instructions of the dispatch loop *)
(* ===================================================================== *)

(** The line that [runtimeError] reports is the one [GetLine] gives for the
    byte before the instruction pointer. *)
Lemma runtimeError_GetLine (vm : VM) (message : string) :
  runtimeError vm message = error_text message (GetLine (chunk vm) (ip vm - 1)).
Proof.
  unfold runtimeError, GetLine. f_equal.
  destruct (Z.ltb_spec 0 (ip vm)),
           (Z.leb_spec (ip vm) (Z.of_nat (length (Lines (chunk vm))))),
           (Z.ltb_spec (ip vm - 1) 0),
           (Z.leb_spec (Z.of_nat (length (Lines (chunk vm)))) (ip vm - 1));
    try lia; reflexivity.
Qed.

Lemma pop2_at (vm : VM) (i : Z) (a b : Value) :
  stack_get vm (stackTop vm - 1) = Ok b ->
  stack_get vm (stackTop vm - 2) = Ok a ->
  pop2 (set_ip vm i) = Ok (a, b, set_stackTop (set_ip vm i) (stackTop vm - 2)).
Proof.
  intros Hb Ha. unfold pop2.
  change (stack_get (set_ip vm i) (stackTop (set_ip vm i) - 1))
    with (stack_get vm (stackTop vm - 1)).
  change (stack_get (set_ip vm i) (stackTop (set_ip vm i) - 2))
    with (stack_get vm (stackTop vm - 2)).
  rewrite Hb, Ha. reflexivity.
Qed.

Lemma fail_after_operands (vm : VM) (message : string) :
  fail (after_operands vm) message
  = Ok (Finished NewNothing
          (Some (error_text message (GetLine (chunk vm) (ip vm))))
          (after_operands vm)).
Proof.
  unfold fail. rewrite runtimeError_GetLine.
  cbn [after_operands ip chunk set_stackTop set_ip].
  replace (ip vm + 1 - 1) with (ip vm) by lia. reflexivity.
Qed.

Lemma IsString_not_IsInt (v : Value) : IsString v = true -> IsInt v = false.
Proof.
  unfold IsString, IsInt. intros H. apply Z.eqb_eq in H. rewrite H. reflexivity.
Qed.

(** The result of a binary operator lands where its first operand was. *)
Lemma push_after_operands (vm : VM) (a r : Value) :
  stack_get vm (stackTop vm - 2) = Ok a ->
  exists vm',
    push_continue (after_operands vm) r = Ok (Continue vm')
    /\ stackTop vm' = stackTop vm - 1
    /\ ip vm' = ip vm + 1
    /\ stack_get vm' (stackTop vm - 2) = Ok r
    /\ (forall j, j <> stackTop vm - 2 -> stack vm' !! j = stack vm !! j)
    /\ globals vm' = globals vm /\ out vm' = out vm
    /\ chunk vm' = chunk vm /\ vm_heap vm' = vm_heap vm.
Proof.
  intros Ha. pose proof (stack_get_range _ _ _ Ha) as Hr.
  destruct (push_continue_ok (after_operands vm) r)
    as (vm' & Hpc & Hs & Htop & Hg & Hc & Hip & Hh & Ho & _); [cbn; lia |].
  cbn in Hs, Htop, Hg, Hc, Hip, Hh, Ho.
  exists vm'. split; [exact Hpc |]. split; [lia |]. split; [exact Hip |].
  split; [rewrite stack_get_lookup by lia; rewrite Hs, lookup_insert_eq; reflexivity |].
  split; [intros j Hj; rewrite Hs; apply lookup_insert_ne; congruence |].
  auto.
Qed.

(** X13.  Type errors of the binary operators.  [-], [*], [/], [>] and [<]
    applied to two values that are not both integers, and [+] applied to two
    values that are neither both integers nor one of them a string, end the
    run with the error "I no fit <verb> <type> and <type>", naming the types
    of the left and of the right operand, with the line of the instruction;
    no value is produced and the two operands are off the stack. *)
Theorem binary_operator_type_error (vm : VM) (op : Opcode) (a b : Value) :
  slice_at (Code (chunk vm)) (ip vm) = Some (Opcode_byte op) ->
  In op [OP_ADD; OP_SUB; OP_MUL; OP_DIV; OP_GREATER; OP_LESS] ->
  stack_get vm (stackTop vm - 1) = Ok b ->
  stack_get vm (stackTop vm - 2) = Ok a ->
  IsInt a && IsInt b = false ->
  (op = OP_ADD -> IsString a || IsString b = false) ->
  step vm
  = Ok (Finished NewNothing
          (Some (error_text
                   ("I no fit " +:+ type_error_verb op +:+ " " +:+ TypeName a
                    +:+ " and " +:+ TypeName b)
                   (GetLine (chunk vm) (ip vm))))
          (after_operands vm)).
Proof.
  intros Hop Hin Hb Ha Hint Hstr.
  unfold step. rewrite (readByte_at _ _ Hop). cbn [bind].
  rewrite Opcode_of_byte_byte.
  assert (Hor : negb (IsInt a) || negb (IsInt b) = true)
    by (destruct (IsInt a), (IsInt b); try discriminate Hint; reflexivity).
  cbn in Hin.
  destruct Hin as [<- | [<- | [<- | [<- | [<- | [<- | []]]]]]];
    rewrite (pop2_at vm _ a b Hb Ha); cbn [bind];
    rewrite ?Hint, ?Hor, ?(Hstr eq_refl);
    fold (after_operands vm); rewrite <- fail_after_operands; reflexivity.
Qed.

Lemma binary_operator_type_error_witness :
  step type_error_vm
  = Ok (Finished NewNothing
          (Some (error_text "I no fit subtract number and boolean" 4))
          (after_operands type_error_vm)).
Proof.
  rewrite (binary_operator_type_error type_error_vm OP_SUB (NewInt 5) (NewBool true));
    try reflexivity.
  cbn. auto.
Defined.

Lemma AsInt_range (v : Value) : - 2 ^ 47 <= AsInt v < 2 ^ 47.
Proof.
  unfold AsInt.
  assert (Hm : 0 <= Z.land v PAYLOAD_MASK < 2 ^ 48).
  { rewrite PAYLOAD_MASK_ones, Z.land_ones by lia. apply Z.mod_pos_bound. lia. }
  assert (H64 : to_int64 (Z.land v PAYLOAD_MASK) = Z.land v PAYLOAD_MASK).
  { unfold to_int64. rewrite Z.mod_small; lia. }
  cbv zeta. rewrite H64, sign_bit_test by exact Hm.
  destruct (Z.ltb_spec (Z.land v PAYLOAD_MASK) (2 ^ 47)); cbn [negb].
  - lia.
  - rewrite lor_sign_extend by exact Hm. lia.
Qed.

Lemma quot_bound (x y m : Z) :
  y <> 0 -> Z.abs x <= Z.abs y * m -> 0 <= m -> Z.abs (Z.quot x y) <= m.
Proof.
  intros Hy Hx Hm. rewrite Z.quot_div by exact Hy.
  assert (Hq : 0 <= Z.abs x / Z.abs y <= m).
  { split; [apply Z.div_pos; lia |].
    apply Z.div_le_upper_bound; lia. }
  destruct (Z.sgn_spec x) as [[_ ->] | [[_ ->] | [_ ->]]],
           (Z.sgn_spec y) as [[_ ->] | [[_ ->] | [_ ->]]]; lia.
Qed.

(** The quotient of two 48-bit integers is a 48-bit integer, but for the
    least one divided by -1. *)
Lemma quot_48 (x y : Z) :
  - 2 ^ 47 <= x < 2 ^ 47 -> - 2 ^ 47 <= y < 2 ^ 47 -> y <> 0 ->
  x <> - 2 ^ 47 \/ y <> -1 ->
  - 2 ^ 47 <= Z.quot x y < 2 ^ 47.
Proof.
  intros Hx Hy Hy0 Hedge.
  destruct (Z.eq_dec x (- 2 ^ 47)) as [-> | Hx'].
  - destruct Hedge as [Hn | Hn]; [contradiction |].
    destruct (Z.eq_dec y 1) as [-> | Hy1]; [rewrite Z.quot_1_r; lia |].
    assert (H : Z.abs (Z.quot (- 2 ^ 47) y) <= 2 ^ 46)
      by (apply quot_bound; lia).
    lia.
  - assert (H : Z.abs (Z.quot x y) <= 2 ^ 47 - 1) by (apply quot_bound; nia).
    lia.
Qed.

(** X14.  Integer division.  Dividing by zero ends the run with the error
    "I no fit divide by zero o!" and the line of the instruction.  Otherwise
    [/] replaces its two operands by their quotient rounded toward zero,
    wrapped into 48 bits; the wrap only shows for the least integer divided
    by -1. *)
Theorem division_truncates_toward_zero (vm : VM) (a b : Value) :
  slice_at (Code (chunk vm)) (ip vm) = Some (Opcode_byte OP_DIV) ->
  stack_get vm (stackTop vm - 1) = Ok b ->
  stack_get vm (stackTop vm - 2) = Ok a ->
  IsInt a = true -> IsInt b = true ->
  (AsInt b = 0 ->
   step vm
   = Ok (Finished NewNothing
           (Some (error_text "I no fit divide by zero o!"
                             (GetLine (chunk vm) (ip vm))))
           (after_operands vm)))
  /\ (AsInt b <> 0 ->
      exists vm' r,
        step vm = Ok (Continue vm')
        /\ stackTop vm' = stackTop vm - 1
        /\ stack_get vm' (stackTop vm - 2) = Ok r
        /\ IsInt r = true
        /\ AsInt r = wrap48 (Z.quot (AsInt a) (AsInt b))
        /\ (AsInt a <> MIN_INT_48 \/ AsInt b <> -1 ->
            AsInt r = Z.quot (AsInt a) (AsInt b))).
Proof.
  intros Hop Hb Ha Hia Hib.
  unfold step. rewrite (readByte_at _ _ Hop). cbn [bind].
  rewrite Opcode_of_byte_byte, (pop2_at vm _ a b Hb Ha). cbn [bind].
  rewrite Hia, Hib. cbn [negb orb]. fold (after_operands vm).
  split; intros Hz.
  - rewrite Hz. cbn [Z.eqb]. apply fail_after_operands.
  - destruct (Z.eqb_spec (AsInt b) 0) as [| _]; [contradiction |].
    destruct (push_after_operands vm a
                (NewInt (to_int64 (Z.quot (AsInt a) (AsInt b)))) Ha)
      as (vm' & Hpc & Htop & _ & Hget & _).
    exists vm', (NewInt (to_int64 (Z.quot (AsInt a) (AsInt b)))).
    split; [exact Hpc |]. split; [exact Htop |]. split; [exact Hget |].
    split; [apply IsInt_NewInt |].
    rewrite AsInt_NewInt, wrap48_to_int64. split; [reflexivity |].
    intros Hedge. apply wrap48_small.
    pose proof (AsInt_range a) as Hra. pose proof (AsInt_range b) as Hrb.
    unfold MIN_INT_48 in Hedge.
    apply quot_48; assumption.
Qed.

Lemma division_truncates_toward_zero_witness :
  exists vm' r,
    step division_vm = Ok (Continue vm')
    /\ stack_get vm' 0 = Ok r
    /\ AsInt r = -3.
Proof.
  destruct (division_truncates_toward_zero division_vm (NewInt (-7)) (NewInt 2))
    as [_ H]; try reflexivity.
  destruct H as (vm' & r & H1 & _ & H2 & _ & _ & H3); [vm_compute; discriminate |].
  exists vm', r. split; [exact H1 |]. split; [exact H2 |].
  rewrite H3; [reflexivity | left; vm_compute; discriminate].
Defined.

(** X15.  Comparisons of integers.  [==], [!=], [>] and [<] replace two
    integer operands by the boolean that compares their 48-bit values:
    equality, its negation, left greater than right, left less than right. *)
Theorem comparison_of_integers (vm : VM) (op : Opcode) (x y : Z) :
  slice_at (Code (chunk vm)) (ip vm) = Some (Opcode_byte op) ->
  In op [OP_EQUAL; OP_NOT_EQUAL; OP_GREATER; OP_LESS] ->
  stack_get vm (stackTop vm - 1) = Ok (NewInt y) ->
  stack_get vm (stackTop vm - 2) = Ok (NewInt x) ->
  exists vm',
    step vm = Ok (Continue vm')
    /\ stackTop vm' = stackTop vm - 1
    /\ ip vm' = ip vm + 1
    /\ stack_get vm' (stackTop vm - 2)
       = Ok (NewBool (compare_result op (wrap48 x) (wrap48 y))).
Proof.
  intros Hop Hin Hb Ha.
  unfold step. rewrite (readByte_at _ _ Hop). cbn [bind].
  rewrite Opcode_of_byte_byte.
  assert (Heq : Equals_res (vm_heap (after_operands vm)) (NewInt x) (NewInt y)
                = Ok (wrap48 x =? wrap48 y)).
  { unfold Equals_res. rewrite Equals_NewInt. reflexivity. }
  assert (Hpush : forall r, exists vm',
             push_continue (after_operands vm) r = Ok (Continue vm')
             /\ stackTop vm' = stackTop vm - 1
             /\ ip vm' = ip vm + 1
             /\ stack_get vm' (stackTop vm - 2) = Ok r).
  { intros r. destruct (push_after_operands vm (NewInt x) r Ha)
      as (vm' & Hpc & Htop & Hip & Hget & _). exists vm'. auto. }
  cbn in Hin.
  destruct Hin as [<- | [<- | [<- | [<- | []]]]];
    rewrite (pop2_at vm _ _ _ Hb Ha); cbn [bind]; fold (after_operands vm);
    rewrite ?Heq, ?IsInt_NewInt, ?AsInt_NewInt; cbn [bind negb orb compare_result];
    apply Hpush.
Qed.

Lemma comparison_of_integers_witness :
  exists vm',
    step comparison_vm = Ok (Continue vm')
    /\ stack_get vm' 0 = Ok (NewBool true).
Proof.
  destruct (comparison_of_integers comparison_vm OP_GREATER 3 (-4))
    as (vm' & H1 & _ & _ & H2); try reflexivity.
  - cbn. auto.
  - exists vm'. split; [exact H1 | exact H2].
Defined.

Lemma Value_String_prefix (h h' : Heap) (v : Value) (s : string) :
  h `prefix_of` h' -> Value_String h v = Some s -> Value_String h' v = Some s.
Proof.
  intros Hp. unfold Value_String. cbv zeta.
  repeat match goal with
         | |- (if ?b then _ else _) = _ -> _ => destruct b; try (intros H; exact H)
         end.
  apply deref_prefix. exact Hp.
Qed.

(** X16.  [+] with a string operand concatenates.  When one operand at least
    is a string, [+] replaces the two operands by a string whose text is the
    printed form of the left operand followed by that of the right one (so an
    integer added to a string is printed in decimal); the result is interned
    in the chunk, whose intern table stays sound, and all texts readable
    before are still readable. *)
Theorem addition_concatenates_strings (vm : VM) (a b : Value) (sa sb : string) :
  slice_at (Code (chunk vm)) (ip vm) = Some (Opcode_byte OP_ADD) ->
  stack_get vm (stackTop vm - 1) = Ok b ->
  stack_get vm (stackTop vm - 2) = Ok a ->
  IsString a || IsString b = true ->
  Value_String (vm_heap vm) a = Some sa ->
  Value_String (vm_heap vm) b = Some sb ->
  strings_ok (vm_heap vm) (chunk vm) ->
  Z.of_nat (length (vm_heap vm)) + 1 < 2 ^ 48 ->
  exists vm' r,
    step vm = Ok (Continue vm')
    /\ stackTop vm' = stackTop vm - 1
    /\ stack_get vm' (stackTop vm - 2) = Ok r
    /\ IsString r = true
    /\ Value_String (vm_heap vm') r = Some (sa +:+ sb)
    /\ strings_ok (vm_heap vm') (chunk vm')
    /\ (forall v s, Value_String (vm_heap vm) v = Some s ->
                    Value_String (vm_heap vm') v = Some s)
    /\ globals vm' = globals vm /\ out vm' = out vm.
Proof.
  intros Hop Hb Ha Hstr Hsa Hsb Hok Hsize.
  unfold step. rewrite (readByte_at _ _ Hop). cbn [bind].
  rewrite Opcode_of_byte_byte, (pop2_at vm _ a b Hb Ha). cbn [bind].
  assert (Hint : IsInt a && IsInt b = false).
  { destruct (IsString a) eqn:Ea.
    - rewrite (IsString_not_IsInt a Ea). reflexivity.
    - cbn [orb] in Hstr. rewrite (IsString_not_IsInt b Hstr). apply andb_false_r. }
  rewrite Hint, Hstr. unfold String_res.
  cbn [vm_heap set_stackTop set_ip chunk]. rewrite Hsa, Hsb. cbn [bind].
  destruct (InternString (vm_heap vm) (chunk vm) (sa +:+ sb)) as [[h' c'] p] eqn:Hi.
  destruct (InternString_ok _ _ _ _ _ _ Hok Hi) as (Hd & _ & Hok' & Hpre & _).
  pose proof (stack_get_range _ _ _ Ha) as Hr.
  match goal with
  | |- context [push_continue ?st ?r] =>
      destruct (push_continue_ok st r)
        as (vm' & Hpc & Hs & Htop & Hg & Hc & Hip & Hh & Ho & _); [cbn; lia |]
  end.
  cbn in Hs, Htop, Hg, Hc, Hip, Hh, Ho.
  exists vm', (NewString p). split; [exact Hpc |]. split; [lia |].
  split; [rewrite stack_get_lookup by lia; rewrite Hs, lookup_insert_eq; reflexivity |].
  assert (Hp : 0 <= p < 2 ^ 48).
  { pose proof (deref_bound _ _ _ Hd) as Hb'.
    assert (length h' <= length (vm_heap vm) + 1)%nat.
    { unfold InternString in Hi. destruct (strings (chunk vm) !! (sa +:+ sb)).
      - injection Hi as <- _ _. lia.
      - cbn in Hi. injection Hi as <- _ _. rewrite length_app. cbn [length]. lia. }
    lia. }
  pose proof (AsString_NewString p Hp) as Has.
  split; [unfold IsString; rewrite GetTag_NewString; reflexivity |].
  split.
  { unfold Value_String. cbv zeta. rewrite GetTag_NewString.
    cbn [Z.eqb TAG_STRING TAG_INT TAG_BOOL TAG_NOTHING].
    rewrite Has, Hh. exact Hd. }
  rewrite Hh, Hc, Hg, Ho.
  split; [exact Hok' |].
  split; [intros v s; apply Value_String_prefix; exact Hpre | auto].
Qed.

Lemma addition_concatenates_strings_witness :
  exists vm' r,
    step concat_vm = Ok (Continue vm')
    /\ stack_get vm' 0 = Ok r
    /\ Value_String (vm_heap vm') r = Some "a2".
Proof.
  destruct (addition_concatenates_strings concat_vm (NewString 1) (NewInt 2) "a" "2")
    as (vm' & r & H1 & _ & H2 & _ & H3 & _); try reflexivity.
  - apply strings_ok_empty. reflexivity.
  - exists vm', r. auto.
Defined.

(** X17.  Reading a global that was never set ends the run with the error
    "I no sabi dis one: <name>" and the line of the instruction; nothing is
    pushed. *)
Theorem undefined_global_is_a_runtime_error (vm : VM) (b1 b2 : Z) (name : string) :
  slice_at (Code (chunk vm)) (ip vm) = Some (Opcode_byte OP_GET_GLOBAL) ->
  slice_at (Code (chunk vm)) (ip vm + 1) = Some b1 ->
  slice_at (Code (chunk vm)) (ip vm + 2) = Some b2 ->
  constant_name vm (short_of_bytes b1 b2) = Ok name ->
  globals vm !! name = None ->
  step vm
  = Ok (Finished NewNothing
          (Some (error_text ("I no sabi dis one: " +:+ name)
                            (GetLine (chunk vm) (ip vm + 2))))
          (set_ip vm (ip vm + 3))).
Proof.
  intros Hop H1 H2 Hname Hg.
  unfold step. rewrite (readByte_at _ _ Hop). cbn [bind].
  rewrite Opcode_of_byte_byte.
  rewrite (readShort_at (set_ip vm (ip vm + 1)) b1 b2)
    by (cbn; rewrite <- ?Z.add_assoc; assumption).
  cbn [bind].
  change (constant_name (set_ip (set_ip vm (ip vm + 1)) (ip (set_ip vm (ip vm + 1)) + 2))
                        (short_of_bytes b1 b2))
    with (constant_name vm (short_of_bytes b1 b2)).
  rewrite Hname. cbn [bind globals set_ip]. rewrite Hg.
  unfold fail. rewrite runtimeError_GetLine. cbn [ip chunk set_ip].
  replace (ip vm + 1 + 2 - 1) with (ip vm + 2) by lia.
  replace (ip vm + 1 + 2) with (ip vm + 3) by lia. reflexivity.
Qed.

Lemma undefined_global_is_a_runtime_error_witness :
  step undefined_global_vm
  = Ok (Finished NewNothing (Some (error_text "I no sabi dis one: x" 3))
          (set_ip undefined_global_vm 3)).
Proof.
  apply (undefined_global_is_a_runtime_error undefined_global_vm 0 0 "x");
    reflexivity.
Defined.

Lemma append_assoc (a b c : string) : (a +:+ b) +:+ c = a +:+ (b +:+ c).
Proof.
  induction a as [| x a IH]; [reflexivity |].
  change (String x ((a +:+ b) +:+ c) = String x (a +:+ (b +:+ c))).
  f_equal. exact IH.
Qed.

Lemma append_nil_r (a : string) : a +:+ "" = a.
Proof.
  induction a as [| x a IH]; [reflexivity |].
  change (String x (a +:+ "") = String x a). f_equal. exact IH.
Qed.

Lemma print_print (vm : VM) (s t : string) :
  print (print vm s) t = print vm (s +:+ t).
Proof.
  unfold print. cbn [stack stackTop frameCount globals chunk ip vm_heap out].
  rewrite append_assoc. reflexivity.
Qed.

Lemma print_nil (vm : VM) : print vm "" = vm.
Proof.
  destruct vm as [st top fc gl ch i hp o]. unfold print.
  cbn [stack stackTop frameCount globals chunk ip vm_heap out].
  rewrite append_nil_r. reflexivity.
Qed.

Lemma yarn_args_prints (argCount : Z) (vs : list Value) :
  forall (strs : list string) (vm : VM) (i : Z),
    0 <= i ->
    (forall k v, vs !! k = Some v ->
                 stack_get vm (stackTop vm - argCount + i + Z.of_nat k) = Ok v) ->
    Forall2 (fun v s => Value_String (vm_heap vm) v = Some s) vs strs ->
    yarn_args vm argCount i (length vs) = Ok (print vm (texts strs)).
Proof.
  induction vs as [| v vs IH]; intros strs vm i Hi Hget Hstr.
  - inversion Hstr; subst. cbn. rewrite print_nil. reflexivity.
  - inversion Hstr as [| v' s vs' strs' Hv Hrest]; subst.
    cbn [length yarn_args].
    pose proof (Hget 0%nat v eq_refl) as H0. rewrite Z.add_0_r in H0.
    rewrite H0. cbn [bind]. unfold String_res. rewrite Hv. cbn [bind].
    rewrite (IH strs' (print vm s) (i + 1)).
    + rewrite print_print. reflexivity.
    + lia.
    + intros k w Hk. pose proof (Hget (S k) w Hk) as Hk'.
      unfold stack_get in *. cbn [stack stackTop print].
      replace (stackTop vm - argCount + (i + 1) + Z.of_nat k)
        with (stackTop vm - argCount + i + Z.of_nat (S k)) by lia.
      exact Hk'.
    + exact Hrest.
Qed.

(** X18.  [yarn] prints its arguments.  [OP_YARN] with argument count [n]
    writes the printed forms of the [n] topmost values, lowest first, with
    nothing between them, then a newline; it takes the [n] values off the
    stack and pushes [nothing].  With no argument it writes the newline
    alone. *)
Theorem yarn_prints_its_arguments (vm : VM) (vs : list Value) (strs : list string) :
  let n := Z.of_nat (length vs) in
  slice_at (Code (chunk vm)) (ip vm) = Some (Opcode_byte OP_YARN) ->
  slice_at (Code (chunk vm)) (ip vm + 1) = Some n ->
  (forall k v, vs !! k = Some v ->
               stack_get vm (stackTop vm - n + Z.of_nat k) = Ok v) ->
  Forall2 (fun v s => Value_String (vm_heap vm) v = Some s) vs strs ->
  0 <= stackTop vm - n < STACK_MAX ->
  exists vm',
    step vm = Ok (Continue vm')
    /\ out vm' = out vm +:+ texts strs +:+ newline
    /\ stackTop vm' = stackTop vm - n + 1
    /\ stack_get vm' (stackTop vm - n) = Ok NewNothing
    /\ (forall j, j <> stackTop vm - n -> stack vm' !! j = stack vm !! j)
    /\ ip vm' = ip vm + 2
    /\ globals vm' = globals vm.
Proof.
  intros n Hop Hn Hget Hstr Htop.
  unfold step. rewrite (readByte_at _ _ Hop). cbn [bind].
  rewrite Opcode_of_byte_byte.
  rewrite (readByte_at (set_ip vm (ip vm + 1)) n) by exact Hn. cbn [bind].
  subst n. rewrite Nat2Z.id.
  rewrite (yarn_args_prints _ vs strs); [| lia | | exact Hstr].
  2: { intros k v Hk. rewrite Z.add_0_r. exact (Hget k v Hk). }
  cbn [bind].
  match goal with
  | |- context [push_continue ?st ?r] =>
      destruct (push_continue_ok st r)
        as (vm' & Hpc & Hs & Htop' & Hg & Hc & Hip & Hh & Ho & _); [cbn; lia |]
  end.
  cbn in Hs, Htop', Hg, Hc, Hip, Hh, Ho.
  exists vm'. split; [exact Hpc |].
  split; [rewrite Ho, append_assoc; reflexivity |].
  split; [exact Htop' |].
  split; [rewrite stack_get_lookup by lia; rewrite Hs, lookup_insert_eq; reflexivity |].
  split; [intros j Hj; rewrite Hs; apply lookup_insert_ne; congruence |].
  split; [rewrite Hip; lia | exact Hg].
Qed.

Lemma yarn_prints_its_arguments_witness :
  exists vm',
    step yarn_vm = Ok (Continue vm')
    /\ out vm' = ">" +:+ "trunothing" +:+ newline
    /\ stackTop vm' = 2.
Proof.
  destruct (yarn_prints_its_arguments yarn_vm [NewBool true; NewNothing]
              ["tru"; "nothing"]) as (vm' & H1 & H2 & H3 & _); try reflexivity.
  - intros [| [| k]] v Hk; try discriminate Hk; injection Hk as <-; reflexivity.
  - repeat constructor.
  - vm_compute. split; [discriminate | reflexivity].
  - exists vm'. auto.
Defined.

(** X19.  The dispatch loop and the operand table agree.  Every instruction
    other than the four jumps that runs without ending the program leaves the
    instruction pointer behind its last operand byte: one byte for the
    opcode, then as many as [GetOperandCount] gives for it. *)
Theorem instruction_length_matches_operand_count (vm vm' : VM) (op : Opcode) :
  slice_at (Code (chunk vm)) (ip vm) = Some (Opcode_byte op) ->
  step vm = Ok (Continue vm') ->
  ~ In op [OP_JUMP; OP_JUMP_IF_LIE; OP_JUMP_IF_TRU; OP_LOOP] ->
  ip vm' = ip vm + 1 + GetOperandCount op.
Proof.
  intros Hop H Hnj. unfold step in H.
  rewrite (readByte_at _ _ Hop) in H. cbn [bind] in H.
  rewrite Opcode_of_byte_byte in H.
  destruct op; cbn [In] in Hnj; try (exfalso; tauto); clear Hnj;
    cbn [GetOperandCount OpcodeOperandCount].
  all: ip_case H.
  all: try (injection H as <-).
  all: try discriminate.
  all: unfold fail in *; try discriminate.
  all: cbn in *.
  all: repeat match goal with H : _ /\ _ |- _ => destruct H end; try lia.
Qed.

Lemma instruction_length_matches_operand_count_witness :
  exists vm', step effect_vm = Ok (Continue vm') /\ ip vm' = 3.
Proof.
  eexists. split; [reflexivity |].
  apply (instruction_length_matches_operand_count effect_vm _ OP_CONST_I16);
    [reflexivity | reflexivity |].
  cbn. intros [H | [H | [H | [H | []]]]]; discriminate H.
Defined.

(** X20.  The effect of each instruction on the depth of the stack.  An
    instruction that runs without ending the program changes the depth by a
    fixed amount: the constants, [OP_DUP] and [OP_GET_GLOBAL] add one value;
    the binary operators, [OP_POP] and the two conditional jumps remove one;
    [OP_YARN] with argument count [n] removes [n] and adds one; [OP_NEGATE],
    [OP_NOT], [OP_SET_GLOBAL], [OP_JUMP] and [OP_LOOP] leave it as it is. *)
Theorem instruction_stack_effect (vm vm' : VM) (op : Opcode) (operand : Z) :
  slice_at (Code (chunk vm)) (ip vm) = Some (Opcode_byte op) ->
  (op = OP_YARN -> slice_at (Code (chunk vm)) (ip vm + 1) = Some operand) ->
  step vm = Ok (Continue vm') ->
  stackTop vm' = stackTop vm + stack_effect op operand.
Proof.
  intros Hop Hy H. unfold step in H.
  rewrite (readByte_at _ _ Hop) in H. cbn [bind] in H.
  rewrite Opcode_of_byte_byte in H.
  destruct op; cbn [stack_effect];
    try (rewrite (readByte_at (set_ip vm (ip vm + 1)) operand (Hy eq_refl)) in H;
         cbn [bind] in H);
    clear Hy.
  all: ip_case H.
  all: try (injection H as <-).
  all: try discriminate.
  all: unfold fail in *; try discriminate.
  all: cbn in *.
  all: repeat match goal with H : _ /\ _ |- _ => destruct H end; try lia.
Qed.

Lemma instruction_stack_effect_witness :
  exists vm', step effect_vm = Ok (Continue vm') /\ stackTop vm' = 3.
Proof.
  eexists. split; [reflexivity |].
  apply (instruction_stack_effect effect_vm _ OP_CONST_I16 0);
    [reflexivity | discriminate | reflexivity].
Defined.

(* ===================================================================== *)
(** ** What compilation preserves *)
(* ===================================================================== *)

(** A relation that holds across each primitive the compiler changes its
    state with holds across the compilation of every expression, statement,
    block and program. *)
Section Compile_invariant.
Variable R : Compiler -> Compiler -> Prop.
Hypothesis R_refl : forall c, R c c.
Hypothesis R_trans : forall a b c, R a b -> R b c -> R a c.
Hypothesis R_append : forall c bytes, R c (append_code c bytes).
Hypothesis R_addConstant :
  forall c v c' i, addConstant c v = Ok (c', i) -> R c c'.
Hypothesis R_internString :
  forall c s c' p, internString c s = (c', p) -> R c c'.
Hypothesis R_patchJump : forall c off c', patchJump c off = Ok c' -> R c c'.
Hypothesis R_define :
  forall c name,
    snd (Resolve (c_symbolTable c) name) = false ->
    R c (with_symbolTable c (fst (Define (c_symbolTable c) name))).

Lemma R_emit c op : R c (emit c op).
Proof. rewrite emit_append. apply R_append. Qed.

Lemma R_emitByte c op b : R c (emitByte c op b).
Proof. rewrite emitByte_append. apply R_append. Qed.

Lemma R_emitShort c op w : R c (emitShort c op w).
Proof. rewrite emitShort_append. apply R_append. Qed.

Lemma R_emitBytes c op bs : R c (emitBytes c op bs).
Proof. rewrite emitBytes_append. apply R_append. Qed.

Lemma R_emitJump c op c' j : emitJump c op = (c', j) -> R c c'.
Proof. intros H. apply emitJump_spec in H as [-> _]. apply R_append. Qed.

Lemma R_emitLoop c ls c' : emitLoop c ls = Ok c' -> R c c'.
Proof. intros H. apply emitLoop_spec in H as (o & _ & _ & ->). apply R_append. Qed.

Lemma R_emitCall c n : R c (emitCall c n).
Proof.
  unfold emitCall.
  repeat match goal with
         | |- context [if ?b then _ else _] => destruct b
         end; auto using R_emit, R_emitByte.
Qed.

Ltac emitted_tac :=
  auto using R_refl, R_emit, R_emitByte, R_emitShort, R_emitBytes, R_emitCall.

Lemma R_compileIntegerLiteral c v c' : compileIntegerLiteral c v = Ok c' -> R c c'.
Proof.
  unfold compileIntegerLiteral. intros H. split_ifs H;
    try (injection H as <-; emitted_tac).
  inv_bind H. destruct a as [c1 idx]. injection H as <-.
  eapply R_trans; [apply (R_addConstant _ _ _ _ E) | emitted_tac].
Qed.

Lemma R_compileStringLiteral c v c' : compileStringLiteral c v = Ok c' -> R c c'.
Proof.
  unfold compileStringLiteral. intros H.
  destruct (internString c v) as [c1 p] eqn:E1.
  inv_bind H. destruct a as [c2 idx]. injection H as <-.
  eapply R_trans; [apply (R_internString _ _ _ _ E1) |].
  eapply R_trans; [apply (R_addConstant _ _ _ _ E) | emitted_tac].
Qed.

Lemma R_compileBooleanLiteral c v c' : compileBooleanLiteral c v = Ok c' -> R c c'.
Proof.
  unfold compileBooleanLiteral. intros H. destruct v; injection H as <-; emitted_tac.
Qed.

Lemma R_compileIdentifier c v c' : compileIdentifier c v = Ok c' -> R c c'.
Proof.
  unfold compileIdentifier. intros H.
  destruct (Resolve (c_symbolTable c) v) as [symbol ok].
  destruct ok; cbn [negb] in H; [| discriminate].
  destruct (Scope symbol).
  - destruct (internString c v) as [c1 p] eqn:E1.
    inv_bind H. destruct a as [c2 idx]. injection H as <-.
    eapply R_trans; [apply (R_internString _ _ _ _ E1) |].
    eapply R_trans; [apply (R_addConstant _ _ _ _ E) | emitted_tac].
  - split_ifs H; injection H as <-; emitted_tac.
  - discriminate.
  - inv_bind H. destruct a as [c2 idx]. injection H as <-.
    eapply R_trans; [apply (R_addConstant _ _ _ _ E) | emitted_tac].
Qed.

Lemma R_compileMakeBinding c name c' : compileMakeBinding c name = Ok c' -> R c c'.
Proof.
  unfold compileMakeBinding. intros H.
  pose proof (R_define c name) as Hd.
  destruct (Resolve (c_symbolTable c) name) as [symbol ex].
  destruct (c_scopeDepth c =? 0).
  - match type of H with
    | (let '(_, _) := internString ?c0 _ in _) = _ =>
        assert (Hc0 : R c c0)
          by (destruct ex; [apply R_refl | apply (Hd eq_refl)]);
        destruct (internString c0 name) as [c1 p] eqn:E1
    end.
    inv_bind H. destruct a as [c2 idx]. injection H as <-.
    eapply R_trans; [exact Hc0 |].
    eapply R_trans; [apply (R_internString _ _ _ _ E1) |].
    eapply R_trans; [apply (R_addConstant _ _ _ _ E) | emitted_tac].
  - match type of H with
    | (let '(_, _) := ?x in _) = _ =>
        destruct x as [c1 sym] eqn:E1;
        assert (Hc1 : R c c1)
    end.
    { destruct ex; cbn [negb] in E1.
      - injection E1 as <- <-. apply R_refl.
      - specialize (Hd eq_refl). unfold with_symbolTable in Hd.
        destruct (Define (c_symbolTable c) name). injection E1 as <- <-. exact Hd. }
    split_ifs H; injection H as <-; (eapply R_trans; [exact Hc1 | emitted_tac]).
Qed.

Lemma R_emitPrefixOperator c op c' : emitPrefixOperator c op = Ok c' -> R c c'.
Proof.
  unfold emitPrefixOperator. intros H.
  split_ifs H; try discriminate; injection H as <-; emitted_tac.
Qed.

Lemma R_emitInfixOperator c op c' : emitInfixOperator c op = Ok c' -> R c c'.
Proof.
  unfold emitInfixOperator. intros H.
  split_ifs H; try discriminate; injection H as <-; emitted_tac.
Qed.

Lemma R_compileArguments args :
  Forall (fun e => forall c c', compileExpression c e = Ok c' -> R c c') args ->
  forall c c', compileArguments c args = Ok c' -> R c c'.
Proof.
  induction 1 as [| e args He _ IH]; intros c c' H; cbn [compileArguments] in H.
  - injection H as <-. apply R_refl.
  - inv_bind H. eapply R_trans; [apply (He _ _ E) | apply (IH _ _ H)].
Qed.

Lemma R_compileStatements stmts :
  Forall (fun s =>
            (forall c c', compileStatement c s = Ok c' -> R c c')
            /\ match s with
               | ExpressionStatement _ e =>
                   forall c c', compileExpression c e = Ok c' -> R c c'
               | _ => True
               end) stmts ->
  forall c c', compileStatements c stmts = Ok c' -> R c c'.
Proof.
  induction 1 as [| s stmts [Hs He] _ IH]; intros c c' H; cbn [compileStatements] in H.
  - injection H as <-. apply R_refl.
  - inv_bind H. eapply R_trans; [| apply (IH _ _ H)].
    destruct s; try (apply (Hs _ _ E)).
    destruct stmts; [apply (He _ _ E) | apply (Hs _ _ E)].
Qed.

Ltac chain :=
  repeat match goal with
         | |- R ?c ?c => apply R_refl
         | H : R ?a ?b |- R ?a ?c => refine (R_trans a b c H _); clear H
         | H : emitJump ?a _ = (?b, _) |- R ?a ?c =>
             refine (R_trans a b c (R_emitJump _ _ _ _ H) _); clear H
         | H : emitJump (emit ?a ?op) _ = (_, _) |- R ?a ?c =>
             refine (R_trans a (emit a op) c (R_emit a op) _)
         | H : R (emit ?a ?op) _ |- R ?a ?c =>
             refine (R_trans a (emit a op) c (R_emit a op) _)
         | H : patchJump ?a _ = Ok ?b |- R ?a ?c =>
             refine (R_trans a b c (R_patchJump _ _ _ H) _); clear H
         | H : emitLoop ?a _ = Ok ?b |- R ?a ?c =>
             refine (R_trans a b c (R_emitLoop _ _ _ H) _); clear H
         | |- R ?a (emit ?a _) => apply R_emit
         | |- R ?a ?c =>
             match c with
             | context [emit a ?op] => refine (R_trans a (emit a op) c (R_emit a op) _)
             end
         end.

Lemma compile_invariant :
  (forall e c c', compileExpression c e = Ok c' -> R c c')
  /\ (forall s,
        (forall c c', compileStatement c s = Ok c' -> R c c')
        /\ match s with
           | ExpressionStatement _ e =>
               forall c c', compileExpression c e = Ok c' -> R c c'
           | _ => True
           end)
  /\ (forall b c c', compileBlock c b = Ok c' -> R c c').
Proof.
  apply AST_mutind.
  - intros t v c c' H. apply (R_compileIdentifier _ _ _ H).
  - intros t v c c' H. apply (R_compileIntegerLiteral _ _ _ H).
  - intros t v c c' H. apply (R_compileStringLiteral _ _ _ H).
  - intros t v c c' H. apply (R_compileBooleanLiteral _ _ _ H).
  - intros t c c' H. injection H as <-. apply R_emit.
  - intros t op r IH c c' H. cbn [compileExpression] in H. inv_bind H.
    eapply R_trans; [apply (IH _ _ E) | apply (R_emitPrefixOperator _ _ _ H)].
  - intros t l op r IHl IHr c c' H. cbn [compileExpression] in H.
    destruct (String.eqb op "and"); [| destruct (_ || _)].
    + inv_bind H. destruct (emitJump (emit a OP_DUP) OP_JUMP_IF_LIE) as [c2 j] eqn:Hj.
      inv_bind H. apply IHl in E. apply IHr in E0. chain.
    + inv_bind H. destruct (emitJump (emit a OP_DUP) OP_JUMP_IF_TRU) as [c2 j] eqn:Hj.
      inv_bind H. apply IHl in E. apply IHr in E0. chain.
    + inv_bind H. inv_bind H. apply IHl in E. apply IHr in E0.
      apply R_emitInfixOperator in H. chain.
  - intros t cond cq alt IHc IHq IHa c c' H. cbn [compileExpression] in H.
    inv_bind H. destruct (emitJump a OP_JUMP_IF_LIE) as [c2 j1] eqn:Hj1.
    inv_bind H. destruct (emitJump a0 OP_JUMP) as [c4 j2] eqn:Hj2.
    inv_bind H. inv_bind H.
    apply IHc in E. apply IHq in E0.
    assert (H5 : R a1 a2).
    { destruct alt as [alt |]; [apply (IHa _ _ E2) |].
      injection E2 as <-. apply R_emit. }
    chain.
  - intros t cond b IHc IHb c c' H. cbn [compileExpression] in H.
    inv_bind H. destruct (emitJump a OP_JUMP_IF_LIE) as [c2 j1] eqn:Hj1.
    inv_bind H. inv_bind H. inv_bind H. injection H as <-.
    apply IHc in E. apply IHb in E0. chain.
  - intros t n ps b _ c c' H. discriminate H.
  - intros t f args IHf IHargs c c' H. rewrite compileExpression_Call in H.
    pose proof (R_compileArguments args IHargs) as Hargs.
    destruct (builtinCallee c f) as [[name idx] |].
    + destruct (String.eqb name "yarn"); inv_bind H; injection H as <-;
        (eapply R_trans; [apply (Hargs _ _ E) | emitted_tac]).
    + inv_bind H. inv_bind H. injection H as <-.
      eapply R_trans; [apply (Hargs _ _ E) |].
      eapply R_trans; [apply (IHf _ _ E0) | apply R_emitCall].
  - intros t n v IH. split; [| exact I]. intros c c' H.
    cbn [compileStatement] in H. inv_bind H.
    eapply R_trans; [apply (IH _ _ E) | apply (R_compileMakeBinding _ _ _ H)].
  - intros t rv IH. split; [| exact I]. intros c c' H.
    cbn [compileStatement] in H. inv_bind H. injection H as <-.
    eapply R_trans; [| apply R_emit].
    destruct rv as [e |]; [apply (IH _ _ E) |]. injection E as <-. apply R_emit.
  - intros t e IH. split; [| exact IH]. intros c c' H.
    cbn [compileStatement] in H. inv_bind H. injection H as <-.
    eapply R_trans; [apply (IH _ _ E) | apply R_emit].
  - intros b IH. split; [| exact I]. intros c c' H. apply (IH _ _ H).
  - intros t stmts IH c c' H. rewrite compileBlock_unfold in H.
    apply (R_compileStatements stmts IH _ _ H).
Qed.

Lemma compileProgram_invariant stmts :
  forall c c', compileProgram c stmts = Ok c' -> R c c'.
Proof.
  destruct compile_invariant as (HE & HS & _).
  induction stmts as [| s stmts IH]; intros c c' H; cbn [compileProgram] in H.
  - injection H as <-. apply R_refl.
  - inv_bind H. eapply R_trans; [| apply (IH _ _ H)].
    unfold compileStatementWithContext in E.
    destruct s; try (apply (proj1 (HS _) _ _ E)).
    destruct stmts; [apply (HE _ _ _ E) | apply (proj1 (HS _) _ _ E)].
Qed.

End Compile_invariant.

(** What each primitive leaves as it is. *)
Lemma patchJump_chunk c off c' :
  patchJump c off = Ok c' ->
  length (code_of c') = length (code_of c)
  /\ Lines (c_chunk c') = Lines (c_chunk c)
  /\ Constants (c_chunk c') = Constants (c_chunk c)
  /\ strings (c_chunk c') = strings (c_chunk c)
  /\ c_heap c' = c_heap c /\ c_constants c' = c_constants c
  /\ c_symbolTable c' = c_symbolTable c /\ c_scopeDepth c' = c_scopeDepth c.
Proof.
  intros H. pose proof (patchJump_spec _ _ _ H) as (jump & _ & _ & _ & _ & Hcode).
  split; [rewrite Hcode, !length_insert; reflexivity |].
  unfold patchJump in H.
  destruct (65535 <? _); [discriminate |].
  destruct (slice_set _ _ _); [| discriminate].
  destruct (slice_set _ _ _); [| discriminate].
  injection H as <-. cbn. auto 10.
Qed.

Lemma addConstant_chunk c v c' i :
  addConstant c v = Ok (c', i) ->
  Code (c_chunk c') = Code (c_chunk c)
  /\ Lines (c_chunk c') = Lines (c_chunk c)
  /\ strings (c_chunk c') = strings (c_chunk c)
  /\ Constants (c_chunk c) `prefix_of` Constants (c_chunk c')
  /\ c_heap c' = c_heap c
  /\ c_symbolTable c' = c_symbolTable c /\ c_scopeDepth c' = c_scopeDepth c.
Proof.
  unfold addConstant. intros H. inv_bind H.
  destruct (c_constants c !! a).
  - injection H as <- <-. auto 10.
  - inv_bind H. destruct a0 as [ch idx]. injection H as <- <-. cbn.
    pose proof (AddConstant_index_holds_equal _ _ _ _ _ E0) as [Hp _].
    unfold AddConstant in E0. inv_bind E0.
    destruct a0; injection E0 as <- <-; cbn; auto 10.
Qed.

Lemma internString_chunk c s c' p :
  internString c s = (c', p) ->
  Code (c_chunk c') = Code (c_chunk c)
  /\ Lines (c_chunk c') = Lines (c_chunk c)
  /\ Constants (c_chunk c') = Constants (c_chunk c)
  /\ c_heap c `prefix_of` c_heap c'
  /\ c_constants c' = c_constants c
  /\ c_symbolTable c' = c_symbolTable c /\ c_scopeDepth c' = c_scopeDepth c.
Proof.
  unfold internString, InternString.
  destruct (strings (c_chunk c) !! s).
  - intros [= <- <-]. cbn. auto 10.
  - cbn. intros [= <- <-]. cbn.
    repeat split; try reflexivity. apply prefix_app_r. reflexivity.
Qed.

Lemma compile_keeps_lines_zero (c c' : Compiler) (stmts : list Statement) :
  compileProgram c stmts = Ok c' ->
  lines_zero (c_chunk c) -> lines_zero (c_chunk c').
Proof.
  revert c c'.
  apply (compileProgram_invariant
           (fun c c' => lines_zero (c_chunk c) -> lines_zero (c_chunk c'))).
  - auto.
  - auto.
  - intros c bytes H. unfold lines_zero in *.
    unfold append_code, with_chunk. cbn [c_chunk Lines Code].
    rewrite H, length_app, repeat_app. reflexivity.
  - intros c v c' i H Hz. apply addConstant_chunk in H as (Hc & Hl & _).
    unfold lines_zero in *. rewrite Hl, Hc. exact Hz.
  - intros c s c' p H Hz. apply internString_chunk in H as (Hc & Hl & _).
    unfold lines_zero in *. rewrite Hl, Hc. exact Hz.
  - intros c off c' H Hz. apply patchJump_chunk in H as (Hc & Hl & _).
    unfold lines_zero, code_of in *. rewrite Hl, Hc. exact Hz.
  - intros c name _ Hz. exact Hz.
Qed.

(** X21.  The compiler records line 0 for every byte.  The chunk that
    [Compile] returns has one line entry for each byte of code, [GetLine]
    gives 0 at every offset, and so every runtime error raised while that
    chunk runs is reported at line 0, whatever line of the program caused
    it. *)
Theorem Compile_records_line_zero (h h' : Heap) (program : Program) (ch : Chunk) :
  Compile (New h) program = Ok (ch, h') ->
  length (Lines ch) = length (Code ch)
  /\ (forall offset, GetLine ch offset = 0)
  /\ (forall vm message,
        chunk vm = ch -> runtimeError vm message = error_text message 0).
Proof.
  unfold Compile. intros H. inv_bind H. injection H as <- <-.
  assert (Hz : lines_zero (c_chunk (emit a OP_HALT))).
  { pose proof (compile_keeps_lines_zero _ _ _ E eq_refl) as Hz.
    unfold lines_zero in *. cbn. rewrite Hz, length_app. cbn [length].
    rewrite repeat_app. reflexivity. }
  assert (Hg : forall offset, GetLine (c_chunk (emit a OP_HALT)) offset = 0).
  { intros offset. unfold GetLine. unfold lines_zero in Hz. rewrite Hz.
    destruct (_ || _); [reflexivity |]. apply default_repeat. }
  change (WriteOpcode (c_chunk a) OP_HALT 0) with (c_chunk (emit a OP_HALT)).
  split; [unfold lines_zero in Hz; rewrite Hz; apply repeat_length |].
  split; [exact Hg |].
  intros vm message Hc. rewrite runtimeError_GetLine, Hc. f_equal. apply Hg.
Qed.

Lemma Compile_records_line_zero_witness :
  GetLine (fst counting_compiled) 7 = 0
  /\ length (Lines (fst counting_compiled)) = length (Code (fst counting_compiled)).
Proof.
  destruct (Compile_records_line_zero [] (snd counting_compiled) counting_program
              (fst counting_compiled)) as (H1 & H2 & _).
  - vm_compute. reflexivity.
  - split; [apply H2 | exact H1].
Defined.

Lemma compile_pool_grows (c c' : Compiler) (stmts : list Statement) :
  compileProgram c stmts = Ok c' -> pool_grows c c'.
Proof.
  revert c c'. apply (compileProgram_invariant pool_grows); unfold pool_grows.
  - intros c. split; reflexivity.
  - intros a b c [H1 H2] [H3 H4]. split; etransitivity; eassumption.
  - intros c bytes. split; reflexivity.
  - intros c v c' i H. apply addConstant_chunk in H as (_ & _ & _ & Hp & -> & _).
    split; [exact Hp | reflexivity].
  - intros c s c' p H. apply internString_chunk in H as (_ & _ & -> & Hp & _).
    split; [reflexivity | exact Hp].
  - intros c off c' H. apply patchJump_chunk in H as (_ & _ & -> & _ & -> & _).
    split; reflexivity.
  - intros c name _. split; reflexivity.
Qed.

Lemma compileProgram_extends (stmts : list Statement) :
  forall c c', compileProgram c stmts = Ok c' -> extends c c'.
Proof.
  destruct compile_extends as (HE & HS & _).
  induction stmts as [| s stmts IH]; intros c c' H; cbn [compileProgram] in H.
  - injection H as <-. apply extends_refl.
  - inv_bind H. eapply extends_trans; [| apply (IH _ _ H)].
    unfold compileStatementWithContext in E.
    destruct s; try (apply (proj1 (HS _) _ _ E)).
    destruct stmts; [apply (HE _ _ _ E) | apply (proj1 (HS _) _ _ E)].
Qed.

Lemma slice_at_prefix {A} (l ext : list A) (i : Z) (x : A) :
  slice_at l i = Some x -> slice_at (l ++ ext) i = Some x.
Proof.
  unfold slice_at. rewrite length_app.
  destruct (Z.leb_spec 0 i), (Z.ltb_spec i (Z.of_nat (length l)));
    cbn [andb]; try discriminate.
  destruct (Z.ltb_spec i (Z.of_nat (length l + length ext))); [| lia].
  intros Hl. apply lookup_app_l_Some. exact Hl.
Qed.

Lemma slice_at_prefix_of {A} (l k : list A) (i : Z) (x : A) :
  l `prefix_of` k -> slice_at l i = Some x -> slice_at k i = Some x.
Proof. intros [ext ->]. apply slice_at_prefix. Qed.

(** X22.  Compilation only appends.  Compiling further statements leaves
    every byte of the code emitted so far in place (the jumps that are
    patched are the ones emitted meanwhile), keeps every constant of the pool
    at its index, and keeps every string readable through the value that
    denoted it. *)
Theorem compilation_only_appends (c c' : Compiler) (stmts : list Statement) :
  compileProgram c stmts = Ok c' ->
  (forall i b, slice_at (code_of c) i = Some b -> slice_at (code_of c') i = Some b)
  /\ Count (c_chunk c) <= Count (c_chunk c')
  /\ (forall i v, slice_at (Constants (c_chunk c)) i = Some v ->
                  slice_at (Constants (c_chunk c')) i = Some v)
  /\ (forall v s, Value_String (c_heap c) v = Some s ->
                  Value_String (c_heap c') v = Some s).
Proof.
  intros H.
  pose proof (compileProgram_extends _ _ _ H) as He.
  pose proof (compile_pool_grows _ _ _ H) as [Hc Hh].
  split; [intros i b Hb; apply (slice_at_prefix_of _ _ _ _ He Hb) |].
  split; [apply extends_length in He; unfold Count; fold (code_of c) (code_of c'); lia |].
  split; [intros i v; apply slice_at_prefix_of; exact Hc |].
  intros v s. apply Value_String_prefix. exact Hh.
Qed.

Lemma compilation_only_appends_witness :
  slice_at (code_of bound_later) 0 = Some (Opcode_byte OP_SET_GLOBAL)
  /\ Count (c_chunk bound_c) <= Count (c_chunk bound_later).
Proof.
  destruct (compilation_only_appends bound_c bound_later bound_then)
    as (H1 & H2 & _).
  - vm_compute. reflexivity.
  - split; [apply H1; reflexivity | exact H2].
Defined.

Lemma Resolve_false_store st name :
  snd (Resolve st name) = false -> store st !! name = None.
Proof.
  rewrite Resolve_unfold. destruct (store st !! name); [discriminate | reflexivity].
Qed.

Lemma compile_keeps_global_only (c c' : Compiler) (stmts : list Statement) :
  compileProgram c stmts = Ok c' -> global_only c -> global_only c'.
Proof.
  revert c c'.
  apply (compileProgram_invariant (fun c c' => global_only c -> global_only c')).
  - auto.
  - auto.
  - intros c bytes H. exact H.
  - intros c v c' i H Hg. apply addConstant_chunk in H as (_ & _ & _ & _ & _ & Hs & Hd).
    unfold global_only in *. rewrite Hs, Hd. exact Hg.
  - intros c s c' p H Hg. apply internString_chunk in H as (_ & _ & _ & _ & _ & Hs & Hd).
    unfold global_only in *. rewrite Hs, Hd. exact Hg.
  - intros c off c' H Hg. apply patchJump_chunk in H as (_ & _ & _ & _ & _ & _ & Hs & Hd).
    unfold global_only in *. rewrite Hs, Hd. exact Hg.
  - intros c name _ (Hd & Ho & Hs). unfold global_only, with_symbolTable, Define.
    cbn [c_scopeDepth c_symbolTable fst outer store].
    split; [exact Hd |]. split; [exact Ho |].
    intros n sym. destruct (decide (n = name)) as [-> | Hne].
    + rewrite lookup_insert_eq. intros [= <-]. cbn [Scope]. rewrite Ho. left. reflexivity.
    + rewrite lookup_insert_ne by congruence. apply Hs.
Qed.

Lemma global_only_New (h : Heap) : global_only (New h).
Proof.
  split; [reflexivity |]. split; [reflexivity |].
  intros name symbol. unfold New, DefineBuiltin, NewSymbolTable.
  cbn [c_symbolTable store fst outer numDefinitions].
  intros H.
  repeat (apply lookup_insert_Some in H as [[_ <-] | [_ H]]; [right; reflexivity |]).
  rewrite lookup_empty in H. discriminate.
Qed.

(** The code that a three-byte instruction adds. *)
Lemma emitted_emitShort (c c0 : Compiler) (op : Opcode) (w : Z) :
  code_of c0 = code_of c ->
  emitted c (emitShort c0 op w)
  = [Opcode_byte op; to_byte (Z.shiftr w 8); to_byte (Z.land w 0xFF)].
Proof.
  intros H. unfold emitted. rewrite emitShort_append, code_of_append, H.
  apply drop_app_length.
Qed.

(** X23.  A program is compiled at global scope throughout.  Whatever program
    a fresh compiler has compiled, its scope depth is still 0 and its symbol
    table has no enclosing table; so a binding compiled next is a three-byte
    [OP_SET_GLOBAL], and a name read next is a three-byte [OP_GET_GLOBAL] or,
    for a builtin, [OP_CONSTANT]: the instructions for local variables are
    never emitted. *)
Theorem compilation_stays_at_global_scope (h : Heap) (stmts : list Statement)
        (c : Compiler) :
  compileProgram (New h) stmts = Ok c ->
  c_scopeDepth c = 0
  /\ outer (c_symbolTable c) = None
  /\ (forall name c',
        compileMakeBinding c name = Ok c' ->
        exists idx,
          emitted c c'
          = [Opcode_byte OP_SET_GLOBAL; to_byte (Z.shiftr idx 8);
             to_byte (Z.land idx 0xFF)])
  /\ (forall name c',
        compileIdentifier c name = Ok c' ->
        exists op idx,
          (op = OP_GET_GLOBAL \/ op = OP_CONSTANT)
          /\ emitted c c'
             = [Opcode_byte op; to_byte (Z.shiftr idx 8);
                to_byte (Z.land idx 0xFF)]).
Proof.
  intros H.
  destruct (compile_keeps_global_only _ _ _ H (global_only_New h))
    as (Hdepth & Houter & Hscopes).
  split; [exact Hdepth |]. split; [exact Houter |]. split.
  - intros name c' Hmake. unfold compileMakeBinding in Hmake.
    destruct (Resolve (c_symbolTable c) name) as [symbol ex].
    destruct (Z.eqb_spec (c_scopeDepth c) 0) as [_ | Hn]; [| contradiction].
    match type of Hmake with
    | (let '(_, _) := internString ?c0 _ in _) = _ =>
        assert (Hc0 : code_of c0 = code_of c) by (destruct ex; reflexivity);
        destruct (internString c0 name) as [c1 p] eqn:Hi
    end.
    inv_bind Hmake. destruct a as [c2 idx]. injection Hmake as <-.
    exists (to_uint16 idx). apply emitted_emitShort.
    rewrite (addConstant_code _ _ _ _ E), (internString_code _ _ _ _ Hi). exact Hc0.
  - intros name c' Hread. unfold compileIdentifier in Hread.
    rewrite Resolve_unfold, Houter in Hread.
    destruct (store (c_symbolTable c) !! name) as [symbol |] eqn:Hs;
      cbn [negb] in Hread; [| discriminate].
    destruct (Hscopes _ _ Hs) as [Hsc | Hsc]; rewrite Hsc in Hread.
    + destruct (internString c name) as [c1 p] eqn:Hi.
      inv_bind Hread. destruct a as [c2 idx]. injection Hread as <-.
      exists OP_GET_GLOBAL, (to_uint16 idx). split; [left; reflexivity |].
      apply emitted_emitShort.
      rewrite (addConstant_code _ _ _ _ E). apply (internString_code _ _ _ _ Hi).
    + inv_bind Hread. destruct a as [c2 idx]. injection Hread as <-.
      exists OP_CONSTANT, (to_uint16 idx). split; [right; reflexivity |].
      apply emitted_emitShort. apply (addConstant_code _ _ _ _ E).
Qed.

Lemma compilation_stays_at_global_scope_witness :
  c_scopeDepth counting_c = 0
  /\ exists op idx,
       (op = OP_GET_GLOBAL \/ op = OP_CONSTANT)
       /\ emitted counting_c (compiled (compileIdentifier counting_c "c"))
          = [Opcode_byte op; to_byte (Z.shiftr idx 8); to_byte (Z.land idx 0xFF)].
Proof.
  destruct (compilation_stays_at_global_scope [] [counting_init] counting_c)
    as (H1 & _ & _ & H3).
  - vm_compute. reflexivity.
  - split; [exact H1 |]. apply (H3 "c"). vm_compute. reflexivity.
Defined.

Lemma retains_refl c : retains c c.
Proof. unfold retains. repeat split; auto; reflexivity. Qed.

Lemma retains_trans a b c : retains a b -> retains b c -> retains a c.
Proof.
  unfold retains. intros (H1 & H2 & H3 & H4 & H5 & H6 & H7) (G1 & G2 & G3 & G4 & G5 & G6 & G7).
  split; [auto |].
  split; [etransitivity; eassumption |].
  split; [etransitivity; eassumption |].
  split; [etransitivity; eassumption |].
  split; [etransitivity; eassumption |].
  split; congruence.
Qed.

Lemma retains_addConstant c v c' i : addConstant c v = Ok (c', i) -> retains c c'.
Proof.
  intros H. pose proof (addConstant_chunk _ _ _ _ H) as (_ & _ & Hs & _ & Hh & Hst & Hd).
  unfold retains. rewrite Hs, Hh, Hst, Hd.
  split; [| repeat split; try reflexivity].
  - unfold strings_ok. rewrite Hs. auto.
  - unfold addConstant in H. inv_bind H.
    destruct (c_constants c !! a) eqn:Hk.
    + injection H as <- <-. reflexivity.
    + inv_bind H. destruct a0 as [ch idx]. injection H as <- <-. cbn.
      apply insert_subseteq. exact Hk.
Qed.

Lemma retains_internString c s c' p : internString c s = (c', p) -> retains c c'.
Proof.
  intros H. pose proof (internString_chunk _ _ _ _ H) as (_ & _ & _ & Hp & Hk & Hst & Hd).
  unfold retains. rewrite Hk, Hst, Hd.
  unfold internString in H.
  destruct (InternString (c_heap c) (c_chunk c) s) as [[h ch] q] eqn:E.
  injection H as <- <-. cbn [c_heap c_chunk] in *.
  split.
  { intros Hok. apply (InternString_ok _ _ _ _ _ _ Hok E). }
  split; [reflexivity |].
  split.
  { unfold InternString in E. destruct (strings (c_chunk c) !! s) eqn:Hs.
    - injection E as <- <- <-. reflexivity.
    - cbn in E. injection E as <- <- <-. cbn. apply insert_subseteq. exact Hs. }
  repeat split; try reflexivity. exact Hp.
Qed.

Lemma compile_retains (c c' : Compiler) (stmts : list Statement) :
  compileProgram c stmts = Ok c' -> retains c c'.
Proof.
  revert c c'. apply (compileProgram_invariant retains).
  - apply retains_refl.
  - apply retains_trans.
  - intros c bytes. unfold retains. cbn. repeat split; auto; reflexivity.
  - apply retains_addConstant.
  - apply retains_internString.
  - intros c off c' H.
    apply patchJump_chunk in H as (_ & _ & _ & Hs & Hh & Hk & Hst & Hd).
    unfold retains, strings_ok. rewrite Hs, Hh, Hk, Hst, Hd.
    repeat split; auto; reflexivity.
  - intros c name Hr. apply Resolve_false_store in Hr.
    unfold retains, with_symbolTable, Define. cbn.
    repeat split; auto; try reflexivity. apply insert_subseteq. exact Hr.
Qed.

(** The key under which the compiler caches the name of a variable. *)
Lemma String_res_name (h : Heap) (p : Z) (name : string) :
  deref h p = Some name -> Z.of_nat (length h) < 2 ^ 48 ->
  String_res h (NewString p) = Ok name.
Proof.
  intros Hd Hb. pose proof (deref_bound _ _ _ Hd) as Hp.
  pose proof (AsString_NewString p ltac:(lia)) as Has.
  unfold String_res, Value_String. cbv zeta. rewrite GetTag_NewString.
  cbn [Z.eqb TAG_STRING TAG_INT TAG_BOOL TAG_NOTHING]. rewrite Has, Hd. reflexivity.
Qed.

(** Emitting an access to the global [name] from a state that has [name]
    interned at [p] and its constant cached at [idx]. *)
Lemma global_access_cached (c : Compiler) (name : string) (p idx : Z) :
  strings_ok (c_heap c) (c_chunk c) ->
  Z.of_nat (length (c_heap c)) < 2 ^ 48 ->
  strings (c_chunk c) !! name = Some p ->
  c_constants c !! name = Some idx ->
  internString c name = (c, p)
  /\ addConstant c (NewString p) = Ok (c, idx).
Proof.
  intros Hok Hb Hs Hk.
  assert (Hi : internString c name = (c, p)).
  { unfold internString, InternString. rewrite Hs. destruct c; reflexivity. }
  split; [exact Hi |].
  unfold addConstant. rewrite (String_res_name _ _ name (Hok _ _ Hs) Hb).
  cbn [bind]. rewrite Hk. reflexivity.
Qed.

(** After [name] has been interned and its constant added, both are cached. *)
Lemma global_access_first (c c1 c2 : Compiler) (name : string) (p idx : Z) :
  strings_ok (c_heap c) (c_chunk c) ->
  Z.of_nat (length (c_heap c1)) < 2 ^ 48 ->
  internString c name = (c1, p) ->
  addConstant c1 (NewString p) = Ok (c2, idx) ->
  strings_ok (c_heap c2) (c_chunk c2)
  /\ strings (c_chunk c2) !! name = Some p
  /\ c_constants c2 !! name = Some idx.
Proof.
  intros Hok Hb Hi Ha.
  pose proof (retains_internString _ _ _ _ Hi) as (Hok1 & _).
  pose proof (retains_addConstant _ _ _ _ Ha) as (Hok2 & _ & Hs2 & _).
  assert (Hs1 : strings (c_chunk c1) !! name = Some p).
  { unfold internString in Hi.
    destruct (InternString (c_heap c) (c_chunk c) name) as [[h ch] q] eqn:E.
    injection Hi as <- <-. apply (InternString_ok _ _ _ _ _ _ Hok E). }
  split; [auto |].
  split; [apply (lookup_weaken _ _ _ _ Hs1 Hs2) |].
  unfold addConstant in Ha.
  rewrite (String_res_name _ _ name (Hok1 Hok _ _ Hs1) Hb) in Ha. cbn [bind] in Ha.
  destruct (c_constants c1 !! name) eqn:Hk.
  - injection Ha as <- <-. exact Hk.
  - inv_bind Ha. destruct a as [ch i]. injection Ha as <- <-. cbn.
    apply lookup_insert_eq.
Qed.

(** X24.  A global is read through the constant it was written through.  At
    global scope, when [make name be ...] has been compiled for a name that is
    not a builtin, a later read of [name], whatever was compiled in between,
    is the instruction [OP_GET_GLOBAL] with the very operand of the
    [OP_SET_GLOBAL] that the binding emitted, and adds nothing else to the
    compiler's state: the name is interned and pooled once. *)
Theorem global_read_uses_operand_of_write
        (c c1 c2 c3 : Compiler) (name : string) (stmts : list Statement) :
  global_only c ->
  strings_ok (c_heap c) (c_chunk c) ->
  (forall symbol, store (c_symbolTable c) !! name = Some symbol ->
                  Scope symbol = SCOPE_GLOBAL) ->
  compileMakeBinding c name = Ok c1 ->
  compileProgram c1 stmts = Ok c2 ->
  compileIdentifier c2 name = Ok c3 ->
  Z.of_nat (length (c_heap c2)) < 2 ^ 48 ->
  exists idx,
    c3 = emitShort c2 OP_GET_GLOBAL (to_uint16 idx)
    /\ code_of c1
       = code_of c ++ [Opcode_byte OP_SET_GLOBAL;
                       to_byte (Z.shiftr (to_uint16 idx) 8);
                       to_byte (Z.land (to_uint16 idx) 0xFF)]
    /\ code_of c3
       = code_of c2 ++ [Opcode_byte OP_GET_GLOBAL;
                        to_byte (Z.shiftr (to_uint16 idx) 8);
                        to_byte (Z.land (to_uint16 idx) 0xFF)].
Proof.
  intros (Hdepth & Houter & Hscopes) Hok Hglobal Hmake Hmid Hread Hbound.
  pose proof (compile_retains _ _ _ Hmid) as (Hok12 & Hk12 & Hs12 & Hh12 & Hst12 & _).
  unfold compileMakeBinding in Hmake.
  rewrite Resolve_unfold, Houter in Hmake.
  destruct (Z.eqb_spec (c_scopeDepth c) 0) as [_ | Hn]; [| contradiction].
  (* the state after the binding has been recorded *)
  set (c0 := match store (c_symbolTable c) !! name with
             | Some _ => c
             | None => with_symbolTable c (fst (Define (c_symbolTable c) name))
             end).
  assert (Hc0 : exists symbol,
             store (c_symbolTable c0) !! name = Some symbol
             /\ Scope symbol = SCOPE_GLOBAL).
  { subst c0. destruct (store (c_symbolTable c) !! name) as [symbol |] eqn:Hs.
    - exists symbol. split; [exact Hs | apply (Hglobal _ eq_refl)].
    - eexists. cbn. rewrite lookup_insert_eq. split; [reflexivity |].
      cbn. rewrite Houter. reflexivity. }
  assert (Hmake0 :
    (let '(c, nameStr) := internString c0 name in
     let* (c, idx) := addConstant c (NewString nameStr) in
     Ok (emitShort c OP_SET_GLOBAL (to_uint16 idx))) = Ok c1).
  { subst c0. destruct (store (c_symbolTable c) !! name); exact Hmake. }
  clear Hmake.
  assert (Hok0 : strings_ok (c_heap c0) (c_chunk c0))
    by (subst c0; destruct (store (c_symbolTable c) !! name); exact Hok).
  assert (Hcode0 : code_of c0 = code_of c)
    by (subst c0; destruct (store (c_symbolTable c) !! name); reflexivity).
  destruct Hc0 as (symbol & Hsym & Hscope).
  destruct (internString c0 name) as [ca p] eqn:Hi.
  inv_bind Hmake0. destruct a as [cb idx]. injection Hmake0 as <-.
  assert (Hba : Z.of_nat (length (c_heap ca)) < 2 ^ 48).
  { pose proof (addConstant_chunk _ _ _ _ E) as (_ & _ & _ & _ & Hh & _).
    apply prefix_length in Hh12.
    rewrite emitShort_append in Hh12.
    cbn [append_code with_chunk c_heap] in Hh12. rewrite Hh in Hh12. lia. }
  destruct (global_access_first _ _ _ _ _ _ Hok0 Hba Hi E) as (Hokb & Hsb & Hkb).
  (* the read *)
  assert (Hst2 : store (c_symbolTable c2) !! name = Some symbol).
  { apply (lookup_weaken _ _ _ _ Hsym). etransitivity; [| exact Hst12].
    rewrite emitShort_append. cbn.
    pose proof (retains_internString _ _ _ _ Hi) as (_ & _ & _ & _ & H1 & _).
    pose proof (retains_addConstant _ _ _ _ E) as (_ & _ & _ & _ & H2 & _).
    etransitivity; eassumption. }
  unfold compileIdentifier in Hread.
  rewrite Resolve_unfold, Hst2 in Hread. cbn [negb] in Hread.
  rewrite Hscope in Hread.
  destruct (global_access_cached c2 name p idx) as [Hi2 Ha2].
  - apply Hok12. rewrite emitShort_append. exact Hokb.
  - exact Hbound.
  - apply (lookup_weaken _ _ _ _ Hsb). rewrite emitShort_append in Hs12. exact Hs12.
  - apply (lookup_weaken _ _ _ _ Hkb). rewrite emitShort_append in Hk12. exact Hk12.
  - rewrite Hi2, Ha2 in Hread. cbn [bind] in Hread. injection Hread as <-.
    exists idx. split; [reflexivity |].
    rewrite !emitShort_append, !code_of_append.
    pose proof (internString_code _ _ _ _ Hi) as H1.
    pose proof (addConstant_code _ _ _ _ E) as H2.
    rewrite H2, H1, Hcode0. split; reflexivity.
Qed.

Lemma global_read_uses_operand_of_write_witness :
  exists idx,
    bound_read = emitShort bound_later OP_GET_GLOBAL (to_uint16 idx)
    /\ code_of bound_c
       = code_of (New []) ++ [Opcode_byte OP_SET_GLOBAL;
                              to_byte (Z.shiftr (to_uint16 idx) 8);
                              to_byte (Z.land (to_uint16 idx) 0xFF)]
    /\ code_of bound_read
       = code_of bound_later ++ [Opcode_byte OP_GET_GLOBAL;
                                 to_byte (Z.shiftr (to_uint16 idx) 8);
                                 to_byte (Z.land (to_uint16 idx) 0xFF)].
Proof.
  apply (global_read_uses_operand_of_write (New []) bound_c bound_later bound_read
           "c" bound_then).
  - apply global_only_New.
  - apply strings_ok_empty. reflexivity.
  - intros symbol H. vm_compute in H. discriminate H.
  - vm_compute. reflexivity.
  - vm_compute. reflexivity.
  - vm_compute. reflexivity.
  - vm_compute. reflexivity.
Defined.

(** X25.  A builtin cannot be rebound.  At global scope, [make name be ...]
    for a name that resolves to a builtin still emits [OP_SET_GLOBAL], but
    defines nothing: whatever is compiled next, the name resolves to the
    builtin as before, and a read of it is the instruction [OP_CONSTANT]
    loading a pooled constant, not [OP_GET_GLOBAL]; the value that was stored
    is not read back. *)
Theorem builtin_name_is_never_shadowed
        (c c1 c2 c3 : Compiler) (name : string) (symbol : Symbol)
        (stmts : list Statement) :
  c_scopeDepth c = 0 ->
  store (c_symbolTable c) !! name = Some symbol ->
  Scope symbol = SCOPE_BUILTIN ->
  compileMakeBinding c name = Ok c1 ->
  compileProgram c1 stmts = Ok c2 ->
  compileIdentifier c2 name = Ok c3 ->
  c_symbolTable c1 = c_symbolTable c
  /\ Resolve (c_symbolTable c2) name = (symbol, true)
  /\ (exists idx,
        emitted c c1
        = [Opcode_byte OP_SET_GLOBAL; to_byte (Z.shiftr idx 8);
           to_byte (Z.land idx 0xFF)])
  /\ (exists idx,
        emitted c2 c3
        = [Opcode_byte OP_CONSTANT; to_byte (Z.shiftr idx 8);
           to_byte (Z.land idx 0xFF)]).
Proof.
  intros Hdepth Hsym Hscope Hmake Hmid Hread.
  pose proof (compile_retains _ _ _ Hmid) as (_ & _ & _ & _ & Hst12 & _).
  unfold compileMakeBinding in Hmake.
  rewrite Resolve_unfold, Hsym in Hmake. cbn [negb] in Hmake.
  destruct (Z.eqb_spec (c_scopeDepth c) 0) as [_ | Hn]; [| contradiction].
  destruct (internString c name) as [ca p] eqn:Hi.
  inv_bind Hmake. destruct a as [cb idx]. injection Hmake as <-.
  pose proof (internString_chunk _ _ _ _ Hi) as (_ & _ & _ & _ & _ & Hsa & _).
  pose proof (addConstant_chunk _ _ _ _ E) as (_ & _ & _ & _ & _ & Hsb & _).
  assert (Hst1 : c_symbolTable (emitShort cb OP_SET_GLOBAL (to_uint16 idx))
                 = c_symbolTable c).
  { rewrite emitShort_append. cbn [append_code with_chunk c_symbolTable].
    rewrite Hsb. exact Hsa. }
  assert (Hres : Resolve (c_symbolTable c2) name = (symbol, true)).
  { rewrite Resolve_unfold.
    rewrite (lookup_weaken _ _ _ _ Hsym); [reflexivity |].
    rewrite Hst1 in Hst12. exact Hst12. }
  split; [exact Hst1 |]. split; [exact Hres |]. split.
  - exists (to_uint16 idx). apply emitted_emitShort.
    rewrite (addConstant_code _ _ _ _ E). apply (internString_code _ _ _ _ Hi).
  - unfold compileIdentifier in Hread. rewrite Hres in Hread.
    cbn [negb] in Hread. rewrite Hscope in Hread.
    inv_bind Hread. destruct a as [cd idx']. injection Hread as <-.
    exists (to_uint16 idx'). apply emitted_emitShort.
    apply (addConstant_code _ _ _ _ E0).
Qed.

Lemma builtin_name_is_never_shadowed_witness :
  Resolve (c_symbolTable builtin_later) "len"
  = ({| Name := "len"; Scope := SCOPE_BUILTIN; Index := 1 |}, true)
  /\ exists idx,
       emitted builtin_later builtin_read
       = [Opcode_byte OP_CONSTANT; to_byte (Z.shiftr idx 8);
          to_byte (Z.land idx 0xFF)].
Proof.
  destruct (builtin_name_is_never_shadowed (New []) builtin_c builtin_later
              builtin_read "len"
              {| Name := "len"; Scope := SCOPE_BUILTIN; Index := 1 |} bound_then)
    as (_ & H2 & _ & H4); try (vm_compute; reflexivity).
  split; [exact H2 | exact H4].
Defined.

(* ===================================================================== *)
(** ** Jumps, and the code of the control structures *)
(* ===================================================================== *)

Lemma to_int16_small (w : Z) : 0 <= w <= 32767 -> to_int16 w = w.
Proof. intros H. unfold to_int16. rewrite Z.mod_small by lia. lia. Qed.

Lemma slice_at_insert_eq {A} (l : list A) (i : Z) (x : A) :
  0 <= i < Z.of_nat (length l) -> slice_at (<[Z.to_nat i := x]> l) i = Some x.
Proof.
  intros Hi. unfold slice_at. rewrite length_insert.
  destruct (Z.leb_spec 0 i), (Z.ltb_spec i (Z.of_nat (length l))); try lia.
  cbn [andb]. apply list_lookup_insert_eq. lia.
Qed.

Lemma slice_at_insert_ne {A} (l : list A) (i j : Z) (x : A) :
  0 <= i -> i <> j -> slice_at (<[Z.to_nat i := x]> l) j = slice_at l j.
Proof.
  intros Hi Hne. unfold slice_at. rewrite length_insert.
  destruct (_ && _) eqn:Hr; [| reflexivity].
  apply andb_true_iff in Hr as [Hr _]. apply Z.leb_le in Hr.
  apply list_lookup_insert_ne. lia.
Qed.

(** The three bytes of a patched jump. *)
Lemma patched_bytes (c c' : Compiler) (j : Z) (op : Opcode) :
  patchJump c j = Ok c' ->
  slice_at (code_of c) (j - 1) = Some (Opcode_byte op) ->
  let jump := Count (c_chunk c) - j - 2 in
  0 <= jump <= 65535
  /\ slice_at (code_of c') (j - 1) = Some (Opcode_byte op)
  /\ slice_at (code_of c') j = Some (to_byte (Z.shiftr jump 8))
  /\ slice_at (code_of c') (j + 1) = Some (to_byte (Z.land jump 0xFF)).
Proof.
  intros H Hop. cbv zeta.
  apply patchJump_spec in H as (jump & Hj & Hle & H0 & H1 & Hcode).
  unfold Count. fold (code_of c). rewrite <- Hj, Hcode.
  split; [lia |].
  split; [rewrite !slice_at_insert_ne by lia; exact Hop |].
  split.
  - rewrite slice_at_insert_ne by lia. apply slice_at_insert_eq. lia.
  - apply slice_at_insert_eq. rewrite length_insert. lia.
Qed.

(** One step of the dispatch loop on a forward jump with operand bytes [hi]
    and [lo]. *)
Lemma step_jump (vm : VM) (op : Opcode) (hi lo : Z) (v : Value) :
  In op [OP_JUMP; OP_JUMP_IF_LIE; OP_JUMP_IF_TRU] ->
  slice_at (Code (chunk vm)) (ip vm) = Some (Opcode_byte op) ->
  slice_at (Code (chunk vm)) (ip vm + 1) = Some hi ->
  slice_at (Code (chunk vm)) (ip vm + 2) = Some lo ->
  (op <> OP_JUMP -> stack_get vm (stackTop vm - 1) = Ok v) ->
  exists vm',
    step vm = Ok (Continue vm')
    /\ ip vm' = (if jump_taken op v
                 then ip vm + 3 + to_int16 (short_of_bytes hi lo)
                 else ip vm + 3)
    /\ stackTop vm' = match op with
                      | OP_JUMP => stackTop vm
                      | _ => stackTop vm - 1
                      end
    /\ stack vm' = stack vm /\ globals vm' = globals vm /\ out vm' = out vm
    /\ chunk vm' = chunk vm.
Proof.
  intros Hin H0 H1 H2 Hv.
  unfold step. rewrite (readByte_at vm _ H0). cbn [bind].
  rewrite Opcode_of_byte_byte.
  assert (Hshort : readShort (set_ip vm (ip vm + 1))
                   = Ok (short_of_bytes hi lo,
                         set_ip (set_ip vm (ip vm + 1)) (ip vm + 1 + 2))).
  { apply readShort_at; cbn; rewrite <- ?Z.add_assoc; assumption. }
  cbn in Hin. destruct Hin as [<- | [<- | [<- | []]]];
    rewrite Hshort; cbn [bind].
  - eexists. split; [reflexivity |]. cbn. repeat split; try reflexivity. lia.
  - change (stack_get _ _) with (stack_get vm (stackTop vm - 1)).
    rewrite (Hv ltac:(discriminate)). cbn [bind jump_taken].
    destruct (IsFalsey v); (eexists; split; [reflexivity |]); cbn;
      repeat split; try reflexivity; lia.
  - change (stack_get _ _) with (stack_get vm (stackTop vm - 1)).
    rewrite (Hv ltac:(discriminate)). cbn [bind jump_taken].
    destruct (IsTruthy v); (eexists; split; [reflexivity |]); cbn;
      repeat split; try reflexivity; lia.
Qed.

(** X26.  A patched forward jump lands where it was patched.  Let a jump
    have been emitted with [emitJump] and its operand set by [patchJump] when
    the chunk had [n] bytes, the distance fitting the signed operand.  When
    the machine executes these three bytes, it continues at offset [n] if the
    jump is taken ([OP_JUMP] always, [OP_JUMP_IF_LIE] on a falsey top of
    stack, [OP_JUMP_IF_TRU] on a truthy one) and behind the instruction
    otherwise; the conditional jumps take the tested value off the stack in
    both cases. *)
Theorem patched_jump_lands_at_patch_point
        (c c' : Compiler) (j : Z) (op : Opcode) (vm : VM) (v : Value) :
  In op [OP_JUMP; OP_JUMP_IF_LIE; OP_JUMP_IF_TRU] ->
  slice_at (code_of c) (j - 1) = Some (Opcode_byte op) ->
  patchJump c j = Ok c' ->
  Count (c_chunk c) - j - 2 <= 32767 ->
  ip vm = j - 1 ->
  (forall k, 0 <= k < 3 ->
             slice_at (Code (chunk vm)) (ip vm + k) = slice_at (code_of c') (ip vm + k)) ->
  (op <> OP_JUMP -> stack_get vm (stackTop vm - 1) = Ok v) ->
  exists vm',
    step vm = Ok (Continue vm')
    /\ ip vm' = (if jump_taken op v then Count (c_chunk c) else j + 2)
    /\ stackTop vm' = match op with
                       | OP_JUMP => stackTop vm
                       | _ => stackTop vm - 1
                       end
    /\ stack vm' = stack vm /\ globals vm' = globals vm /\ out vm' = out vm.
Proof.
  intros Hin Hop Hpatch Hdist Hip Hsame Hv.
  destruct (patched_bytes _ _ _ _ Hpatch Hop) as (Hj & H0 & H1 & H2).
  set (jump := Count (c_chunk c) - j - 2) in *.
  destruct (step_jump vm op (to_byte (Z.shiftr jump 8)) (to_byte (Z.land jump 0xFF))
                      v Hin)
    as (vm' & Hs & Hi & Ht & Hst & Hg & Ho & _).
  - rewrite <- (Z.add_0_r (ip vm)), Hsame by lia. rewrite Hip, Z.add_0_r. exact H0.
  - rewrite Hsame by lia. rewrite Hip. replace (j - 1 + 1) with j by lia. exact H1.
  - rewrite Hsame by lia. rewrite Hip. replace (j - 1 + 2) with (j + 1) by lia.
    exact H2.
  - exact Hv.
  - exists vm'. split; [exact Hs |].
    rewrite short_of_bytes_split, to_int16_small in Hi by lia.
    split; [rewrite Hi, Hip; destruct (jump_taken op v); subst jump; lia |].
    auto.
Qed.

Lemma patched_jump_lands_at_patch_point_witness :
  exists vm',
    step (counting_at 5) = Ok (Continue vm')
    /\ ip vm' = 13
    /\ stackTop vm' = 1.
Proof.
  destruct (patched_jump_lands_at_patch_point counting_looped
              (compiled (patchJump counting_looped 11)) 11 OP_JUMP_IF_LIE
              (counting_at 5) (NewBool true))
    as (vm' & H1 & H2 & H3 & _).
  - cbn. auto.
  - vm_compute. reflexivity.
  - vm_compute. reflexivity.
  - vm_compute. discriminate.
  - vm_compute. reflexivity.
  - intros k Hk.
    assert (Hc : k = 0 \/ k = 1 \/ k = 2) by lia.
    destruct Hc as [-> | [-> | ->]]; vm_compute; reflexivity.
  - intros _. vm_compute. reflexivity.
  - exists vm'. split; [exact H1 |]. split; [exact H2 | exact H3].
Defined.

(** X27.  [OP_LOOP] goes back to where the loop started.  Executing the
    instruction that [emitLoop c loopStart] appended sets the instruction
    pointer to [loopStart] and changes nothing else. *)
Theorem emitted_loop_returns_to_loop_start
        (c c' : Compiler) (loopStart : Z) (vm : VM) :
  emitLoop c loopStart = Ok c' ->
  0 <= loopStart <= Count (c_chunk c) ->
  ip vm = Count (c_chunk c) ->
  (forall k, 0 <= k < 3 ->
             slice_at (Code (chunk vm)) (ip vm + k) = slice_at (code_of c') (ip vm + k)) ->
  step vm = Ok (Continue (set_ip vm loopStart)).
Proof.
  intros Hloop Hls Hip Hsame.
  apply emitLoop_spec in Hloop as (offset & Hoff & Hle & ->).
  unfold Count in *. fold (code_of c) in *.
  assert (Hf : forall k x,
             slice_at [Opcode_byte OP_LOOP; to_byte (Z.shiftr offset 8);
                       to_byte (Z.land offset 255)] k = Some x ->
             0 <= k < 3 ->
             slice_at (Code (chunk vm)) (ip vm + k) = Some x).
  { intros k x Hk Hk0. rewrite Hsame by exact Hk0.
    rewrite code_of_append, Hip, slice_at_app_r by lia. exact Hk. }
  unfold step. rewrite (readByte_at vm (Opcode_byte OP_LOOP))
    by (rewrite <- (Z.add_0_r (ip vm)); apply Hf; [fetch | lia]).
  cbn [bind]. rewrite Opcode_of_byte_byte.
  rewrite (readShort_at (set_ip vm (ip vm + 1)) (to_byte (Z.shiftr offset 8))
                        (to_byte (Z.land offset 0xFF)));
    [| cbn; apply Hf; [fetch | lia]
     | cbn; rewrite <- Z.add_assoc; apply Hf; [fetch | lia]].
  cbn [bind]. rewrite short_of_bytes_split by lia.
  unfold set_ip. cbn. do 3 f_equal. lia.
Qed.

Lemma emitted_loop_returns_to_loop_start_witness :
  step (counting_at 10) = Ok (Continue (set_ip (counting_at 10) 4)).
Proof.
  apply (emitted_loop_returns_to_loop_start counting_c3 counting_looped).
  - vm_compute. reflexivity.
  - vm_compute. split; discriminate.
  - vm_compute. reflexivity.
  - intros k Hk.
    assert (Hc : k = 0 \/ k = 1 \/ k = 2) by lia.
    destruct Hc as [-> | [-> | ->]]; vm_compute; reflexivity.
Defined.

Lemma compileExpression_short_circuit c t l operator r :
  is_short_circuit operator = true ->
  compileExpression c (InfixExpression t l operator r)
  = (let* c := compileExpression c l in
     let c := emit c OP_DUP in
     let '(c, j) := emitJump c (short_circuit_jump operator) in
     let c := emit c OP_POP in
     let* c := compileExpression c r in
     patchJump c j).
Proof.
  unfold is_short_circuit, short_circuit_jump. intros H.
  cbn [compileExpression].
  destruct (String.eqb operator "and"); [reflexivity |].
  cbn [orb] in H. rewrite H. reflexivity.
Qed.

(** The code of a short-circuit operator: the left operand, [OP_DUP], the
    conditional jump over [OP_POP] and the right operand. *)
Lemma short_circuit_layout c t l operator r c' :
  is_short_circuit operator = true ->
  compileExpression c (InfixExpression t l operator r) = Ok c' ->
  exists c1 lcode rcode,
    compileExpression c l = Ok c1
    /\ code_of c1 = code_of c ++ lcode
    /\ Z.of_nat (length rcode) + 1 <= 65535
    /\ code_of c'
       = code_of c ++ lcode
           ++ [Opcode_byte OP_DUP; Opcode_byte (short_circuit_jump operator);
               to_byte (Z.shiftr (Z.of_nat (length rcode) + 1) 8);
               to_byte (Z.land (Z.of_nat (length rcode) + 1) 0xFF);
               Opcode_byte OP_POP]
           ++ rcode.
Proof.
  intros Hop. rewrite (compileExpression_short_circuit _ _ _ _ _ Hop).
  cbv zeta. intros H. inv_bind H. rename a into c1.
  destruct (emitJump (emit c1 OP_DUP) (short_circuit_jump operator)) as [c2 j] eqn:Hj.
  apply emitJump_spec in Hj as [-> ->].
  inv_bind H. rename a into c4.
  destruct compile_extends as (HE & _ & _).
  destruct (prefix_exists _ _ (HE _ _ _ E)) as [lcode Hl].
  destruct (prefix_exists _ _ (HE _ _ _ E0)) as [rcode Hr].
  rewrite !emit_append, !append_code_app, code_of_append in Hr. cbn [app] in Hr.
  rewrite emit_append, code_of_append, length_app in H. cbn [length] in H.
  apply patchJump_spec in H as (jump & Hjump & Hjle & _ & _ & Hcode).
  rewrite Hr in Hcode, Hjump. rewrite !length_app in Hjump. cbn [length] in Hjump.
  assert (Hj1 : jump = Z.of_nat (length rcode) + 1) by lia.
  exists c1, lcode, rcode. split; [reflexivity |]. split; [exact Hl |].
  split; [lia |].
  rewrite Hcode, <- Hj1.
  replace (Z.to_nat (Z.of_nat (length (code_of c1) + 1) + 1))
    with (length (code_of c1 ++ [Opcode_byte OP_DUP;
                                 Opcode_byte (short_circuit_jump operator)]))
    by (rewrite length_app; cbn [length]; lia).
  replace (Z.to_nat (Z.of_nat (length (code_of c1) + 1) + 1 + 1))
    with (length (code_of c1 ++ [Opcode_byte OP_DUP;
                                 Opcode_byte (short_circuit_jump operator);
                                 to_byte (Z.shiftr jump 8)]))
    by (rewrite length_app; cbn [length]; lia).
  replace ((code_of c1 ++ [Opcode_byte OP_DUP; Opcode_byte (short_circuit_jump operator);
                           255; 255; Opcode_byte OP_POP]) ++ rcode)
    with ((code_of c1 ++ [Opcode_byte OP_DUP; Opcode_byte (short_circuit_jump operator)])
            ++ 255 :: (255 :: Opcode_byte OP_POP :: rcode))
    by (rewrite <- !app_assoc; reflexivity).
  rewrite insert_middle.
  replace ((code_of c1 ++ [Opcode_byte OP_DUP; Opcode_byte (short_circuit_jump operator)])
            ++ to_byte (Z.shiftr jump 8) :: 255 :: Opcode_byte OP_POP :: rcode)
    with ((code_of c1 ++ [Opcode_byte OP_DUP; Opcode_byte (short_circuit_jump operator);
                          to_byte (Z.shiftr jump 8)])
            ++ 255 :: (Opcode_byte OP_POP :: rcode))
    by (rewrite <- !app_assoc; reflexivity).
  rewrite insert_middle, Hl, <- !app_assoc. reflexivity.
Qed.

Lemma step_dup (vm : VM) (v : Value) :
  slice_at (Code (chunk vm)) (ip vm) = Some (Opcode_byte OP_DUP) ->
  stack_get vm (stackTop vm - 1) = Ok v ->
  stackTop vm < STACK_MAX ->
  exists vm',
    step vm = Ok (Continue vm')
    /\ ip vm' = ip vm + 1 /\ stackTop vm' = stackTop vm + 1
    /\ stack vm' = <[stackTop vm := v]> (stack vm)
    /\ globals vm' = globals vm /\ out vm' = out vm /\ chunk vm' = chunk vm.
Proof.
  intros Hop Hv Htop. pose proof (stack_get_range _ _ _ Hv) as Hr.
  unfold step. rewrite (readByte_at _ _ Hop). cbn [bind].
  rewrite Opcode_of_byte_byte.
  change (stack_get _ _) with (stack_get vm (stackTop vm - 1)).
  rewrite Hv. cbn [bind].
  destruct (push_continue_ok (set_ip vm (ip vm + 1)) v)
    as (vm' & Hpc & Hs & Ht & Hg & Hc & Hip & _ & Ho & _); [cbn; lia |].
  exists vm'. cbn in Hs, Ht, Hg, Hc, Hip, Ho. auto 10.
Qed.

Lemma step_pop (vm : VM) :
  slice_at (Code (chunk vm)) (ip vm) = Some (Opcode_byte OP_POP) ->
  step vm = Ok (Continue (set_stackTop (set_ip vm (ip vm + 1)) (stackTop vm - 1))).
Proof.
  intros Hop. unfold step. rewrite (readByte_at _ _ Hop). cbn [bind].
  rewrite Opcode_of_byte_byte. reflexivity.
Qed.

(** X28.  [and], [abi] and [or] evaluate their right operand only when they
    must, as long as the jump over the right operand fits the signed operand
    that the machine decodes: the distance, which is the length of the code
    of the right operand plus one, is at most 32767.  In the code of such an
    expression, when the left operand has left its value [v] on the stack: if
    [v] decides the result (falsey for [and], truthy for [abi] and [or]) two
    instructions lead to the end of the expression with [v] itself as its
    value, the code of the right operand being skipped; otherwise three
    instructions take [v] off the stack and lead to the code of the right
    operand, whose value will be the result. *)
Theorem short_circuit_skips_right_operand
        (c c1 c' : Compiler) (t : Token) (l r : Expression) (operator : string)
        (tl : VM) (v : Value) :
  is_short_circuit operator = true ->
  compileExpression c (InfixExpression t l operator r) = Ok c' ->
  compileExpression c l = Ok c1 ->
  Count (c_chunk c') - Count (c_chunk c1) - 4 <= 32767 ->
  placed_at (Code (chunk tl)) (Count (c_chunk c)) (emitted c c') ->
  ip tl = Count (c_chunk c1) ->
  stack_get tl (stackTop tl - 1) = Ok v ->
  stackTop tl < STACK_MAX ->
  (jump_taken (short_circuit_jump operator) v = true ->
   exists final,
     execute 2 tl = Ok (Continue final)
     /\ ip final = Count (c_chunk c')
     /\ stackTop final = stackTop tl
     /\ stack_get final (stackTop tl - 1) = Ok v
     /\ globals final = globals tl /\ out final = out tl)
  /\ (jump_taken (short_circuit_jump operator) v = false ->
      exists mid,
        execute 3 tl = Ok (Continue mid)
        /\ ip mid = Count (c_chunk c1) + 5
        /\ stackTop mid = stackTop tl - 1
        /\ globals mid = globals tl /\ out mid = out tl
        /\ forall j, j < stackTop tl - 1 -> stack mid !! j = stack tl !! j).
Proof.
  intros Hop Hcomp Hl Hdist (pre & rest & Hcode & Hpre) Hip Hv Htop.
  destruct (short_circuit_layout _ _ _ _ _ _ Hop Hcomp)
    as (c1' & lcode & rcode & Hl' & Hl1 & HJ & Hc').
  rewrite Hl in Hl'. injection Hl' as <-.
  unfold emitted in Hcode. rewrite Hc', drop_app_length in Hcode.
  set (J := Z.of_nat (length rcode) + 1) in *.
  set (jop := short_circuit_jump operator) in *.
  assert (Hp1 : Count (c_chunk c1) = Z.of_nat (length (pre ++ lcode))).
  { unfold Count in *. fold (code_of c1). fold (code_of c) in Hpre.
    rewrite Hl1, !length_app. lia. }
  assert (Hp' : Count (c_chunk c') = Count (c_chunk c1) + 5 + Z.of_nat (length rcode)).
  { unfold Count. fold (code_of c') (code_of c1).
    rewrite Hc', Hl1, !length_app. cbn [length]. lia. }
  assert (HJ1 : J <= 32767) by lia.
  assert (Hfetch : forall k x,
             slice_at ([Opcode_byte OP_DUP; Opcode_byte jop;
                        to_byte (Z.shiftr J 8); to_byte (Z.land J 0xFF);
                        Opcode_byte OP_POP] ++ rcode ++ rest) k = Some x ->
             0 <= k ->
             slice_at (Code (chunk tl)) (ip tl + k) = Some x).
  { intros k x Hk Hk0. rewrite Hcode, Hip, Hp1.
    replace (pre ++ (lcode ++ [Opcode_byte OP_DUP; Opcode_byte jop;
                               to_byte (Z.shiftr J 8); to_byte (Z.land J 255);
                               Opcode_byte OP_POP] ++ rcode) ++ rest)
      with ((pre ++ lcode) ++ [Opcode_byte OP_DUP; Opcode_byte jop;
                               to_byte (Z.shiftr J 8); to_byte (Z.land J 255);
                               Opcode_byte OP_POP] ++ rcode ++ rest)
      by (rewrite <- !app_assoc; reflexivity).
    rewrite slice_at_app_r by lia. exact Hk. }
  destruct (step_dup tl v) as (d & Hd & Hdip & Hdtop & Hds & Hdg & Hdo & Hdc);
    [rewrite <- (Z.add_0_r (ip tl)); apply Hfetch; [fetch | lia] | exact Hv | exact Htop |].
  pose proof (stack_get_range _ _ _ Hv) as Hr.
  assert (Hjin : In jop [OP_JUMP; OP_JUMP_IF_LIE; OP_JUMP_IF_TRU]).
  { subst jop. unfold short_circuit_jump. destruct (String.eqb operator "and"); cbn; auto. }
  assert (Hjne : jop <> OP_JUMP).
  { subst jop. unfold short_circuit_jump. destruct (String.eqb operator "and"); discriminate. }
  destruct (step_jump d jop (to_byte (Z.shiftr J 8)) (to_byte (Z.land J 0xFF)) v Hjin)
    as (e & He & Heip & Hetop & Hes & Heg & Heo & Hec).
  { rewrite Hdc, Hdip. apply Hfetch; [fetch | lia]. }
  { rewrite Hdc, Hdip. replace (ip tl + 1 + 1) with (ip tl + 2) by lia.
    apply Hfetch; [fetch | lia]. }
  { rewrite Hdc, Hdip. replace (ip tl + 1 + 2) with (ip tl + 3) by lia.
    apply Hfetch; [fetch | lia]. }
  { intros _. rewrite stack_get_lookup by lia.
    rewrite Hdtop, Hds. replace (stackTop tl + 1 - 1) with (stackTop tl) by lia.
    rewrite lookup_insert_eq. reflexivity. }
  rewrite short_of_bytes_split, to_int16_small in Heip by lia.
  assert (Hetop' : stackTop e = stackTop tl).
  { rewrite Hetop, Hdtop. destruct jop; try lia. contradiction. }
  split; intros Htaken; rewrite Htaken in Heip.
  - exists e. split.
    { change 2%nat with (1 + 1)%nat.
      rewrite (execute_seq 1 1 tl d (execute_step _ _ Hd)).
      apply execute_step. exact He. }
    split; [rewrite Heip, Hdip, Hp', Hip; subst J; lia |].
    split; [exact Hetop' |].
    split.
    { rewrite stack_get_lookup by lia. rewrite Hes, Hds.
      rewrite lookup_insert_ne by lia.
      rewrite stack_get_lookup in Hv by lia. exact Hv. }
    split; congruence.
  - exists (set_stackTop (set_ip e (ip e + 1)) (stackTop e - 1)). split.
    { change 3%nat with (1 + (1 + 1))%nat.
      rewrite (execute_seq 1 (1 + 1) tl d (execute_step _ _ Hd)).
      rewrite (execute_seq 1 1 d e (execute_step _ _ He)).
      apply execute_step, step_pop.
      rewrite Hec, Hdc, Heip, Hdip.
      replace (ip tl + 1 + 3) with (ip tl + 4) by lia.
      apply Hfetch; [| lia].
      cbn [app]. change 4 with (0 + 1 + 1 + 1 + 1).
      rewrite !slice_at_S by lia. apply slice_at_0. }
    cbn [ip stackTop globals out stack set_stackTop set_ip].
    split; [rewrite Heip, Hdip, Hip; lia |].
    split; [lia |]. split; [congruence |]. split; [congruence |].
    intros j Hj. rewrite Hes, Hds. apply lookup_insert_ne. lia.
Qed.


Lemma short_circuit_skips_right_operand_witness :
  exists final,
    execute 2 and_left = Ok (Continue final)
    /\ ip final = 7
    /\ stackTop final = 1
    /\ stack_get final 0 = Ok (NewBool false).
Proof.
  destruct (short_circuit_skips_right_operand (New []) and_c1 and_done
              (tok "and" 1) (Boolean (tok "lie" 1) false)
              (Boolean (tok "tru" 1) true) "and"
              and_left (NewBool false)) as [H _].
  - reflexivity.
  - vm_compute. reflexivity.
  - vm_compute. reflexivity.
  - vm_compute. discriminate.
  - exists [], (drop 7 (Code (chunk and_left))).
    vm_compute. split; reflexivity.
  - vm_compute. reflexivity.
  - vm_compute. reflexivity.
  - vm_compute. reflexivity.
  - destruct (H eq_refl) as (final & H1 & H2 & H3 & H4 & _).
    exists final. split; [exact H1 |]. split; [exact H2 |].
    split; [exact H3 | exact H4].
Defined.


Lemma compileExpression_Suppose c t cond cq alt :
  compileExpression c (SupposeExpression t cond cq alt)
  = (let* c := compileExpression c cond in
     let '(c, jumpIfFalse) := emitJump c OP_JUMP_IF_LIE in
     let* c := compileBlock c cq in
     let '(c, jumpEnd) := emitJump c OP_JUMP in
     let* c := patchJump c jumpIfFalse in
     let* c := compileAlternative c alt in
     patchJump c jumpEnd).
Proof. reflexivity. Qed.

Lemma insert_two {A} (pre : list A) (a b x y : A) (rest : list A) :
  <[S (length pre) := y]> (<[length pre := x]> (pre ++ a :: b :: rest))
  = pre ++ x :: y :: rest.
Proof.
  rewrite insert_middle.
  replace (S (length pre)) with (length (pre ++ [x])) by (rewrite length_app; cbn; lia).
  replace (pre ++ x :: b :: rest) with ((pre ++ [x]) ++ b :: rest)
    by (rewrite <- app_assoc; reflexivity).
  rewrite insert_middle, <- app_assoc. reflexivity.
Qed.

Ltac lengths :=
  repeat (progress (rewrite ?length_app; cbn [length])); lia.

(** The code of a [suppose]: the condition, the jump over the consequence,
    the consequence, the jump over the alternative, the alternative. *)
Lemma suppose_layout c t cond cq alt c' :
  compileExpression c (SupposeExpression t cond cq alt) = Ok c' ->
  exists c1 c3 condcode conscode altcode,
    compileExpression c cond = Ok c1
    /\ compileBlock (fst (emitJump c1 OP_JUMP_IF_LIE)) cq = Ok c3
    /\ code_of c1 = code_of c ++ condcode
    /\ Z.of_nat (length (code_of c3))
       = Z.of_nat (length (code_of c1)) + 3 + Z.of_nat (length conscode)
    /\ Z.of_nat (length conscode) + 3 <= 65535
    /\ Z.of_nat (length altcode) <= 65535
    /\ code_of c'
       = code_of c ++ condcode
           ++ [Opcode_byte OP_JUMP_IF_LIE;
               to_byte (Z.shiftr (Z.of_nat (length conscode) + 3) 8);
               to_byte (Z.land (Z.of_nat (length conscode) + 3) 0xFF)]
           ++ conscode
           ++ [Opcode_byte OP_JUMP;
               to_byte (Z.shiftr (Z.of_nat (length altcode)) 8);
               to_byte (Z.land (Z.of_nat (length altcode)) 0xFF)]
           ++ altcode.
Proof.
  rewrite compileExpression_Suppose. cbv zeta. intros H.
  inv_bind H. rename a into c1.
  destruct (emitJump c1 OP_JUMP_IF_LIE) as [c2 j1] eqn:Hj1.
  pose proof Hj1 as Hj1'. apply emitJump_spec in Hj1' as [Hc2 ->].
  inv_bind H. rename a into c3.
  destruct (emitJump c3 OP_JUMP) as [c4 j2] eqn:Hj2.
  apply emitJump_spec in Hj2 as [-> ->].
  inv_bind H. rename a into c5. inv_bind H. rename a into c6.
  destruct compile_extends as (HE & _ & HB).
  destruct (prefix_exists _ _ (HE _ _ _ E)) as [condcode Hcond].
  destruct (prefix_exists _ _ (HB _ _ _ E0)) as [conscode Hcons].
  rewrite Hc2, code_of_append in Hcons.
  assert (Halt : exists altcode, code_of c6 = code_of c5 ++ altcode).
  { destruct alt as [alt |]; cbn [compileAlternative] in E2.
    - apply (prefix_exists _ _ (HB _ _ _ E2)).
    - injection E2 as <-. exists [Opcode_byte OP_NOTHING]. reflexivity. }
  destruct Halt as [altcode Halt].
  apply patchJump_spec in E1 as (J1 & HJ1 & HJ1le & _ & _ & Hcode5).
  apply patchJump_spec in H as (J2 & HJ2 & HJ2le & _ & _ & Hcode').
  rewrite code_of_append, Hcons in Hcode5, HJ1.
  rewrite !length_app in HJ1. cbn [length] in HJ1.
  assert (HJ1' : J1 = Z.of_nat (length conscode) + 3) by lia.
  (* the code after the first patch *)
  assert (H5 : code_of c5
               = code_of c1 ++ [Opcode_byte OP_JUMP_IF_LIE; to_byte (Z.shiftr J1 8);
                                to_byte (Z.land J1 0xFF)]
                   ++ conscode ++ [Opcode_byte OP_JUMP; 255; 255]).
  { rewrite Hcode5.
    replace (Z.to_nat (Z.of_nat (length (code_of c1)) + 1))
      with (length (code_of c1 ++ [Opcode_byte OP_JUMP_IF_LIE]))
      by (rewrite length_app; cbn [length]; lia).
    replace (Z.to_nat (Z.of_nat (length (code_of c1)) + 1 + 1))
      with (S (length (code_of c1 ++ [Opcode_byte OP_JUMP_IF_LIE])))
      by (rewrite length_app; cbn [length]; lia).
    replace (((code_of c1 ++ [Opcode_byte OP_JUMP_IF_LIE; 255; 255]) ++ conscode)
               ++ [Opcode_byte OP_JUMP; 255; 255])
      with ((code_of c1 ++ [Opcode_byte OP_JUMP_IF_LIE])
              ++ 255 :: 255 :: (conscode ++ [Opcode_byte OP_JUMP; 255; 255]))
      by (rewrite <- !app_assoc; reflexivity).
    rewrite insert_two, <- !app_assoc. reflexivity. }
  rewrite Halt, H5 in Hcode', HJ2.
  rewrite Hcons in HJ2. rewrite ?length_app in HJ2. cbn [length] in HJ2.
  rewrite ?length_app in HJ2. cbn [length] in HJ2.
  assert (HJ2' : J2 = Z.of_nat (length altcode)) by lia.
  exists c1, c3, condcode, conscode, altcode.
  split; [reflexivity |]. split; [rewrite Hj1; exact E0 |].
  split; [exact Hcond |].
  split; [rewrite Hcons; lengths |].
  split; [lia |]. split; [lia |].
  rewrite Hcode', <- HJ1', <- HJ2'.
  replace (Z.to_nat (Z.of_nat (length (code_of c3)) + 1))
    with (length (code_of c1 ++ [Opcode_byte OP_JUMP_IF_LIE; to_byte (Z.shiftr J1 8);
                                 to_byte (Z.land J1 0xFF)]
                    ++ conscode ++ [Opcode_byte OP_JUMP]))
    by (rewrite Hcons; lengths).
  replace (Z.to_nat (Z.of_nat (length (code_of c3)) + 1 + 1))
    with (S (length (code_of c1 ++ [Opcode_byte OP_JUMP_IF_LIE; to_byte (Z.shiftr J1 8);
                                    to_byte (Z.land J1 0xFF)]
                       ++ conscode ++ [Opcode_byte OP_JUMP])))
    by (rewrite Hcons; lengths).
  replace ((code_of c1 ++ [Opcode_byte OP_JUMP_IF_LIE; to_byte (Z.shiftr J1 8);
                           to_byte (Z.land J1 255)]
              ++ conscode ++ [Opcode_byte OP_JUMP; 255; 255]) ++ altcode)
    with ((code_of c1 ++ [Opcode_byte OP_JUMP_IF_LIE; to_byte (Z.shiftr J1 8);
                          to_byte (Z.land J1 255)]
             ++ conscode ++ [Opcode_byte OP_JUMP]) ++ 255 :: 255 :: altcode)
    by (rewrite <- ?app_assoc; cbn [app]; rewrite <- ?app_assoc; reflexivity).
  rewrite insert_two, Hcond, <- ?app_assoc. cbn [app].
  rewrite <- ?app_assoc. reflexivity.
Qed.

(** X29.  [suppose] runs one branch, as long as its two jumps fit the signed
    operand that the machine decodes: the code of the consequence plus three
    bytes, and the code of the alternative, are at most 32767 bytes long.  In
    the code of such a [suppose], with the value [v] of the condition on the
    stack, the conditional jump takes [v] off the stack and continues at the
    alternative if [v] is falsey and at the consequence otherwise; and the
    jump that ends the consequence leads to the end of the whole expression,
    over the alternative.  An absent alternative is compiled as the constant
    [nothing]. *)
Theorem suppose_takes_one_branch
        (c c1 c3 c' : Compiler) (t : Token) (cond : Expression)
        (cq : BlockStatement) (alt : option BlockStatement)
        (tl u : VM) (v : Value) :
  compileExpression c (SupposeExpression t cond cq alt) = Ok c' ->
  compileExpression c cond = Ok c1 ->
  compileBlock (fst (emitJump c1 OP_JUMP_IF_LIE)) cq = Ok c3 ->
  Count (c_chunk c3) - Count (c_chunk c1) <= 32767 ->
  Count (c_chunk c') - Count (c_chunk c3) - 3 <= 32767 ->
  placed_at (Code (chunk tl)) (Count (c_chunk c)) (emitted c c') ->
  ip tl = Count (c_chunk c1) ->
  stack_get tl (stackTop tl - 1) = Ok v ->
  Code (chunk u) = Code (chunk tl) ->
  ip u = Count (c_chunk c3) ->
  (exists tl',
     step tl = Ok (Continue tl')
     /\ ip tl' = (if IsFalsey v then Count (c_chunk c3) + 3
                  else Count (c_chunk c1) + 3)
     /\ stackTop tl' = stackTop tl - 1
     /\ stack tl' = stack tl /\ globals tl' = globals tl /\ out tl' = out tl)
  /\ (exists u',
        step u = Ok (Continue u')
        /\ ip u' = Count (c_chunk c')
        /\ stackTop u' = stackTop u
        /\ stack u' = stack u /\ globals u' = globals u /\ out u' = out u)
  /\ (alt = None ->
      slice_at (code_of c') (Count (c_chunk c3) + 3) = Some (Opcode_byte OP_NOTHING)
      /\ Count (c_chunk c') = Count (c_chunk c3) + 4).
Proof.
  intros Hcomp Hcond Hcons Hd1 Hd2 (pre & rest & Hcode & Hpre) Hip Hv Hcu Hipu.
  destruct (suppose_layout _ _ _ _ _ _ Hcomp)
    as (c1' & c3' & condcode & conscode & altcode
        & Hc1 & Hc3 & Hl1 & Hl3 & HJ1 & HJ2 & Hc').
  rewrite Hcond in Hc1. injection Hc1 as <-.
  rewrite Hcons in Hc3. injection Hc3 as <-.
  unfold emitted in Hcode. rewrite Hc', drop_app_length in Hcode.
  set (J1 := Z.of_nat (length conscode) + 3) in *.
  set (J2 := Z.of_nat (length altcode)) in *.
  unfold Count in *. fold (code_of c) (code_of c1) (code_of c3) (code_of c') in *.
  assert (Hn1 : Z.of_nat (length (code_of c1))
                = Z.of_nat (length (pre ++ condcode))).
  { rewrite Hl1, !length_app. lia. }
  assert (Hn' : Z.of_nat (length (code_of c'))
                = Z.of_nat (length (code_of c3)) + 3 + J2).
  { rewrite Hc'. repeat (progress (rewrite ?length_app; cbn [length])).
    rewrite Hl1, length_app in Hl3. subst J1 J2. lia. }
  assert (Hf1 : forall k x,
             slice_at ([Opcode_byte OP_JUMP_IF_LIE; to_byte (Z.shiftr J1 8);
                        to_byte (Z.land J1 0xFF)]
                         ++ conscode
                         ++ [Opcode_byte OP_JUMP; to_byte (Z.shiftr J2 8);
                             to_byte (Z.land J2 0xFF)] ++ altcode ++ rest) k
             = Some x ->
             0 <= k -> slice_at (Code (chunk tl)) (ip tl + k) = Some x).
  { intros k x Hk Hk0. rewrite Hcode, Hip, Hn1.
    replace (pre ++ (condcode ++ [Opcode_byte OP_JUMP_IF_LIE; to_byte (Z.shiftr J1 8);
                                  to_byte (Z.land J1 255)]
                       ++ conscode
                       ++ [Opcode_byte OP_JUMP; to_byte (Z.shiftr J2 8);
                           to_byte (Z.land J2 255)] ++ altcode) ++ rest)
      with ((pre ++ condcode)
              ++ [Opcode_byte OP_JUMP_IF_LIE; to_byte (Z.shiftr J1 8);
                  to_byte (Z.land J1 255)]
              ++ conscode
              ++ [Opcode_byte OP_JUMP; to_byte (Z.shiftr J2 8);
                  to_byte (Z.land J2 255)] ++ altcode ++ rest)
      by (rewrite <- ?app_assoc; reflexivity).
    rewrite slice_at_app_r by lia. exact Hk. }
  assert (Hf3 : forall k x,
             slice_at ([Opcode_byte OP_JUMP; to_byte (Z.shiftr J2 8);
                        to_byte (Z.land J2 0xFF)] ++ altcode ++ rest) k = Some x ->
             0 <= k -> slice_at (Code (chunk u)) (ip u + k) = Some x).
  { intros k x Hk Hk0. rewrite Hcu, Hipu, Hl3.
    replace (Z.of_nat (length (code_of c1)) + 3 + Z.of_nat (length conscode) + k)
      with (ip tl + (3 + Z.of_nat (length conscode) + k)) by lia.
    apply Hf1; [| lia].
    change ([Opcode_byte OP_JUMP_IF_LIE; to_byte (Z.shiftr J1 8);
             to_byte (Z.land J1 255)] ++ conscode ++
            [Opcode_byte OP_JUMP; to_byte (Z.shiftr J2 8); to_byte (Z.land J2 255)]
            ++ altcode ++ rest)
      with ([Opcode_byte OP_JUMP_IF_LIE; to_byte (Z.shiftr J1 8);
             to_byte (Z.land J1 255)] ++ (conscode ++
            [Opcode_byte OP_JUMP; to_byte (Z.shiftr J2 8); to_byte (Z.land J2 255)]
            ++ altcode ++ rest)).
    replace (3 + Z.of_nat (length conscode) + k)
      with (Z.of_nat (length [Opcode_byte OP_JUMP_IF_LIE; to_byte (Z.shiftr J1 8);
                              to_byte (Z.land J1 255)])
            + (Z.of_nat (length conscode) + k)) by (cbn [length]; lia).
    rewrite slice_at_app_r, slice_at_app_r by lia. exact Hk. }
  split; [| split].
  - destruct (step_jump tl OP_JUMP_IF_LIE (to_byte (Z.shiftr J1 8))
                        (to_byte (Z.land J1 0xFF)) v)
      as (tl' & Hs & Hi & Ht & Hst & Hg & Ho & _).
    + cbn. auto.
    + rewrite <- (Z.add_0_r (ip tl)). apply Hf1; [fetch | lia].
    + apply Hf1; [fetch | lia].
    + apply Hf1; [fetch | lia].
    + intros _. exact Hv.
    + exists tl'. split; [exact Hs |].
      rewrite short_of_bytes_split, to_int16_small in Hi by lia.
      cbn [jump_taken] in Hi.
      split; [rewrite Hi, Hip, Hl3; destruct (IsFalsey v); subst J1; lia |].
      auto.
  - destruct (step_jump u OP_JUMP (to_byte (Z.shiftr J2 8))
                        (to_byte (Z.land J2 0xFF)) v)
      as (u' & Hs & Hi & Ht & Hst & Hg & Ho & _).
    + cbn. auto.
    + rewrite <- (Z.add_0_r (ip u)). apply Hf3; [fetch | lia].
    + apply Hf3; [fetch | lia].
    + apply Hf3; [fetch | lia].
    + intros Hn. contradiction.
    + exists u'. split; [exact Hs |].
      rewrite short_of_bytes_split, to_int16_small in Hi by lia.
      cbn [jump_taken] in Hi.
      split; [rewrite Hi, Hipu, Hn'; lia |]. auto.
  - intros ->.
    rewrite compileExpression_Suppose in Hcomp. cbv zeta in Hcomp.
    rewrite Hcond in Hcomp. cbn [bind] in Hcomp.
    destruct (emitJump c1 OP_JUMP_IF_LIE) as [c2 j1] eqn:Hj1.
    cbn [fst] in Hcons. rewrite Hcons in Hcomp. cbn [bind] in Hcomp.
    destruct (emitJump c3 OP_JUMP) as [c4 j2] eqn:Hj2.
    apply emitJump_spec in Hj2 as [-> ->].
    inv_bind Hcomp. rename a into c5. cbn [compileAlternative bind] in Hcomp.
    pose proof (patchJump_chunk _ _ _ E) as (Hlen5 & _).
    rewrite code_of_append, length_app in Hlen5. cbn [length] in Hlen5.
    assert (H5 : slice_at (code_of (emit c5 OP_NOTHING))
                          (Z.of_nat (length (code_of c3)) + 3)
                 = Some (Opcode_byte OP_NOTHING)).
    { rewrite emit_append, code_of_append.
      replace (Z.of_nat (length (code_of c3)) + 3)
        with (Z.of_nat (length (code_of c5)) + 0) by lia.
      rewrite slice_at_app_r by lia. apply slice_at_0. }
    pose proof (patchJump_spec _ _ _ Hcomp) as (J & _ & _ & _ & _ & Hcode6).
    pose proof (patchJump_chunk _ _ _ Hcomp) as (Hlen6 & _).
    split.
    + rewrite Hcode6, !slice_at_insert_ne by lia. exact H5.
    + rewrite Hlen6, emit_append, code_of_append, length_app. cbn [length]. lia.
Qed.


Lemma suppose_takes_one_branch_witness :
  (exists tl',
     step suppose_decided = Ok (Continue tl')
     /\ ip tl' = 8 /\ stackTop tl' = 0)
  /\ (exists u',
        step (set_ip suppose_decided 5) = Ok (Continue u')
        /\ ip u' = 10).
Proof.
  destruct (suppose_takes_one_branch (New []) suppose_c1 suppose_c3 suppose_done
              (tok "suppose" 1) (Boolean (tok "lie" 1) false)
              (Block (tok "{" 1)
                 [ExpressionStatement (tok "1" 1) (IntegerLiteral (tok "1" 1) 1)])
              (Some (Block (tok "{" 1)
                 [ExpressionStatement (tok "2" 1) (IntegerLiteral (tok "2" 1) 2)]))
              suppose_decided
              (set_ip suppose_decided 5) (NewBool false))
    as ((tl' & H1 & H2 & H3 & _) & (u' & G1 & G2 & _) & _).
  - vm_compute. reflexivity.
  - vm_compute. reflexivity.
  - vm_compute. reflexivity.
  - vm_compute. discriminate.
  - vm_compute. discriminate.
  - exists [], (drop 10 (Code (chunk suppose_decided))).
    vm_compute. split; reflexivity.
  - vm_compute. reflexivity.
  - vm_compute. reflexivity.
  - reflexivity.
  - vm_compute. reflexivity.
  - split.
    + exists tl'. split; [exact H1 |]. split; [exact H2 | exact H3].
    + exists u'. split; [exact G1 | exact G2].
Defined.
